(** * onto-show: the ontology graph builder and its caching query service

    A shallow embedding of
      - [app/utils/xml_cleaner.py]        (XML character escaping),
      - [app/models/schema.py]            (the node and edge records),
      - [app/utils/ontology_parser.py]    (the triple-to-graph build, the export),
      - [app/services/ontology_service.py] (the cached query service),
    together with the properties the specification states about them.

    Conventions.  A Python [str] is a [string]; [None] is [None] of an
    [option]; a Python [dict] is an association list in insertion order with
    pairwise distinct keys; an exception is the [Raise] branch of [Result];
    attribute mutation of an object stored in a dict is a read of the entry
    followed by a write at the same key (which keeps its position); a Python
    [float] is a binary64 [float], with the machine's subtraction and
    comparison. *)

From Stdlib Require Import PrimFloat List String Ascii Bool Arith ZArith Lia.
Import ListNotations.

Local Open Scope string_scope.
Local Open Scope list_scope.

(* ================================================================== *)
(** * Python primitives *)
(* ================================================================== *)

Module Py.

(** Exceptions that the embedded code can raise. *)
Inductive Exception : Type :=
| SourceUnavailable (detail : string)   (* Graph.parse failed *)
| KeyError (key : string)               (* d[k] on a missing key *)
| OSError (path : string).              (* makedirs / open failed *)

Inductive Result (A : Type) : Type :=
| Ok (a : A)
| Raise (e : Exception).
Arguments Ok {A} a.
Arguments Raise {A} e.

Definition bind {A B} (c : Result A) (k : A -> Result B) : Result B :=
  match c with
  | Ok a => k a
  | Raise e => Raise e
  end.

(** [for x in xs: body], threading the loop state and stopping at the first
    exception. *)
Fixpoint for_each {A S : Type} (xs : list A) (body : A -> S -> Result S) (s : S)
  : Result S :=
  match xs with
  | [] => Ok s
  | x :: rest => bind (body x s) (for_each rest body)
  end.

(** Truthiness of an [Optional[str]]: [None] and the empty string are falsy. *)
Definition truthy (o : option string) : bool :=
  match o with
  | Some (String _ _) => true
  | _ => false
  end.

(** [a or b] for [a : Optional[str]], [b : str]. *)
Definition or_else (a : option string) (b : string) : string :=
  match a with
  | Some (String c r) => String c r
  | _ => b
  end.

(** [needle in haystack] on strings: some suffix of the haystack starts with
    the needle. *)
Fixpoint contains (needle haystack : string) : bool :=
  String.prefix needle haystack ||
  match haystack with
  | EmptyString => false
  | String _ rest => contains needle rest
  end.

(** [s.split(sep)] for a one-character separator: the list of the maximal
    separator-free pieces, never empty. *)
Fixpoint split (sep : ascii) (s : string) : list string :=
  match s with
  | EmptyString => [EmptyString]
  | String c rest =>
      if Ascii.eqb c sep then EmptyString :: split sep rest
      else match split sep rest with
           | [] => [String c EmptyString]
           | piece :: pieces => String c piece :: pieces
           end
  end.

(** [xs[-1]] on a list of strings known to be non-empty. *)
Definition last_item (xs : list string) : string := List.last xs EmptyString.

(** [s.replace(old, new)] for a non-empty [old]: scan from the left; at a
    position where [old] starts, emit [new] and resume after the match.
    [skip] counts the characters of a match that are still to be dropped. *)
Fixpoint replace_from (old new : string) (skip : nat) (s : string) : string :=
  match s with
  | EmptyString => EmptyString
  | String c rest =>
      match skip with
      | S k => replace_from old new k rest
      | O =>
          if String.prefix old s
          then new ++ replace_from old new (String.length old - 1) rest
          else String c (replace_from old new 0 rest)
      end
  end.

(** With an empty [old], Python inserts [new] before every character and at
    the end. *)
Fixpoint intersperse (new s : string) : string :=
  match s with
  | EmptyString => new
  | String c rest => new ++ String c (intersperse new rest)
  end.

Definition replace (old new s : string) : string :=
  match old with
  | EmptyString => intersperse new s
  | String _ _ => replace_from old new 0 s
  end.

(** ASCII instance of [str.lower()], used for concrete runs; the theorems
    about search hold for every case-folding function that maps the empty
    string to itself. *)
Definition ascii_lower_char (c : ascii) : ascii :=
  let n := nat_of_ascii c in
  if (65 <=? n)%nat && (n <=? 90)%nat then ascii_of_nat (n + 32) else c.

Fixpoint ascii_lower (s : string) : string :=
  match s with
  | EmptyString => EmptyString
  | String c rest => String (ascii_lower_char c) (ascii_lower rest)
  end.

End Py.

Import Py.

Declare Scope py_scope.
Notation "x <- c ;; k" := (Py.bind c (fun x => k))
  (at level 61, c at next level, right associativity) : py_scope.
Local Open Scope py_scope.

(* ================================================================== *)
(** * app/utils/xml_cleaner.py *)
(* ================================================================== *)

Module XMLCleaner.

Definition dquote : string := String (ascii_of_nat 34) EmptyString.
Definition squote : string := String (ascii_of_nat 39) EmptyString.

(** The two class-level tables, in their insertion order. *)
Definition XML_ESCAPE_MAP : list (string * string) :=
  [ ("&", "&amp;"); ("<", "&lt;"); (">", "&gt;");
    (dquote, "&quot;"); (squote, "&apos;") ].

Definition XML_UNESCAPE_MAP : list (string * string) :=
  [ ("&amp;", "&"); ("&lt;", "<"); ("&gt;", ">");
    ("&quot;", dquote); ("&apos;", squote) ].

(** [for a, b in table.items(): text = text.replace(a, b)] *)
Definition replace_all (table : list (string * string)) (text : string) : string :=
  fold_left (fun acc entry => Py.replace (fst entry) (snd entry) acc) table text.

Definition escape_xml_chars (text : string) : string :=
  match text with
  | EmptyString => text
  | _ => replace_all XML_ESCAPE_MAP text
  end.

Definition unescape_xml_chars (text : string) : string :=
  match text with
  | EmptyString => text
  | _ => replace_all XML_UNESCAPE_MAP text
  end.

(** [validate_xml_escaping]: no raw special character is left. *)
Definition validate_xml_escaping (text : string) : bool :=
  match text with
  | EmptyString => true
  | _ => forallb (fun c => negb (Py.contains c text))
                 ["<"; ">"; "&"; dquote; squote]
  end.

End XMLCleaner.

(* ================================================================== *)
(** * Insertion-ordered dictionaries *)
(* ================================================================== *)

Module Dict.
Section Ops.
Context {V : Type}.

Definition t : Type := list (string * V).

(** [d.get(k)] *)
Fixpoint get (k : string) (d : t) : option V :=
  match d with
  | [] => None
  | (k', v) :: rest => if String.eqb k' k then Some v else get k rest
  end.

(** [k in d] *)
Definition mem (k : string) (d : t) : bool :=
  match get k d with Some _ => true | None => false end.

(** [d[k]], raising [KeyError] on a missing key. *)
Definition getitem (k : string) (d : t) : Result V :=
  match get k d with Some v => Ok v | None => Raise (KeyError k) end.

(** [d[k] = v]: an existing key keeps its position, a new key goes last. *)
Fixpoint set (k : string) (v : V) (d : t) : t :=
  match d with
  | [] => [(k, v)]
  | (k', v') :: rest =>
      if String.eqb k' k then (k, v) :: rest else (k', v') :: set k v rest
  end.

Definition keys (d : t) : list string := map fst d.
Definition values (d : t) : list V := map snd d.
Definition items (d : t) : list (string * V) := d.
Definition len (d : t) : Z := Z.of_nat (List.length d).

End Ops.
Arguments t V : clear implicits.
End Dict.

(* ================================================================== *)
(** * app/models/schema.py *)
(* ================================================================== *)

Module ParentRelation.
Record t : Type := make { parentId : string; relationType : string }.
Definition eq_dec (a b : t) : {a = b} + {a <> b}.
Proof. decide equality; apply string_dec. Defined.
End ParentRelation.

Module ChildRelation.
Record t : Type := make { childId : string; relationType : string }.
Definition eq_dec (a b : t) : {a = b} + {a <> b}.
Proof. decide equality; apply string_dec. Defined.
End ChildRelation.

Module TreeNode.
Record t : Type := make {
  id : string;
  label : option string;
  label_zh : option string;
  definition : option string;
  definition_zh : option string;
  iri : option string;
  isLeaf : bool;
  count : option Z;
  children : list ChildRelation.t;
  parents : list ParentRelation.t
}.

(** [TreeNode(id=i)]: every other field takes its declared default. *)
Definition new (i : string) : t :=
  make i None None None None None true (Some 0%Z) [] [].

(** Attribute assignment and in-place [append] on the list attributes. *)
Definition parents_append (n : t) (p : ParentRelation.t) : t :=
  make (id n) (label n) (label_zh n) (definition n) (definition_zh n) (iri n)
       (isLeaf n) (count n) (children n) (parents n ++ [p]).
Definition children_append (n : t) (c : ChildRelation.t) : t :=
  make (id n) (label n) (label_zh n) (definition n) (definition_zh n) (iri n)
       (isLeaf n) (count n) (children n ++ [c]) (parents n).
Definition set_isLeaf (n : t) (b : bool) : t :=
  make (id n) (label n) (label_zh n) (definition n) (definition_zh n) (iri n)
       b (count n) (children n) (parents n).
Definition set_count (n : t) (c : Z) : t :=
  make (id n) (label n) (label_zh n) (definition n) (definition_zh n) (iri n)
       (isLeaf n) (Some c) (children n) (parents n).
End TreeNode.

Record Statistics : Type := {
  total_terms : Z;
  total_classes : Z;
  total_relations : Z;
  subClassOf_relations : Z;
  partOf_relations : Z;
  leaf_nodes : Z;
  max_depth : Z
}.

(** What [json.dump] receives. *)
#[warnings="-register-all"] Inductive Json : Type :=
| JNull
| JBool (b : bool)
| JInt (z : Z)
| JStr (s : string)
| JList (xs : list Json)
| JDict (fields : list (string * Json)).

Definition json_opt_str (o : option string) : Json :=
  match o with Some s => JStr s | None => JNull end.
Definition json_opt_int (o : option Z) : Json :=
  match o with Some z => JInt z | None => JNull end.

(** [node.dict()] *)
Definition ChildRelation_dict (c : ChildRelation.t) : Json :=
  JDict [ ("childId", JStr (ChildRelation.childId c));
          ("relationType", JStr (ChildRelation.relationType c)) ].
Definition ParentRelation_dict (p : ParentRelation.t) : Json :=
  JDict [ ("parentId", JStr (ParentRelation.parentId p));
          ("relationType", JStr (ParentRelation.relationType p)) ].
Definition TreeNode_dict (n : TreeNode.t) : Json :=
  JDict [ ("id", JStr (TreeNode.id n));
          ("label", json_opt_str (TreeNode.label n));
          ("label_zh", json_opt_str (TreeNode.label_zh n));
          ("definition", json_opt_str (TreeNode.definition n));
          ("definition_zh", json_opt_str (TreeNode.definition_zh n));
          ("iri", json_opt_str (TreeNode.iri n));
          ("isLeaf", JBool (TreeNode.isLeaf n));
          ("count", json_opt_int (TreeNode.count n));
          ("children", JList (map ChildRelation_dict (TreeNode.children n)));
          ("parents", JList (map ParentRelation_dict (TreeNode.parents n))) ].

Definition Nodes : Type := Dict.t TreeNode.t.

(* ================================================================== *)
(** * The triple source (rdflib's [Graph], as far as the parser uses it) *)
(* ================================================================== *)

Module Rdf.

Inductive Term : Type :=
| URIRef (iri : string)
| BNode (ident : string)
| Literal (lexical : string) (language : option string).

(** [str(term)] *)
Definition str (t : Term) : string :=
  match t with
  | URIRef s => s
  | BNode s => s
  | Literal s _ => s
  end.

Definition Triple : Type := (Term * Term * Term)%type.
Definition subj (t : Triple) : Term := fst (fst t).
Definition pred (t : Triple) : Term := snd (fst t).
Definition obj (t : Triple) : Term := snd t.

(** The one capability the parser consumes: [g.triples((s, p, o))] with
    [None] as a wildcard.  Nothing is assumed about enumeration order. *)
Class TripleSource (G : Type) : Type := {
  triples : G -> option Term -> option Term -> option Term -> list Triple
}.

Section Derived.
Context {G : Type} `{TripleSource G}.

(** [g.subjects(p, o)], [g.objects(s, p)] and [(s, p, o) in g], each defined
    by rdflib through [triples]. *)
Definition subjects (g : G) (p o : Term) : list Term :=
  map subj (triples g None (Some p) (Some o)).
Definition objects (g : G) (s p : Term) : list Term :=
  map obj (triples g (Some s) (Some p) None).
Definition mem (g : G) (s p o : Term) : bool :=
  match triples g (Some s) (Some p) (Some o) with
  | [] => false
  | _ :: _ => true
  end.
End Derived.

(** A concrete source: the triples in document order. *)
Definition opt_eqb (a b : option string) : bool :=
  match a, b with
  | Some x, Some y => String.eqb x y
  | None, None => true
  | _, _ => false
  end.

Definition Term_eqb (a b : Term) : bool :=
  match a, b with
  | URIRef x, URIRef y => String.eqb x y
  | BNode x, BNode y => String.eqb x y
  | Literal x l, Literal y m => String.eqb x y && opt_eqb l m
  | _, _ => false
  end.

Definition matches (pat : option Term) (t : Term) : bool :=
  match pat with
  | None => true
  | Some u => Term_eqb u t
  end.

#[export] Instance ListSource : TripleSource (list Triple) := {
  triples g s p o :=
    filter (fun t => matches s (subj t) && matches p (pred t) && matches o (obj t)) g
}.

(** Vocabulary. *)
Definition RDF_type : Term := URIRef "http://www.w3.org/1999/02/22-rdf-syntax-ns#type".
Definition RDFS_label : Term := URIRef "http://www.w3.org/2000/01/rdf-schema#label".
Definition RDFS_subClassOf : Term := URIRef "http://www.w3.org/2000/01/rdf-schema#subClassOf".
Definition OWL_Class : Term := URIRef "http://www.w3.org/2002/07/owl#Class".
Definition OWL_Restriction : Term := URIRef "http://www.w3.org/2002/07/owl#Restriction".
Definition OWL_onProperty : Term := URIRef "http://www.w3.org/2002/07/owl#onProperty".
Definition OWL_someValuesFrom : Term := URIRef "http://www.w3.org/2002/07/owl#someValuesFrom".

End Rdf.

(* ================================================================== *)
(** * app/utils/ontology_parser.py *)
(* ================================================================== *)

Module OntologyParser.
Import Rdf.

Definition OBO (name : string) : Term :=
  URIRef ("http://purl.obolibrary.org/obo/" ++ name).
Definition OBOINOWL (name : string) : Term :=
  URIRef ("http://www.geneontology.org/formats/oboInOwl#" ++ name).
Definition PART_OF : Term := OBO "BFO_0000050".

(** The loop of [_get_literal] over the objects already enumerated. *)
Fixpoint first_literal (lang : option string) (objs : list Term) : option string :=
  match objs with
  | [] => None
  | Literal text language :: rest =>
      match lang with
      | None => Some text
      | Some _ => if opt_eqb language lang then Some text
                  else first_literal lang rest
      end
  | _ :: rest => first_literal lang rest
  end.

Section Build.
Context {G : Type} `{TripleSource G}.

Definition _get_literal (graph : G) (subject predicate : Term)
           (lang : option string) : option string :=
  first_literal lang (objects graph subject predicate).

(** Step 1 body (lines 35-49). *)
Definition declare_class (g : G) (s : Term) (nodes : Nodes) : Nodes :=
  let iri := str s in
  let node_id :=
    Py.or_else (_get_literal g s (OBOINOWL "id") None)
               (Py.last_item (Py.split "/" iri)) in
  let label := _get_literal g s RDFS_label None in
  let label_zh := _get_literal g s RDFS_label (Some "zh") in
  let definition := _get_literal g s (OBO "IAO_0000115") None in
  let definition_zh := _get_literal g s (OBO "IAO_0000115") (Some "zh") in
  Dict.set node_id
    (TreeNode.make node_id label label_zh definition definition_zh (Some iri)
                   true (Some 0%Z) [] [])
    nodes.

(** Lines 60-72 and, with the other relation name, lines 87-99: create the
    two endpoints if missing, append the two edge records, clear the
    parent's leaf flag. *)
Definition link (relationType child_id parent_id : string) (nodes : Nodes)
  : Result Nodes :=
  let nodes :=
    if negb (Dict.mem child_id nodes)
    then Dict.set child_id (TreeNode.new child_id) nodes else nodes in
  let nodes :=
    if negb (Dict.mem parent_id nodes)
    then Dict.set parent_id (TreeNode.new parent_id) nodes else nodes in
  child <- Dict.getitem child_id nodes ;;
  let nodes :=
    Dict.set child_id
      (TreeNode.parents_append child
         (ParentRelation.make parent_id relationType)) nodes in
  parent <- Dict.getitem parent_id nodes ;;
  let nodes :=
    Dict.set parent_id
      (TreeNode.children_append parent
         (ChildRelation.make child_id relationType)) nodes in
  parent <- Dict.getitem parent_id nodes ;;
  Ok (Dict.set parent_id (TreeNode.set_isLeaf parent false) nodes).

(** Step 2 body (lines 53-72). *)
Definition subclass_body (g : G) (t : Triple) (nodes : Nodes) : Result Nodes :=
  let s := subj t in
  let o := obj t in
  if mem g o RDF_type OWL_Restriction then Ok nodes
  else
    let child_id :=
      Py.or_else (_get_literal g s (OBOINOWL "id") None)
                 (Py.last_item (Py.split "/" (str s))) in
    let parent_id :=
      Py.or_else (_get_literal g o (OBOINOWL "id") None)
                 (Py.last_item (Py.split "/" (str o))) in
    link "subClassOf" child_id parent_id nodes.

(** Step 3, innermost body (lines 84-99). *)
Definition partof_target_body (g : G) (s : Term) (t : Triple) (nodes : Nodes)
  : Result Nodes :=
  let parent_uri := obj t in
  let child_id :=
    Py.or_else (_get_literal g s (OBOINOWL "id") None)
               (Py.last_item (Py.split "/" (str s))) in
  let parent_id :=
    Py.or_else (_get_literal g parent_uri (OBOINOWL "id") None)
               (Py.last_item (Py.split "/" (str parent_uri))) in
  link "partOf" child_id parent_id nodes.

(** Step 3, middle body (lines 81-99). *)
Definition partof_property_body (g : G) (s restriction : Term) (t : Triple)
           (nodes : Nodes) : Result Nodes :=
  let property_uri := obj t in
  if String.eqb (str property_uri) (str PART_OF)
  then Py.for_each (triples g (Some restriction) (Some OWL_someValuesFrom) None)
                   (partof_target_body g s) nodes
  else Ok nodes.

(** Step 3, outer body (lines 77-99). *)
Definition partof_body (g : G) (t : Triple) (nodes : Nodes) : Result Nodes :=
  let s := subj t in
  let restriction := obj t in
  if mem g restriction RDF_type OWL_Restriction
  then Py.for_each (triples g (Some restriction) (Some OWL_onProperty) None)
                   (partof_property_body g s restriction) nodes
  else Ok nodes.

(** Step 4 (lines 102-103). *)
Definition derive_counts (nodes : Nodes) : Nodes :=
  map (fun kv =>
         (fst kv,
          TreeNode.set_count (snd kv)
            (Z.of_nat (List.length (TreeNode.children (snd kv))))))
      nodes.

(** Lines 31-105: everything after the document has been loaded. *)
Definition build (g : G) : Result Nodes :=
  let nodes : Nodes := [] in
  let nodes :=
    fold_left (fun nodes s => declare_class g s nodes)
              (subjects g RDF_type OWL_Class) nodes in
  nodes <- Py.for_each (triples g None (Some RDFS_subClassOf) None)
                       (subclass_body g) nodes ;;
  nodes <- Py.for_each (triples g None (Some RDFS_subClassOf) None)
                       (partof_body g) nodes ;;
  Ok (derive_counts nodes).

(** [parse_ontology(file_path)]; [read_graph] stands for
    [Graph().parse(file_path, format="xml")] on the current file system. *)
Definition parse_ontology (read_graph : string -> Result G) (file_path : string)
  : Result Nodes :=
  g <- read_graph file_path ;;
  build g.

End Build.

(** [save_nodes_to_json]: returns the path and the object handed to
    [json.dump], or the I/O failure.  [strftime_now] and [isoformat_now] are
    the two readings of [datetime.now()]; [can_write] tells whether
    [os.makedirs] and [open] succeed for a path. *)
Definition save_nodes_to_json
           (strftime_now isoformat_now : string) (can_write : string -> bool)
           (nodes : Nodes) (output_file : option string)
  : Result (string * Json) :=
  let output_file :=
    match output_file with
    | None => ("ontology_nodes_" ++ strftime_now ++ ".json")%string
    | Some f => f
    end in
  if negb (can_write output_file) then Raise (OSError output_file)
  else
    let nodes_data :=
      fold_left (fun acc kv => Dict.set (fst kv) (TreeNode_dict (snd kv)) acc)
                (Dict.items nodes) [] in
    let output_data :=
      JDict [ ("metadata",
               JDict [ ("total_nodes", JInt (Dict.len nodes));
                       ("generated_at", JStr isoformat_now);
                       ("description", JStr "Parsed ontology nodes from OWL file") ]);
              ("nodes", JDict nodes_data) ] in
    Ok (output_file, output_data).

End OntologyParser.

(* ================================================================== *)
(** * app/services/ontology_service.py *)
(* ================================================================== *)

Module OntologyService.
Import Rdf OntologyParser.

(** [str.lower()], kept abstract: the service only ever compares the lowered
    query with lowered fields. *)
Class CaseFolding : Type := {
  lower : string -> string;
  lower_empty : lower EmptyString = EmptyString
}.

#[export] Instance AsciiFolding : CaseFolding := {
  lower := Py.ascii_lower;
  lower_empty := eq_refl
}.

(** What an operation reads from its surroundings when it runs. *)
Record Env (G : Type) : Type := {
  time_time : float;                    (* time.time() *)
  read_graph : string -> Result G;      (* Graph().parse(path, format="xml") *)
  strftime_now : string;
  isoformat_now : string;
  can_write : string -> bool
}.
Arguments time_time {G} _.
Arguments read_graph {G} _ _.
Arguments strftime_now {G} _.
Arguments isoformat_now {G} _.
Arguments can_write {G} _ _.

(** The instance attributes. *)
Record t : Type := {
  owl_file_path : string;
  _cache : option Nodes;
  _cache_timestamp : option float
}.

(** What an operation leaves behind: the instance, the externally visible
    actions it took, and its return value or exception. *)
Inductive Event : Type :=
| ParseAttempt (path : string)
| Wrote (path : string) (data : Json).

Record Outcome (A : Type) : Type := {
  self' : t;
  events : list Event;
  result : Result A
}.
Arguments self' {A} _.
Arguments events {A} _.
Arguments result {A} _.

Definition __init__ (owl_file_path : string) : t :=
  {| owl_file_path := owl_file_path; _cache := None; _cache_timestamp := None |}.

(** The literal [3600] of the comparison; an [int], which Python compares
    with a [float] by value, and which is a binary64 value. *)
Definition ttl : float := 3600%float.

(** [a > b] on floats. *)
Definition gt (a b : float) : bool := PrimFloat.ltb b a.

Section Service.
Context {G : Type} `{TripleSource G} `{CaseFolding}.

Definition rebuild (env : Env G) (self : t) (current_time : float)
  : Outcome Nodes :=
  match parse_ontology (read_graph env) (owl_file_path self) with
  | Ok nodes =>
      {| self' := {| owl_file_path := owl_file_path self;
                     _cache := Some nodes;
                     _cache_timestamp := Some current_time |};
         events := [ParseAttempt (owl_file_path self)];
         result := Ok nodes |}
  | Raise e =>
      {| self' := self;
         events := [ParseAttempt (owl_file_path self)];
         result := Raise e |}
  end.

Definition _get_parsed_data (env : Env G) (self : t) : Outcome Nodes :=
  let current_time := time_time env in
  match _cache self, _cache_timestamp self with
  | Some cache, Some timestamp =>
      if gt (PrimFloat.sub current_time timestamp) ttl
      then rebuild env self current_time
      else {| self' := self; events := []; result := Ok cache |}
  | _, _ => rebuild env self current_time
  end.

(** [data = self._get_parsed_data()] followed by a computation on [data]. *)
Definition with_data {A : Type} (env : Env G) (self : t)
           (k : Nodes -> list Event * Result A) : Outcome A :=
  let o := _get_parsed_data env self in
  match result o with
  | Ok data =>
      {| self' := self' o; events := events o ++ fst (k data); result := snd (k data) |}
  | Raise e =>
      {| self' := self' o; events := events o; result := Raise e |}
  end.

Definition get_all_terms (env : Env G) (self : t) : Outcome (list TreeNode.t) :=
  with_data env self (fun data => ([], Ok (Dict.values data))).

Definition get_term_by_id (env : Env G) (self : t) (term_id : string)
  : Outcome (option TreeNode.t) :=
  with_data env self (fun data => ([], Ok (Dict.get term_id data))).

(** [field and query_lower in field.lower()] used as a condition. *)
Definition field_hit (query_lower : string) (field : option string) : bool :=
  match field with
  | Some (String c r) => Py.contains query_lower (lower (String c r))
  | _ => false
  end.

(** The loop of [search_terms] (lines 77-96). *)
Fixpoint search_loop (query_lower : string) (terms results : list TreeNode.t)
  : list TreeNode.t :=
  match terms with
  | [] => results
  | term :: rest =>
      if field_hit query_lower (TreeNode.label term)
      then search_loop query_lower rest (results ++ [term])
      else if field_hit query_lower (TreeNode.label_zh term)
      then search_loop query_lower rest (results ++ [term])
      else if field_hit query_lower (TreeNode.definition term)
      then search_loop query_lower rest (results ++ [term])
      else if field_hit query_lower (TreeNode.definition_zh term)
      then search_loop query_lower rest (results ++ [term])
      else search_loop query_lower rest results
  end.

(** [search_terms] on the data it obtained. *)
Definition search_in (data : Nodes) (query : string) : list TreeNode.t :=
  let query_lower := lower query in
  search_loop query_lower (Dict.values data) [].

Definition search_terms (env : Env G) (self : t) (query : string)
  : Outcome (list TreeNode.t) :=
  with_data env self (fun data => ([], Ok (search_in data query))).

Definition export_to_json (env : Env G) (self : t) (output_file : option string)
  : Outcome string :=
  with_data env self (fun data =>
    match save_nodes_to_json (strftime_now env) (isoformat_now env)
                             (can_write env) data output_file with
    | Ok (path, written) => ([Wrote path written], Ok path)
    | Raise e => ([], Raise e)
    end).

(** The accumulators of [get_statistics]. *)
Record Counters : Type := {
  acc_subClassOf : Z;
  acc_partOf : Z;
  acc_leaf : Z;
  acc_max_depth : Z
}.

(** Inner loop (lines 131-135). *)
Definition count_parent (acc : Z * Z) (parent : ParentRelation.t) : Z * Z :=
  if String.eqb (ParentRelation.relationType parent) "subClassOf"
  then (fst acc + 1, snd acc)%Z
  else if String.eqb (ParentRelation.relationType parent) "partOf"
  then (fst acc, snd acc + 1)%Z
  else acc.

(** Outer loop body (lines 129-143). *)
Definition count_term (acc : Counters) (term : TreeNode.t) : Counters :=
  let rel :=
    fold_left count_parent (TreeNode.parents term)
              (acc_subClassOf acc, acc_partOf acc) in
  let leaf := if TreeNode.isLeaf term then (acc_leaf acc + 1)%Z else acc_leaf acc in
  let depth := Z.of_nat (List.length (TreeNode.parents term)) in
  {| acc_subClassOf := fst rel;
     acc_partOf := snd rel;
     acc_leaf := leaf;
     acc_max_depth := Z.max (acc_max_depth acc) depth |}.

(** [get_statistics] on the data it obtained. *)
Definition statistics_of (data : Nodes) : Statistics :=
  let terms := Dict.values data in
  let acc :=
    fold_left count_term terms
      {| acc_subClassOf := 0; acc_partOf := 0; acc_leaf := 0; acc_max_depth := 0 |} in
  {| total_terms := Z.of_nat (List.length terms);
     total_classes := Z.of_nat (List.length terms);
     total_relations := acc_subClassOf acc + acc_partOf acc;
     subClassOf_relations := acc_subClassOf acc;
     partOf_relations := acc_partOf acc;
     leaf_nodes := acc_leaf acc;
     max_depth := acc_max_depth acc |}.

Definition get_statistics (env : Env G) (self : t) : Outcome Statistics :=
  with_data env self (fun data => ([], Ok (statistics_of data))).

End Service.

Definition clear_cache (self : t) : t :=
  {| owl_file_path := owl_file_path self; _cache := None; _cache_timestamp := None |}.

End OntologyService.

(* ================================================================== *)
(** * A client session: operations issued one after the other *)
(* ================================================================== *)

Module Session.
Import Rdf OntologyService.

Inductive Request : Type :=
| GetAllTerms
| GetTermById (term_id : string)
| SearchTerms (query : string)
| ExportToJson (output_file : option string)
| GetStatistics
| ClearCache.

Inductive Response : Type :=
| RespTerms (terms : list TreeNode.t)
| RespTerm (term : option TreeNode.t)
| RespPath (path : string)
| RespStats (stats : Statistics)
| RespCleared.

Definition is_clear (req : Request) : bool :=
  match req with ClearCache => true | _ => false end.

Definition fmap {A B : Type} (f : A -> B) (o : Outcome A) : Outcome B :=
  {| self' := self' o;
     events := events o;
     result := match result o with Ok a => Ok (f a) | Raise e => Raise e end |}.

Section Run.
Context {G : Type} `{TripleSource G} `{CaseFolding}.

(** One call on the instance. *)
Definition handle (env : Env G) (self : t) (req : Request) : Outcome Response :=
  match req with
  | GetAllTerms => fmap RespTerms (get_all_terms env self)
  | GetTermById term_id => fmap RespTerm (get_term_by_id env self term_id)
  | SearchTerms query => fmap RespTerms (search_terms env self query)
  | ExportToJson output_file => fmap RespPath (export_to_json env self output_file)
  | GetStatistics => fmap RespStats (get_statistics env self)
  | ClearCache => {| self' := clear_cache self; events := []; result := Ok RespCleared |}
  end.

(** What a data operation answers once it holds the snapshot [data]. *)
Definition answer (env : Env G) (data : Nodes) (req : Request)
  : list Event * Result Response :=
  match req with
  | GetAllTerms => ([], Ok (RespTerms (Dict.values data)))
  | GetTermById term_id => ([], Ok (RespTerm (Dict.get term_id data)))
  | SearchTerms query => ([], Ok (RespTerms (search_in data query)))
  | ExportToJson output_file =>
      match OntologyParser.save_nodes_to_json
              (strftime_now env) (isoformat_now env) (can_write env)
              data output_file with
      | Ok (path, written) => ([Wrote path written], Ok (RespPath path))
      | Raise e => ([], Raise e)
      end
  | GetStatistics => ([], Ok (RespStats (statistics_of data)))
  | ClearCache => ([], Ok RespCleared)
  end.

(** A sequence of calls, each in the surroundings of its own moment; the
    instance is threaded through, the outcomes are collected in order. *)
Fixpoint run (calls : list (Env G * Request)) (self : t)
  : t * list (Outcome Response) :=
  match calls with
  | [] => (self, [])
  | (env, req) :: rest =>
      let o := handle env self req in
      let r := run rest (self' o) in
      (fst r, o :: snd r)
  end.

End Run.
End Session.

(* ================================================================== *)
(** * Notions of the specification *)
(* ================================================================== *)

Module Spec.
Import Rdf OntologyParser OntologyService.

(** [a] occurs in [b] as a contiguous piece. *)
Definition Substring (a b : string) : Prop :=
  exists pre post : string, b = (pre ++ a ++ post)%string.

(** The four searchable fields, in the order the search visits them. *)
Definition text_fields (n : TreeNode.t) : list (option string) :=
  [ TreeNode.label n; TreeNode.label_zh n;
    TreeNode.definition n; TreeNode.definition_zh n ].

(** The search criterion as the specification words it: some field is
    present and, case-folded, contains the case-folded query. *)
Definition MatchesAnyField `{CaseFolding} (q : string) (n : TreeNode.t) : Prop :=
  exists f : string, In (Some f) (text_fields n) /\ Substring (lower q) (lower f).

(** The criterion the code applies: the field must also be non-empty. *)
Definition Matches `{CaseFolding} (q : string) (n : TreeNode.t) : Prop :=
  exists f : string,
    In (Some f) (text_fields n) /\ f <> EmptyString
    /\ Substring (lower q) (lower f).

(** The per-node decision of the search loop: the four tests in order,
    stopping at the first that succeeds. *)
Definition hit `{CaseFolding} (query_lower : string) (term : TreeNode.t) : bool :=
  if field_hit query_lower (TreeNode.label term) then true
  else if field_hit query_lower (TreeNode.label_zh term) then true
  else if field_hit query_lower (TreeNode.definition term) then true
  else field_hit query_lower (TreeNode.definition_zh term).

Definition has_text (n : TreeNode.t) : bool :=
  existsb Py.truthy (text_fields n).

(** Edge lists of the node stored under an id; empty when there is none. *)
Definition parents_of (nodes : Nodes) (k : string) : list ParentRelation.t :=
  match Dict.get k nodes with Some n => TreeNode.parents n | None => [] end.
Definition children_of (nodes : Nodes) (k : string) : list ChildRelation.t :=
  match Dict.get k nodes with Some n => TreeNode.children n | None => [] end.

(** The effect of one [link] on the entry stored under [k]: the endpoints
    come into being as stubs, the child gains a parent record, the parent
    gains a child record and stops being a leaf. *)
Definition ensure_one (i k : string) (o : option TreeNode.t) : option TreeNode.t :=
  match o with
  | Some n => Some n
  | None => if String.eqb i k then Some (TreeNode.new i) else None
  end.

Definition touch (rel c p k : string) (n : TreeNode.t) : TreeNode.t :=
  let n := if String.eqb c k
           then TreeNode.parents_append n (ParentRelation.make p rel) else n in
  if String.eqb p k
  then TreeNode.set_isLeaf
         (TreeNode.children_append n (ChildRelation.make c rel)) false
  else n.

Definition link_view (rel c p k : string) (o : option TreeNode.t)
  : option TreeNode.t :=
  option_map (touch rel c p k) (ensure_one p k (ensure_one c k o)).

(** One insertion: the relation name and the two ids [link] is called on. *)
Record Edge : Type := { rel : string; child : string; parent : string }.

(** A list of insertions run one after the other. *)
Definition link_all (edges : list Edge) (nodes : Nodes) : Result Nodes :=
  Py.for_each edges (fun e => link (rel e) (child e) (parent e)) nodes.

(** What happens to the entry under [k] over a whole list of insertions. *)
Definition links_view (edges : list Edge) (k : string) (o : option TreeNode.t)
  : option TreeNode.t :=
  fold_left (fun o e => link_view (rel e) (child e) (parent e) k o) edges o.

Definition parent_record (e : Edge) : ParentRelation.t :=
  ParentRelation.make (parent e) (rel e).
Definition child_record (e : Edge) : ChildRelation.t :=
  ChildRelation.make (child e) (rel e).
Definition has_child (k : string) (e : Edge) : bool := String.eqb (child e) k.
Definition has_parent (k : string) (e : Edge) : bool := String.eqb (parent e) k.

Definition joins (c p T : string) (e : Edge) : bool :=
  has_child c e && has_parent p e && String.eqb (rel e) T.

Definition opt_parents (o : option TreeNode.t) : list ParentRelation.t :=
  match o with Some n => TreeNode.parents n | None => [] end.
Definition opt_children (o : option TreeNode.t) : list ChildRelation.t :=
  match o with Some n => TreeNode.children n | None => [] end.
Definition opt_leaf (o : option TreeNode.t) : bool :=
  match o with Some n => TreeNode.isLeaf n | None => true end.

(** An entry as step 1 or a stub creation leaves it: stored under its own
    id, no edges, leaf. *)
Definition fresh_at (k : string) (o : option TreeNode.t) : Prop :=
  forall n, o = Some n ->
            TreeNode.id n = k /\ TreeNode.parents n = []
            /\ TreeNode.children n = [] /\ TreeNode.isLeaf n = true.

(** The id expression that lines 36, 57, 58, 84 and 85 each spell out. *)
Definition resolve {G : Type} `{TripleSource G} (g : G) (e : Term) : string :=
  Py.or_else (_get_literal g e (OBOINOWL "id") None)
             (Py.last_item (Py.split "/" (str e))).

(** The insertions steps 2 and 3 perform, in the order they perform them. *)
Definition subclass_edges {G : Type} `{TripleSource G} (g : G) (ts : list Triple)
  : list Edge :=
  flat_map (fun t =>
              if mem g (obj t) RDF_type OWL_Restriction then []
              else [ {| rel := "subClassOf";
                        child := resolve g (subj t);
                        parent := resolve g (obj t) |} ]) ts.

Definition target_edges {G : Type} `{TripleSource G} (g : G) (s : Term)
           (tts : list Triple) : list Edge :=
  map (fun tt => {| rel := "partOf";
                    child := resolve g s;
                    parent := resolve g (obj tt) |}) tts.

Definition property_edges {G : Type} `{TripleSource G} (g : G) (s r : Term)
           (tps : list Triple) : list Edge :=
  flat_map (fun tp =>
              if String.eqb (str (obj tp)) (str PART_OF)
              then target_edges g s (triples g (Some r) (Some OWL_someValuesFrom) None)
              else []) tps.

Definition partof_edges {G : Type} `{TripleSource G} (g : G) (ts : list Triple)
  : list Edge :=
  flat_map (fun t =>
              if mem g (obj t) RDF_type OWL_Restriction
              then property_edges g (subj t) (obj t)
                     (triples g (Some (obj t)) (Some OWL_onProperty) None)
              else []) ts.

Definition edge_log {G : Type} `{TripleSource G} (g : G) : list Edge :=
  subclass_edges g (triples g None (Some RDFS_subClassOf) None)
  ++ partof_edges g (triples g None (Some RDFS_subClassOf) None).

(** The node table after step 1. *)
Definition declared {G : Type} `{TripleSource G} (g : G) : Nodes :=
  fold_left (fun nodes s => declare_class g s nodes)
            (subjects g RDF_type OWL_Class) [].

(** [seg] is the final path segment of [s]: it holds no slash and is all of
    [s] or what follows a slash of [s]. *)
Fixpoint no_slash (s : string) : bool :=
  match s with
  | EmptyString => true
  | String c rest => negb (Ascii.eqb c "/") && no_slash rest
  end.

Definition FinalSegment (s seg : string) : Prop :=
  no_slash seg = true
  /\ (s = seg \/ exists pre : string, s = (pre ++ "/" ++ seg)%string).

(** The external-id annotation of an entity: the first literal among the
    objects of its [oboInOwl:id] triples. *)
Definition is_literal (t : Term) : bool :=
  match t with Literal _ _ => true | _ => false end.

Definition external_id {G : Type} `{TripleSource G} (g : G) (e : Term)
  : option string :=
  option_map str (find is_literal (objects g e (OBOINOWL "id"))).

(** [i] is the canonical id of [e], as the code resolves it. *)
Definition CanonicalId {G : Type} `{TripleSource G} (g : G) (e : Term)
           (i : string) : Prop :=
  match external_id g e with
  | Some (String c r) => i = String c r
  | _ => FinalSegment (str e) i
  end.

(** The same, as the specification words it: the annotation if present. *)
Definition CanonicalIdAsClaimed {G : Type} `{TripleSource G} (g : G) (e : Term)
           (i : string) : Prop :=
  match external_id g e with
  | Some v => i = v
  | None => FinalSegment (str e) i
  end.

(** Parent edges of one relation type held by a node, and sums over nodes. *)
Definition of_type (T : string) (p : ParentRelation.t) : bool :=
  String.eqb (ParentRelation.relationType p) T.

Definition parent_edges_of_type (T : string) (n : TreeNode.t) : Z :=
  Z.of_nat (List.length (filter (of_type T) (TreeNode.parents n))).

Definition leaves (ns : list TreeNode.t) : Z :=
  Z.of_nat (List.length (filter TreeNode.isLeaf ns)).

Definition sum_over (f : TreeNode.t -> Z) (ns : list TreeNode.t) : Z :=
  fold_right (fun n acc => (f n + acc)%Z) 0%Z ns.

Definition direct_parents (n : TreeNode.t) : Z :=
  Z.of_nat (List.length (TreeNode.parents n)).

(** [m] is the largest value of [f] over [ns], and 0 when [ns] is empty. *)
Definition IsMaxOver (f : TreeNode.t -> Z) (ns : list TreeNode.t) (m : Z) : Prop :=
  (forall n, In n ns -> (f n <= m)%Z)
  /\ (ns = [] -> m = 0%Z)
  /\ (ns <> [] -> exists n, In n ns /\ m = f n).

(** Field access in the exported object. *)
Definition json_field (k : string) (j : Json) : option Json :=
  match j with
  | JDict fields => Dict.get k fields
  | _ => None
  end.

(** The full record of a node as an exported value: an object with the ten
    fields of [TreeNode], each holding the node's attribute, an absent
    attribute being [null] and an edge record being an object of its two
    fields. *)
Definition record_keys : list string :=
  [ "id"; "label"; "label_zh"; "definition"; "definition_zh"; "iri";
    "isLeaf"; "count"; "children"; "parents" ].

Definition text_or_null (o : option string) : Json :=
  match o with Some s => JStr s | None => JNull end.

Definition int_or_null (o : option Z) : Json :=
  match o with Some z => JInt z | None => JNull end.

Definition FullRecord (value : Json) (n : TreeNode.t) : Prop :=
  (exists fields, value = JDict fields /\ map fst fields = record_keys)
  /\ json_field "id" value = Some (JStr (TreeNode.id n))
  /\ json_field "label" value = Some (text_or_null (TreeNode.label n))
  /\ json_field "label_zh" value = Some (text_or_null (TreeNode.label_zh n))
  /\ json_field "definition" value = Some (text_or_null (TreeNode.definition n))
  /\ json_field "definition_zh" value
     = Some (text_or_null (TreeNode.definition_zh n))
  /\ json_field "iri" value = Some (text_or_null (TreeNode.iri n))
  /\ json_field "isLeaf" value = Some (JBool (TreeNode.isLeaf n))
  /\ json_field "count" value = Some (int_or_null (TreeNode.count n))
  /\ json_field "children" value
     = Some (JList (map (fun c =>
                           JDict [ ("childId", JStr (ChildRelation.childId c));
                                   ("relationType",
                                    JStr (ChildRelation.relationType c)) ])
                        (TreeNode.children n)))
  /\ json_field "parents" value
     = Some (JList (map (fun p =>
                           JDict [ ("parentId", JStr (ParentRelation.parentId p));
                                   ("relationType",
                                    JStr (ParentRelation.relationType p)) ])
                        (TreeNode.parents n))).

(** The exported [nodes] table of a snapshot: its keys are the snapshot's
    ids in the snapshot's order, every id is mapped to the full record of
    its node -- a value that is the full record of no other node -- and no
    other key is mapped. *)
Definition ExportedTable (table : Json) (data : Nodes) : Prop :=
  (exists entries, table = JDict entries /\ map fst entries = Dict.keys data)
  /\ (forall k n, Dict.get k data = Some n ->
        exists value,
          json_field k table = Some value
          /\ FullRecord value n
          /\ forall n', FullRecord value n' -> n' = n)
  /\ (forall k, Dict.get k data = None -> json_field k table = None).

(** When a restriction names part-of as its property, and which targets it
    names. *)
Definition is_restriction {G : Type} `{TripleSource G} (g : G) (r : Term) : bool :=
  mem g r RDF_type OWL_Restriction.

Definition on_part_of {G : Type} `{TripleSource G} (g : G) (r : Term) : Prop :=
  exists tp : Triple,
    In tp (triples g (Some r) (Some OWL_onProperty) None)
    /\ str (obj tp) = str PART_OF.

(** The same, by the wording of the specification: an on-property triple
    whose object is the part-of property. *)
Definition on_part_of_as_claimed {G : Type} `{TripleSource G} (g : G) (r : Term)
  : Prop :=
  exists tp : Triple,
    In tp (triples g (Some r) (Some OWL_onProperty) None)
    /\ obj tp = PART_OF.

Definition names_target {G : Type} `{TripleSource G} (g : G) (r target : Term)
  : Prop :=
  exists tt : Triple,
    In tt (triples g (Some r) (Some OWL_someValuesFrom) None) /\ obj tt = target.

(** The instance's two cache attributes are set and cleared together. *)
Definition coherent (self : OntologyService.t) : Prop :=
  _cache self = None <-> _cache_timestamp self = None.

(** The cached dictionary, if any, has pairwise distinct keys. *)
Definition cache_is_dict (self : OntologyService.t) : Prop :=
  forall data, _cache self = Some data -> NoDup (Dict.keys data).

(** The staleness condition, for an instance holding [_cache] and
    [_cache_timestamp] when the clock reads [now]: nothing is held, or the
    difference of the two readings, rounded to a binary64 value as the
    machine's subtraction does, is greater than [ttl]. *)
Definition Stale (now : float) (self : OntologyService.t) : Prop :=
  _cache self = None
  \/ _cache_timestamp self = None
  \/ exists ts, _cache_timestamp self = Some ts
                /\ gt (PrimFloat.sub now ts) ttl = true.

End Spec.

(* ================================================================== *)
(** * Concrete documents and instances used in the examples *)
(* ================================================================== *)

Module Demo.
Import Rdf OntologyParser OntologyService.

Definition ex (name : string) : Term := URIRef ("http://example.org/" ++ name).

(** One relation between two undeclared entities: both become stubs. *)
Definition stub_graph : list Triple :=
  [ (ex "B", RDFS_subClassOf, ex "A") ].

Definition stub_nodes : Nodes :=
  [ ("B", TreeNode.make "B" None None None None None true (Some 0%Z) []
            [ParentRelation.make "A" "subClassOf"]);
    ("A", TreeNode.make "A" None None None None None false (Some 1%Z)
            [ChildRelation.make "B" "subClassOf"] []) ].

(** The scenarios of the specification: [B] is a subclass of [A], and [C]
    is part of [D] through the restriction [r1]. *)
Definition scenario_graph : list Triple :=
  [ (ex "A", RDF_type, OWL_Class);
    (ex "A", OBOINOWL "id", Literal "MS:1" None);
    (ex "A", RDFS_label, Literal "Instrument" None);
    (ex "A", RDFS_label, Literal "yiqi" (Some "zh"));
    (ex "B", RDF_type, OWL_Class);
    (ex "B", OBOINOWL "id", Literal "MS:2" None);
    (ex "B", RDFS_subClassOf, ex "A");
    (ex "C", RDF_type, OWL_Class);
    (ex "C", RDFS_subClassOf, BNode "r1");
    (BNode "r1", RDF_type, OWL_Restriction);
    (BNode "r1", OWL_onProperty, PART_OF);
    (BNode "r1", OWL_someValuesFrom, ex "D") ].

Definition scenario_nodes : Nodes :=
  [ ("MS:1", TreeNode.make "MS:1" (Some "Instrument") (Some "yiqi") None None
               (Some "http://example.org/A") false (Some 1%Z)
               [ChildRelation.make "MS:2" "subClassOf"] []);
    ("MS:2", TreeNode.make "MS:2" None None None None
               (Some "http://example.org/B") true (Some 0%Z) []
               [ParentRelation.make "MS:1" "subClassOf"]);
    ("C", TreeNode.make "C" None None None None
            (Some "http://example.org/C") true (Some 0%Z) []
            [ParentRelation.make "D" "partOf"]);
    ("D", TreeNode.make "D" None None None None None false (Some 1%Z)
            [ChildRelation.make "C" "partOf"] []) ].

(** A restriction whose on-property object is not the part-of property but
    a plain literal whose text is the part-of IRI. *)
Definition literal_property_graph : list Triple :=
  [ (ex "C", RDFS_subClassOf, BNode "r1");
    (BNode "r1", RDF_type, OWL_Restriction);
    (BNode "r1", OWL_onProperty,
     Literal "http://purl.obolibrary.org/obo/BFO_0000050" None);
    (BNode "r1", OWL_someValuesFrom, ex "D") ].

Definition literal_property_nodes : Nodes :=
  [ ("C", TreeNode.make "C" None None None None None true (Some 0%Z) []
            [ParentRelation.make "D" "partOf"]);
    ("D", TreeNode.make "D" None None None None None false (Some 1%Z)
            [ChildRelation.make "C" "partOf"] []) ].

(** A class whose external id and label are present but empty. *)
Definition empty_text_graph : list Triple :=
  [ (ex "A", RDF_type, OWL_Class);
    (ex "A", OBOINOWL "id", Literal EmptyString None);
    (ex "A", RDFS_label, Literal EmptyString None) ].

Definition empty_text_node : TreeNode.t :=
  TreeNode.make "A" (Some EmptyString) None None None
                (Some "http://example.org/A") true (Some 0%Z) [] [].

Definition empty_text_nodes : Nodes := [ ("A", empty_text_node) ].

(** Surroundings: the clock reading and what parsing the document yields. *)
Definition env_at (now : float) (document : Result (list Triple))
  : Env (list Triple) :=
  {| time_time := now;
     read_graph := fun _ => document;
     strftime_now := "20250101_120000";
     isoformat_now := "2025-01-01T12:00:00";
     can_write := fun _ => true |}.

Definition unreadable : Result (list Triple) :=
  Raise (SourceUnavailable "not well-formed").

Definition new_service : OntologyService.t := __init__ "psi-ms-zh.owl".

(** The binary64 values nearest to 0.3 and to 3600.3, and an instance whose
    snapshot was built at the first. *)
Definition reading_0_3 : float := 0x1.3333333333333p-2%float.
Definition reading_3600_3 : float := 0x1.c20999999999ap+11%float.

Definition service_built_at_0_3 : OntologyService.t :=
  {| owl_file_path := "psi-ms-zh.owl";
     _cache := Some scenario_nodes;
     _cache_timestamp := Some reading_0_3 |}.

(** The instance after a first operation at time 0 on the scenario. *)
Definition warm_service : OntologyService.t :=
  {| owl_file_path := "psi-ms-zh.owl";
     _cache := Some scenario_nodes;
     _cache_timestamp := Some 0%float |}.

End Demo.

(* ================================================================== *)
(** * Character-level notions for the XML cleaner *)
(* ================================================================== *)

Module XMLChars.

Definition amp : ascii := "&"%char.
Definition lt : ascii := "<"%char.
Definition gt : ascii := ">"%char.
Definition quot : ascii := ascii_of_nat 34.
Definition apos : ascii := ascii_of_nat 39.

(** The five XML predefined characters. *)
Definition special (c : ascii) : bool :=
  Ascii.eqb c amp || Ascii.eqb c lt || Ascii.eqb c gt
  || Ascii.eqb c quot || Ascii.eqb c apos.

(** The entity a character is written as. *)
Definition escape_char (c : ascii) : string :=
  if Ascii.eqb c amp then "&amp;"
  else if Ascii.eqb c lt then "&lt;"
  else if Ascii.eqb c gt then "&gt;"
  else if Ascii.eqb c quot then "&quot;"
  else if Ascii.eqb c apos then "&apos;"
  else String c EmptyString.

(** Replace every character by a string. *)
Fixpoint char_map (f : ascii -> string) (s : string) : string :=
  match s with
  | EmptyString => EmptyString
  | String c rest => f c ++ char_map f rest
  end.

(** [a] occurs in [s]; every character of [s] satisfies [p]. *)
Fixpoint has_char (a : ascii) (s : string) : bool :=
  match s with
  | EmptyString => false
  | String c rest => Ascii.eqb c a || has_char a rest
  end.

Fixpoint all_chars (p : ascii -> bool) (s : string) : bool :=
  match s with
  | EmptyString => true
  | String c rest => p c && all_chars p rest
  end.

Definition no_special (s : string) : bool :=
  all_chars (fun c => negb (special c)) s.

Definition differs (a c : ascii) : bool := negb (Ascii.eqb c a).

(** [old] and [e] disagree at a position both have. *)
Fixpoint clash (old e : string) : bool :=
  match old, e with
  | String a o, String b f => if Ascii.eqb a b then clash o f else true
  | _, _ => false
  end.

(** One pass of [unescape_xml_chars] seen character by character: an image
    equal to the entity is replaced, every other image is kept. *)
Definition unescape_step (old new : string) (f : ascii -> string) (c : ascii)
  : string :=
  if String.eqb (f c) old then new else f c.

(** An image [e] on which a pass for an entity starting with [a] acts as
    [unescape_step] says: it is the entity, or holds no [a], or starts with
    [a], holds no other [a], and disagrees with the entity. *)
Definition step_ok (a : ascii) (old e : string) : bool :=
  String.eqb e old
  || all_chars (differs a) e
  || match e with
     | String b e' => Ascii.eqb b a && all_chars (differs a) e' && clash old e
     | EmptyString => false
     end.

End XMLChars.

(* ================================================================== *)
(** * Further notions about the built graph *)
(* ================================================================== *)

Module GraphShape.
Import Rdf OntologyParser Spec.

(** The record step 1 stores for a class (lines 36-49). *)
Definition class_node {G : Type} `{TripleSource G} (g : G) (s : Term) : TreeNode.t :=
  TreeNode.make (resolve g s)
                (_get_literal g s RDFS_label None)
                (_get_literal g s RDFS_label (Some "zh"))
                (_get_literal g s (OBO "IAO_0000115") None)
                (_get_literal g s (OBO "IAO_0000115") (Some "zh"))
                (Some (str s)) true (Some 0%Z) [] [].

(** The declared attributes of a node: everything but its edges and the two
    attributes derived from them. *)
Definition same_attributes (a b : TreeNode.t) : Prop :=
  TreeNode.id a = TreeNode.id b
  /\ TreeNode.label a = TreeNode.label b
  /\ TreeNode.label_zh a = TreeNode.label_zh b
  /\ TreeNode.definition a = TreeNode.definition b
  /\ TreeNode.definition_zh a = TreeNode.definition_zh b
  /\ TreeNode.iri a = TreeNode.iri b.

(** The last class among [ss] whose id is [k]. *)
Definition declares {G : Type} `{TripleSource G} (g : G) (k : string) (s : Term)
  : bool :=
  String.eqb (resolve g s) k.

Definition last_declaring {G : Type} `{TripleSource G} (g : G) (k : string)
           (ss : list Term) : option Term :=
  find (declares g k) (rev ss).

(** Ids in order of first mention. *)
Definition see (seen : list string) (k : string) : list string :=
  if existsb (String.eqb k) seen then seen else seen ++ [k].

Definition first_seen (ks : list string) : list string :=
  fold_left see ks [].

Definition endpoints (e : Edge) : list string := [child e; parent e].

(** Every id the build comes across: the declared classes, then for each
    insertion its child and its parent. *)
Definition mentions {G : Type} `{TripleSource G} (g : G) : list string :=
  map (resolve g) (subjects g RDF_type OWL_Class)
  ++ flat_map endpoints (edge_log g).

(** A literal that [_get_literal] accepts for [lang]. *)
Definition accepted (lang : option string) (t : Term) : bool :=
  match t with
  | Literal _ language =>
      match lang with
      | None => true
      | Some _ => opt_eqb language lang
      end
  | _ => false
  end.

Definition children_count (n : TreeNode.t) : Z :=
  Z.of_nat (List.length (TreeNode.children n)).

End GraphShape.

(* ================================================================== *)
(** * app/routers/ontology_router.py *)
(* ================================================================== *)

Module Router.
Import Rdf OntologyService.

(** How a handler ends: with a value, with the [HTTPException] it raises, or
    with an exception it lets through. *)
Inductive Reply (A : Type) : Type :=
| Returned (a : A)
| HTTPException (status_code : Z) (detail : string)
| Unhandled (e : Exception).
Arguments Returned {A} a.
Arguments HTTPException {A} status_code detail.
Arguments Unhandled {A} e.

Record Handled (A : Type) : Type := {
  actions : list Event;
  reply : Reply A
}.
Arguments actions {A} _.
Arguments reply {A} _.

Record ExportResponse : Type := {
  message : string;
  file_path : string;
  status : string
}.

(** [get_ontology_service]; [OWL_FILE_PATH] is the configured path. *)
Definition get_ontology_service (OWL_FILE_PATH : string) : OntologyService.t :=
  __init__ OWL_FILE_PATH.

(** [service = Depends(get_ontology_service)]: the dependency is called anew
    for the request and its result handed to the handler. *)
Definition with_dependency {A : Type} (OWL_FILE_PATH : string)
           (handler : OntologyService.t -> A) : A :=
  handler (get_ontology_service OWL_FILE_PATH).

(** A handler that returns what the service method returns. *)
Definition pass_through {A : Type} (o : Outcome A) : Handled A :=
  {| actions := events o;
     reply := match result o with
              | Ok a => Returned a
              | Raise e => Unhandled e
              end |}.

Section Handlers.
Context {G : Type} `{TripleSource G} `{CaseFolding}.

Definition get_all_terms (env : Env G) (service : OntologyService.t)
  : Handled (list TreeNode.t) :=
  pass_through (OntologyService.get_all_terms env service).

Definition get_term_by_id (env : Env G) (term_id : string)
           (service : OntologyService.t) : Handled TreeNode.t :=
  let o := OntologyService.get_term_by_id env service term_id in
  {| actions := events o;
     reply := match result o with
              | Ok (Some term) => Returned term
              | Ok None =>
                  HTTPException 404
                    ("Term with ID '" ++ term_id ++ "' not found")
              | Raise e => Unhandled e
              end |}.

Definition search_terms (env : Env G) (q : string) (service : OntologyService.t)
  : Handled (list TreeNode.t) :=
  pass_through (OntologyService.search_terms env service q).

(** [describe] stands for [str(e)]. *)
Definition export_ontology (describe : Exception -> string) (env : Env G)
           (service : OntologyService.t) : Handled ExportResponse :=
  let o := OntologyService.export_to_json env service None in
  {| actions := events o;
     reply := match result o with
              | Ok output_file =>
                  Returned {| message := "Ontology data exported successfully";
                              file_path := output_file;
                              status := "success" |}
              | Raise e =>
                  HTTPException 500 ("Export failed: " ++ describe e)
              end |}.

Definition get_ontology_stats (env : Env G) (service : OntologyService.t)
  : Handled Statistics :=
  pass_through (OntologyService.get_statistics env service).

End Handlers.
End Router.

(* ================================================================== *)
(** * app/utils/xml_cleaner.py: cleaning the content of a document *)
(* ================================================================== *)

Module XMLContent.
Import XMLCleaner.

(** The two counters of an [XMLCleaner] instance. *)
Record Stats : Type := { cleaned_count : nat; error_count : nat }.

Definition __init__ : Stats := {| cleaned_count := 0; error_count := 0 |}.
Definition reset_stats (self : Stats) : Stats :=
  {| cleaned_count := 0; error_count := 0 |}.
Definition get_cleaning_stats (self : Stats) : list (string * nat) :=
  [ ("cleaned_count", cleaned_count self); ("error_count", error_count self) ].

(** [s[n:]] *)
Fixpoint drop (n : nat) (s : string) : string :=
  match n, s with
  | O, _ => s
  | S k, String _ rest => drop k rest
  | S _, EmptyString => EmptyString
  end.

(** The first occurrence of [needle] in [s]: the text before it and the text
    after it. *)
Fixpoint find_first (needle s : string) : option (string * string) :=
  if String.prefix needle s
  then Some (EmptyString, drop (String.length needle) s)
  else match s with
       | EmptyString => None
       | String c rest =>
           match find_first needle rest with
           | Some (before, after) => Some (String c before, after)
           | None => None
           end
       end.

(** [replace_func] on a match whose [group(0)] is
    [open_tag ++ body ++ close_tag] and whose [group(1)] is [body]. *)
Definition replace_func (open_tag close_tag body : string) (self : Stats)
  : Stats * string :=
  let original_text := body in
  let escaped_text := escape_xml_chars original_text in
  let self :=
    if negb (String.eqb escaped_text original_text)
    then {| cleaned_count := cleaned_count self + 1;
            error_count := error_count self |}
    else self in
  (self, Py.replace original_text escaped_text (open_tag ++ body ++ close_tag)).

(** [re.sub(open_tag + "(.*?)" + close_tag, replace_func, s, flags=re.DOTALL)]
    for literal, non-empty tags: scanning from the left, a match starts where
    [open_tag] starts and [close_tag] occurs somewhere after it, and ends
    with the first such occurrence; the match is replaced and the scan
    resumes after it.  [skip] counts the characters of a match still to be
    passed over. *)
Fixpoint re_sub_tag (open_tag close_tag : string) (skip : nat) (s : string)
         (self : Stats) : Stats * string :=
  match s with
  | EmptyString => (self, EmptyString)
  | String c rest =>
      match skip with
      | S k => re_sub_tag open_tag close_tag k rest self
      | O =>
          let no_match :=
            let r := re_sub_tag open_tag close_tag 0 rest self in
            (fst r, String c (snd r)) in
          if String.prefix open_tag s
          then match find_first close_tag (drop (String.length open_tag) s) with
               | Some (body, _) =>
                   let m := replace_func open_tag close_tag body self in
                   let r := re_sub_tag open_tag close_tag
                              (String.length open_tag + String.length body
                               + String.length close_tag - 1)
                              rest (fst m) in
                   (fst r, (snd m ++ snd r)%string)
               | None => no_match
               end
          else no_match
      end
  end.

(** The four patterns, as opening and closing tag. *)
Definition patterns : list (string * string) :=
  [ (("<rdfs:label xml:lang=" ++ dquote ++ "zh" ++ dquote ++ ">")%string,
     "</rdfs:label>");
    (("<obo:IAO_0000115 xml:lang=" ++ dquote ++ "zh" ++ dquote ++ ">")%string,
     "</obo:IAO_0000115>");
    ("<rdfs:label>", "</rdfs:label>");
    ("<obo:IAO_0000115>", "</obo:IAO_0000115>") ].

(** [_clean_xml_content]: one [re.sub] per pattern, each on the result of
    the one before. *)
Definition _clean_xml_content (self : Stats) (content : string) : Stats * string :=
  fold_left (fun acc pattern =>
               re_sub_tag (fst pattern) (snd pattern) 0 (snd acc) (fst acc))
            patterns (self, content).

End XMLContent.

(* ================================================================== *)
(** * Further concrete cases *)
(* ================================================================== *)

Module Cases.
Import Rdf OntologyParser OntologyService.

(** The object written when the scenario snapshot is exported. *)
Definition scenario_written : Json :=
  Eval vm_compute in
    match save_nodes_to_json "20250101_120000" "2025-01-01T12:00:00"
                             (fun _ => true) Demo.scenario_nodes None with
    | Ok (_, written) => written
    | Raise _ => JNull
    end.

End Cases.

(* ================================================================== *)
(** * Properties *)
(* ================================================================== *)

Import Rdf OntologyParser OntologyService Session Spec.

(** ** Strings *)

Lemma prefix_iff (a b : string) :
  String.prefix a b = true <-> exists post, b = (a ++ post)%string.
Proof.
  revert b; induction a as [|c a IH]; intros b.
  - split; [intros _; now exists b | intros _; now destruct b].
  - destruct b as [|d b]; simpl.
    + split; [discriminate | intros [post Hp]; discriminate].
    + destruct (ascii_dec c d) as [->|Hcd].
      * rewrite IH. split; intros [post Hp]; exists post.
        -- now rewrite Hp.
        -- now inversion Hp.
      * split; [discriminate|].
        intros [post Hp]. inversion Hp. congruence.
Qed.

Lemma contains_iff (a b : string) : Py.contains a b = true <-> Substring a b.
Proof.
  unfold Substring.
  induction b as [|d b IH]; cbn [Py.contains].
  - rewrite orb_false_r, prefix_iff. split.
    + intros [post Hp]. now exists EmptyString, post.
    + intros [pre [post Hp]]. destruct pre; simpl in Hp.
      * now exists post.
      * discriminate.
  - rewrite orb_true_iff, prefix_iff, IH. split.
    + intros [[post Hp] | [pre [post Hp]]].
      * now exists EmptyString, post.
      * exists (String d pre), post. simpl. now rewrite Hp.
    + intros [pre [post Hp]]. destruct pre as [|e pre]; simpl in Hp.
      * left. now exists post.
      * right. inversion Hp. now exists pre, post.
Qed.

Lemma contains_empty (b : string) : Py.contains EmptyString b = true.
Proof. destruct b; reflexivity. Qed.

(** ** XML escaping *)

(** C10: escaping then unescaping does not give back every text: on a text
    that already holds an entity, ["&lt;"], the result is ["<"], because
    [unescape_xml_chars] restores ["&amp;"] first although its own comment
    requires it to come last. *)
Theorem escape_unescape_breaks_on_entity :
  XMLCleaner.escape_xml_chars "&lt;" = "&amp;lt;"
  /\ XMLCleaner.unescape_xml_chars (XMLCleaner.escape_xml_chars "&lt;") = "<"
  /\ XMLCleaner.unescape_xml_chars (XMLCleaner.escape_xml_chars "&lt;") <> "&lt;".
Proof. repeat split; try reflexivity. discriminate. Qed.

(** The round-trips printed by the module's self-test do hold. *)
Example roundtrip_mixed :
  let t := ("mixed: <tag>content</tag> & "
            ++ XMLCleaner.dquote ++ "quoted" ++ XMLCleaner.dquote)%string in
  XMLCleaner.escape_xml_chars t
    = "mixed: &lt;tag&gt;content&lt;/tag&gt; &amp; &quot;quoted&quot;"
  /\ XMLCleaner.unescape_xml_chars (XMLCleaner.escape_xml_chars t) = t.
Proof. split; reflexivity. Qed.

(** ** Search *)

Section Search.
Context `{CaseFolding}.

Lemma search_loop_filter (ql : string) (terms results : list TreeNode.t) :
  search_loop ql terms results = results ++ filter (hit ql) terms.
Proof.
  revert results; induction terms as [|term rest IH]; intros results; simpl.
  - now rewrite app_nil_r.
  - unfold hit.
    destruct (field_hit ql (TreeNode.label term));
      [rewrite IH, <- app_assoc; reflexivity|].
    destruct (field_hit ql (TreeNode.label_zh term));
      [rewrite IH, <- app_assoc; reflexivity|].
    destruct (field_hit ql (TreeNode.definition term));
      [rewrite IH, <- app_assoc; reflexivity|].
    destruct (field_hit ql (TreeNode.definition_zh term));
      [rewrite IH, <- app_assoc; reflexivity|].
    apply IH.
Qed.

Lemma field_hit_iff (q : string) (field : option string) :
  field_hit (lower q) field = true
  <-> exists f, field = Some f /\ f <> EmptyString /\ Substring (lower q) (lower f).
Proof.
  destruct field as [[|c r]|]; simpl.
  - split; [discriminate | intros [f [Hf [Hne _]]]; inversion Hf; congruence].
  - rewrite contains_iff. split.
    + intros Hs. exists (String c r). repeat split; [discriminate | exact Hs].
    + intros [f [Hf [_ Hs]]]. inversion Hf; subst f. exact Hs.
  - split; [discriminate | intros [f [Hf _]]; discriminate].
Qed.

Lemma hit_iff (q : string) (n : TreeNode.t) :
  hit (lower q) n = true <-> Matches q n.
Proof.
  unfold hit, Matches, text_fields. split.
  - intros Hh.
    destruct (field_hit (lower q) (TreeNode.label n)) eqn:E1;
      [apply field_hit_iff in E1; destruct E1 as [f [Hf Hr]];
       exists f; rewrite <- Hf; simpl; tauto|].
    destruct (field_hit (lower q) (TreeNode.label_zh n)) eqn:E2;
      [apply field_hit_iff in E2; destruct E2 as [f [Hf Hr]];
       exists f; rewrite <- Hf; simpl; tauto|].
    destruct (field_hit (lower q) (TreeNode.definition n)) eqn:E3;
      [apply field_hit_iff in E3; destruct E3 as [f [Hf Hr]];
       exists f; rewrite <- Hf; simpl; tauto|].
    apply field_hit_iff in Hh; destruct Hh as [f [Hf Hr]].
    exists f; rewrite <- Hf; simpl; tauto.
  - intros [f [Hin Hr]].
    assert (Hany : forall field, field = Some f ->
                                 field_hit (lower q) field = true).
    { intros field Hf. apply field_hit_iff. now exists f. }
    simpl in Hin. destruct Hin as [Hin|[Hin|[Hin|[Hin|[]]]]];
      rewrite (Hany _ Hin);
      repeat match goal with
             | |- context [if field_hit ?a ?b then _ else _] =>
                 destruct (field_hit a b)
             end; reflexivity.
Qed.

Lemma hit_empty (n : TreeNode.t) : hit (lower EmptyString) n = has_text n.
Proof.
  rewrite lower_empty. unfold hit, has_text, text_fields, field_hit. simpl.
  destruct (TreeNode.label n) as [[|? ?]|];
  destruct (TreeNode.label_zh n) as [[|? ?]|];
  destruct (TreeNode.definition n) as [[|? ?]|];
  destruct (TreeNode.definition_zh n) as [[|? ?]|];
  simpl; rewrite ?contains_empty; reflexivity.
Qed.

(** C1, as the code has it: the result is, in snapshot order, the list of the
    nodes one of whose four text fields is present, non-empty and, lowered,
    contains the lowered query; for the empty query those are the nodes with
    at least one non-empty text field. *)
Theorem search_returns_matching_nodes_in_order (data : Nodes) (q : string) :
  (exists p : TreeNode.t -> bool,
      (forall n, p n = true <-> Matches q n)
      /\ search_in data q = filter p (Dict.values data))
  /\ (forall n, In n (search_in data q) <-> In n (Dict.values data) /\ Matches q n)
  /\ search_in data EmptyString = filter has_text (Dict.values data)
  /\ (forall (G : Type) (S : TripleSource G) (env : Env G)
             (self : OntologyService.t),
         result (search_terms env self q)
         = match result (_get_parsed_data env self) with
           | Ok d => Ok (search_in d q)
           | Raise e => Raise e
           end).
Proof.
  unfold search_in. rewrite !search_loop_filter. simpl.
  split; [|split; [|split]].
  - exists (hit (lower q)). split; [apply hit_iff | reflexivity].
  - intros n. rewrite filter_In, hit_iff. reflexivity.
  - apply filter_ext. intros n. apply hit_empty.
  - intros G S env self. unfold search_terms, with_data.
    now destruct (result (_get_parsed_data env self)).
Qed.

End Search.

(** ** Dictionaries *)

Section DictFacts.
Context {V : Type}.
Implicit Types (d : Dict.t V) (k : string) (v : V).

Lemma get_set_same d k v : Dict.get k (Dict.set k v d) = Some v.
Proof.
  induction d as [|[k' v'] d IH]; simpl.
  - now rewrite String.eqb_refl.
  - destruct (String.eqb k' k) eqn:E; simpl.
    + now rewrite String.eqb_refl.
    + now rewrite E.
Qed.

Lemma get_set_other d k k' v :
  k <> k' -> Dict.get k' (Dict.set k v d) = Dict.get k' d.
Proof.
  intros Hne. induction d as [|[k0 v0] d IH]; simpl.
  - apply String.eqb_neq in Hne. now rewrite Hne.
  - destruct (String.eqb k0 k) eqn:E; simpl.
    + apply String.eqb_eq in E; subst k0.
      apply String.eqb_neq in Hne. now rewrite Hne.
    + now rewrite IH.
Qed.

Lemma get_set d k k' v :
  Dict.get k' (Dict.set k v d)
  = if String.eqb k k' then Some v else Dict.get k' d.
Proof.
  destruct (String.eqb k k') eqn:E.
  - apply String.eqb_eq in E; subst. apply get_set_same.
  - apply String.eqb_neq in E. now apply get_set_other.
Qed.

Lemma mem_get d k : Dict.mem k d = true <-> Dict.get k d <> None.
Proof.
  unfold Dict.mem. destruct (Dict.get k d); split; congruence.
Qed.

Lemma get_in_keys d k v : Dict.get k d = Some v -> In k (Dict.keys d).
Proof.
  induction d as [|[k' v'] d IH]; simpl; [discriminate|].
  destruct (String.eqb k' k) eqn:E.
  - apply String.eqb_eq in E. now left.
  - intros Hg. right. now apply IH.
Qed.

Lemma get_none_not_in d k : Dict.get k d = None -> ~ In k (Dict.keys d).
Proof.
  induction d as [|[k' v'] d IH]; simpl; [tauto|].
  destruct (String.eqb k' k) eqn:E; [discriminate|].
  apply String.eqb_neq in E. intros Hg [Hk|Hk]; [contradiction | now apply IH].
Qed.

Lemma get_In d k v : Dict.get k d = Some v -> In (k, v) d.
Proof.
  induction d as [|[k' v'] d IH]; simpl; [discriminate|].
  destruct (String.eqb k' k) eqn:E.
  - apply String.eqb_eq in E. intros Hg; inversion Hg; subst. now left.
  - intros Hg. right. now apply IH.
Qed.

Lemma In_get d k v : NoDup (Dict.keys d) -> In (k, v) d -> Dict.get k d = Some v.
Proof.
  induction d as [|[k' v'] d IH]; simpl; [tauto|].
  intros Hnd [Heq|Hin].
  - inversion Heq; subst. now rewrite String.eqb_refl.
  - inversion Hnd as [|? ? Hnotin Hnd']; subst.
    destruct (String.eqb k' k) eqn:E.
    + apply String.eqb_eq in E; subst k'. exfalso. apply Hnotin.
      change (In (fst (k, v)) (map fst d)). now apply in_map.
    + now apply IH.
Qed.

Lemma In_values_get d v :
  NoDup (Dict.keys d) -> In v (Dict.values d) -> exists k, Dict.get k d = Some v.
Proof.
  intros Hnd Hin. unfold Dict.values in Hin. apply in_map_iff in Hin.
  destruct Hin as [[k v'] [Hv Hin]]. simpl in Hv; subst v'.
  exists k. now apply In_get.
Qed.

Lemma get_In_values d k v : Dict.get k d = Some v -> In v (Dict.values d).
Proof.
  intros Hg. apply get_In in Hg. unfold Dict.values.
  change v with (snd (k, v)). now apply in_map.
Qed.

Lemma keys_set d k v :
  Dict.keys (Dict.set k v d)
  = if Dict.mem k d then Dict.keys d else Dict.keys d ++ [k].
Proof.
  unfold Dict.mem. induction d as [|[k' v'] d IH]; simpl; [reflexivity|].
  destruct (String.eqb k' k) eqn:E; simpl.
  - apply String.eqb_eq in E. now subst.
  - rewrite IH. now destruct (Dict.get k d).
Qed.

Lemma NoDup_set d k v : NoDup (Dict.keys d) -> NoDup (Dict.keys (Dict.set k v d)).
Proof.
  intros Hnd. rewrite keys_set. unfold Dict.mem.
  destruct (Dict.get k d) eqn:E; [exact Hnd|].
  apply get_none_not_in in E.
  apply NoDup_app; [exact Hnd | repeat constructor; simpl; tauto |].
  intros x Hx [Hk|[]]. subst x. contradiction.
Qed.

End DictFacts.

(** ** One edge insertion *)

Lemma ensure_get (i : string) (nodes : Nodes) (k : string) :
  Dict.get k (if negb (Dict.mem i nodes)
              then Dict.set i (TreeNode.new i) nodes else nodes)
  = ensure_one i k (Dict.get k nodes).
Proof.
  unfold Dict.mem, ensure_one.
  destruct (Dict.get i nodes) eqn:Ei; simpl.
  - destruct (Dict.get k nodes) eqn:Ek; [reflexivity|].
    destruct (String.eqb i k) eqn:E; [|reflexivity].
    apply String.eqb_eq in E; subst. congruence.
  - rewrite get_set. destruct (String.eqb i k) eqn:E.
    + apply String.eqb_eq in E; subst. now rewrite Ei.
    + now destruct (Dict.get k nodes).
Qed.

Lemma ensure_NoDup (i : string) (nodes : Nodes) :
  NoDup (Dict.keys nodes) ->
  NoDup (Dict.keys (if negb (Dict.mem i nodes)
                    then Dict.set i (TreeNode.new i) nodes else nodes)).
Proof.
  intros Hnd. destruct (negb (Dict.mem i nodes)); [now apply NoDup_set | exact Hnd].
Qed.

Lemma ensure_one_same (i : string) (o : option TreeNode.t) :
  exists n, ensure_one i i o = Some n.
Proof.
  unfold ensure_one. destruct o as [n|]; [now exists n|].
  rewrite String.eqb_refl. now eexists.
Qed.

Lemma ensure_one_keeps (i k : string) (o : option TreeNode.t) (n : TreeNode.t) :
  o = Some n -> ensure_one i k o = Some n.
Proof. intros ->. reflexivity. Qed.

Lemma link_spec (rel c p : string) (nodes : Nodes) :
  exists nodes',
    link rel c p nodes = Ok nodes'
    /\ (forall k, Dict.get k nodes' = link_view rel c p k (Dict.get k nodes))
    /\ (NoDup (Dict.keys nodes) -> NoDup (Dict.keys nodes')).
Proof.
  unfold link.
  set (nodes1 := if negb (Dict.mem c nodes)
                 then Dict.set c (TreeNode.new c) nodes else nodes).
  set (nodes2 := if negb (Dict.mem p nodes1)
                 then Dict.set p (TreeNode.new p) nodes1 else nodes1).
  assert (G2 : forall k, Dict.get k nodes2
                         = ensure_one p k (ensure_one c k (Dict.get k nodes))).
  { intros k. subst nodes2 nodes1. now rewrite !ensure_get. }
  assert (N2 : NoDup (Dict.keys nodes) -> NoDup (Dict.keys nodes2)).
  { intros Hnd. subst nodes2 nodes1. now apply ensure_NoDup, ensure_NoDup. }
  destruct (ensure_one_same c (Dict.get c nodes)) as [child0 Hc0].
  assert (Hc : Dict.get c nodes2 = Some child0).
  { rewrite G2. now apply ensure_one_keeps. }
  unfold Dict.getitem at 1. rewrite Hc. cbn [Py.bind].
  set (nodes3 := Dict.set c _ nodes2).
  assert (G3 : forall k, Dict.get k nodes3
                         = if String.eqb c k
                           then Some (TreeNode.parents_append child0
                                        (ParentRelation.make p rel))
                           else Dict.get k nodes2).
  { intros k. subst nodes3. apply get_set. }
  assert (Hp : exists parent0, Dict.get p nodes3 = Some parent0
                               /\ Some parent0
                                  = option_map
                                      (fun n => if String.eqb c p
                                                then TreeNode.parents_append n
                                                       (ParentRelation.make p rel)
                                                else n)
                                      (Dict.get p nodes2)).
  { rewrite G3. destruct (String.eqb c p) eqn:E.
    - apply String.eqb_eq in E; subst p. eexists; split; [reflexivity|].
      now rewrite Hc.
    - destruct (ensure_one_same p (ensure_one c p (Dict.get p nodes))) as [n Hn].
      exists n. rewrite G2, Hn. now split. }
  destruct Hp as [parent0 [Hp Hp0]].
  unfold Dict.getitem at 1. rewrite Hp. cbn [Py.bind].
  set (nodes4 := Dict.set p _ nodes3).
  unfold Dict.getitem. subst nodes4. rewrite get_set_same. cbn [Py.bind].
  eexists. split; [reflexivity|]. split.
  - intros k. rewrite !get_set. unfold link_view, touch.
    destruct (String.eqb p k) eqn:Epk.
    + apply String.eqb_eq in Epk; subst k.
      rewrite <- G2. destruct (Dict.get p nodes2) as [n|]; simpl in Hp0;
        [|discriminate].
      inversion Hp0; subst parent0. reflexivity.
    + rewrite G3. destruct (String.eqb c k) eqn:Eck.
      * apply String.eqb_eq in Eck; subst k. rewrite <- G2, Hc. reflexivity.
      * rewrite G2. now destruct (ensure_one p k _).
  - intros Hnd. subst nodes3. now apply NoDup_set, NoDup_set, NoDup_set, N2.
Qed.

(** ** Loops of insertions *)

Lemma for_each_app {A S : Type} (xs ys : list A) (body : A -> S -> Result S) (s : S) :
  Py.for_each (xs ++ ys) body s
  = Py.bind (Py.for_each xs body s) (Py.for_each ys body).
Proof.
  revert s; induction xs as [|x xs IH]; intros s; simpl; [reflexivity|].
  destruct (body x s) as [s'|e]; simpl; [apply IH | reflexivity].
Qed.

Lemma link_all_app (es fs : list Edge) (nodes : Nodes) :
  link_all (es ++ fs) nodes = Py.bind (link_all es nodes) (link_all fs).
Proof. apply for_each_app. Qed.

Lemma link_all_spec (es : list Edge) (nodes : Nodes) :
  exists nodes',
    link_all es nodes = Ok nodes'
    /\ (forall k, Dict.get k nodes' = links_view es k (Dict.get k nodes))
    /\ (NoDup (Dict.keys nodes) -> NoDup (Dict.keys nodes')).
Proof.
  revert nodes; induction es as [|e es IH]; intros nodes.
  - exists nodes. repeat split; auto.
  - destruct (link_spec (rel e) (child e) (parent e) nodes)
      as [nodes1 [H1 [G1 N1]]].
    destruct (IH nodes1) as [nodes' [H' [G' N']]].
    exists nodes'. unfold link_all in *. simpl. rewrite H1. simpl.
    split; [exact H'|]. split.
    + intros k. rewrite G'. unfold links_view. simpl. now rewrite G1.
    + auto.
Qed.

Lemma bind_ext {A B : Type} (c c' : Result A) (k k' : A -> Result B) :
  c = c' -> (forall a, k a = k' a) -> Py.bind c k = Py.bind c' k'.
Proof. intros -> Hk. destruct c'; simpl; [apply Hk | reflexivity]. Qed.

Lemma link_all_one (e : Edge) (nodes : Nodes) :
  link_all [e] nodes = link (rel e) (child e) (parent e) nodes.
Proof. unfold link_all. simpl. now destruct (link _ _ _ nodes). Qed.

Section Loops.
Context {G : Type} `{TripleSource G}.

Lemma subclass_loop (g : G) (ts : list Triple) (nodes : Nodes) :
  Py.for_each ts (subclass_body g) nodes = link_all (subclass_edges g ts) nodes.
Proof.
  revert nodes; induction ts as [|t ts IH]; intros nodes; [reflexivity|].
  cbn [Py.for_each subclass_edges flat_map]. rewrite link_all_app.
  apply bind_ext; [|exact IH].
  unfold subclass_body.
  destruct (mem g (obj t) RDF_type OWL_Restriction); [reflexivity|].
  now rewrite link_all_one.
Qed.

Lemma target_loop (g : G) (s : Term) (tts : list Triple) (nodes : Nodes) :
  Py.for_each tts (partof_target_body g s) nodes
  = link_all (target_edges g s tts) nodes.
Proof.
  revert nodes; induction tts as [|tt tts IH]; intros nodes; [reflexivity|].
  change (target_edges g s (tt :: tts))
    with ([ {| rel := "partOf"; child := resolve g s;
               parent := resolve g (obj tt) |} ] ++ target_edges g s tts).
  cbn [Py.for_each]. rewrite link_all_app.
  apply bind_ext; [|exact IH].
  now rewrite link_all_one.
Qed.

Lemma property_loop (g : G) (s r : Term) (tps : list Triple) (nodes : Nodes) :
  Py.for_each tps (partof_property_body g s r) nodes
  = link_all (property_edges g s r tps) nodes.
Proof.
  revert nodes; induction tps as [|tp tps IH]; intros nodes; [reflexivity|].
  cbn [Py.for_each property_edges flat_map]. rewrite link_all_app.
  apply bind_ext; [|exact IH].
  unfold partof_property_body.
  destruct (String.eqb (str (obj tp)) (str PART_OF)); [|reflexivity].
  apply target_loop.
Qed.

Lemma partof_loop (g : G) (ts : list Triple) (nodes : Nodes) :
  Py.for_each ts (partof_body g) nodes = link_all (partof_edges g ts) nodes.
Proof.
  revert nodes; induction ts as [|t ts IH]; intros nodes; [reflexivity|].
  cbn [Py.for_each partof_edges flat_map]. rewrite link_all_app.
  apply bind_ext; [|exact IH].
  unfold partof_body.
  destruct (mem g (obj t) RDF_type OWL_Restriction); [|reflexivity].
  apply property_loop.
Qed.

End Loops.

(** ** What a list of insertions does to one entry *)

Lemma link_view_parents (r c p k : string) (o : option TreeNode.t) :
  opt_parents (link_view r c p k o)
  = opt_parents o ++ (if String.eqb c k then [ParentRelation.make p r] else []).
Proof.
  unfold link_view, touch, ensure_one.
  destruct o as [n|]; destruct (String.eqb c k); destruct (String.eqb p k);
    simpl; rewrite ?app_nil_r; reflexivity.
Qed.

Lemma link_view_children (r c p k : string) (o : option TreeNode.t) :
  opt_children (link_view r c p k o)
  = opt_children o ++ (if String.eqb p k then [ChildRelation.make c r] else []).
Proof.
  unfold link_view, touch, ensure_one.
  destruct o as [n|]; destruct (String.eqb c k); destruct (String.eqb p k);
    simpl; rewrite ?app_nil_r; reflexivity.
Qed.

Lemma link_view_leaf (r c p k : string) (o : option TreeNode.t) :
  opt_leaf (link_view r c p k o) = opt_leaf o && negb (String.eqb p k).
Proof.
  unfold link_view, touch, ensure_one.
  destruct o as [n|]; destruct (String.eqb c k); destruct (String.eqb p k);
    simpl; rewrite ?andb_true_r, ?andb_false_r; reflexivity.
Qed.

Lemma link_view_id (r c p k : string) (o : option TreeNode.t) :
  (forall n, o = Some n -> TreeNode.id n = k) ->
  forall n, link_view r c p k o = Some n -> TreeNode.id n = k.
Proof.
  unfold link_view, touch, ensure_one. intros Hid n.
  destruct o as [m|].
  - specialize (Hid m eq_refl). simpl.
    destruct (String.eqb c k); destruct (String.eqb p k);
      intros Hn; injection Hn as <-; simpl; exact Hid.
  - destruct (String.eqb c k) eqn:Ec; destruct (String.eqb p k) eqn:Ep;
      simpl; intros Hn; try discriminate; injection Hn as <-; simpl;
      try (now apply String.eqb_eq in Ec); try (now apply String.eqb_eq in Ep).
Qed.

Lemma link_view_some (r c p k : string) (o : option TreeNode.t) :
  o <> None \/ c = k \/ p = k -> link_view r c p k o <> None.
Proof.
  unfold link_view, ensure_one. intros Hor.
  destruct o as [m|]; [discriminate|].
  destruct (String.eqb c k) eqn:Ec; [discriminate|].
  destruct (String.eqb p k) eqn:Ep; [discriminate|].
  apply String.eqb_neq in Ec, Ep. destruct Hor as [Ho|[Hc|Hp]]; congruence.
Qed.

Lemma links_view_parents (es : list Edge) (k : string) (o : option TreeNode.t) :
  opt_parents (links_view es k o)
  = opt_parents o ++ map parent_record (filter (has_child k) es).
Proof.
  unfold links_view. revert o; induction es as [|e es IH]; intros o; simpl.
  - now rewrite app_nil_r.
  - rewrite IH, link_view_parents, <- app_assoc. unfold has_child at 2.
    now destruct (String.eqb (child e) k).
Qed.

Lemma links_view_children (es : list Edge) (k : string) (o : option TreeNode.t) :
  opt_children (links_view es k o)
  = opt_children o ++ map child_record (filter (has_parent k) es).
Proof.
  unfold links_view. revert o; induction es as [|e es IH]; intros o; simpl.
  - now rewrite app_nil_r.
  - rewrite IH, link_view_children, <- app_assoc. unfold has_parent at 2.
    now destruct (String.eqb (parent e) k).
Qed.

Lemma links_view_leaf (es : list Edge) (k : string) (o : option TreeNode.t) :
  opt_leaf (links_view es k o) = opt_leaf o && negb (existsb (has_parent k) es).
Proof.
  unfold links_view. revert o; induction es as [|e es IH]; intros o; simpl.
  - now rewrite andb_true_r.
  - rewrite IH, link_view_leaf. unfold has_parent at 2.
    rewrite negb_orb. now rewrite andb_assoc.
Qed.

Lemma links_view_id (es : list Edge) (k : string) (o : option TreeNode.t) :
  (forall n, o = Some n -> TreeNode.id n = k) ->
  forall n, links_view es k o = Some n -> TreeNode.id n = k.
Proof.
  unfold links_view. revert o; induction es as [|e es IH]; intros o Hid; simpl.
  - exact Hid.
  - apply IH. now apply link_view_id.
Qed.

Lemma links_view_keeps (es : list Edge) (k : string) (o : option TreeNode.t) :
  o <> None -> links_view es k o <> None.
Proof.
  unfold links_view. revert o; induction es as [|e es IH]; intros o Ho; simpl.
  - exact Ho.
  - apply IH, link_view_some. now left.
Qed.

Lemma links_view_endpoint (es : list Edge) (k : string) (o : option TreeNode.t) (e : Edge) :
  In e es -> child e = k \/ parent e = k -> links_view es k o <> None.
Proof.
  revert o; induction es as [|e' es IH]; intros o Hin Hk; [destruct Hin|].
  destruct Hin as [->|Hin].
  - apply (links_view_keeps es k). apply link_view_some. now right.
  - apply (IH _ Hin Hk).
Qed.

Lemma links_view_app (es fs : list Edge) (k : string) (o : option TreeNode.t) :
  links_view (es ++ fs) k o = links_view fs k (links_view es k o).
Proof. unfold links_view. apply fold_left_app. Qed.

(** ** Steps 1 and 4 *)

Section Declared.
Context {G : Type} `{TripleSource G}.

Lemma declare_class_get (g : G) (s : Term) (nodes : Nodes) (k : string) :
  fresh_at k (Dict.get k nodes) -> fresh_at k (Dict.get k (declare_class g s nodes)).
Proof.
  unfold declare_class. cbv zeta. rewrite get_set.
  destruct (String.eqb _ k) eqn:E; [|auto].
  apply String.eqb_eq in E. intros _ n Hn. inversion Hn; subst. simpl. auto.
Qed.

Lemma declared_fresh (g : G) (k : string) : fresh_at k (Dict.get k (declared g)).
Proof.
  unfold declared.
  assert (Hgen : forall ss nodes,
             fresh_at k (Dict.get k nodes) ->
             fresh_at k (Dict.get k (fold_left (fun nodes s => declare_class g s nodes)
                                               ss nodes))).
  { induction ss as [|s ss IH]; intros nodes Hf; simpl; [exact Hf|].
    apply IH. now apply declare_class_get. }
  apply Hgen. intros n Hn. discriminate.
Qed.

Lemma declared_NoDup (g : G) : NoDup (Dict.keys (declared g)).
Proof.
  unfold declared.
  assert (Hgen : forall ss (nodes : Nodes),
             NoDup (Dict.keys nodes) ->
             NoDup (Dict.keys (fold_left (fun nodes s => declare_class g s nodes)
                                         ss nodes))).
  { induction ss as [|s ss IH]; intros nodes Hnd; simpl; [exact Hnd|].
    apply IH. unfold declare_class. now apply NoDup_set. }
  apply Hgen. constructor.
Qed.

End Declared.

Lemma derive_counts_get (nodes : Nodes) (k : string) :
  Dict.get k (derive_counts nodes)
  = option_map (fun n => TreeNode.set_count n
                           (Z.of_nat (List.length (TreeNode.children n))))
               (Dict.get k nodes).
Proof.
  induction nodes as [|[k' n] nodes IH]; simpl; [reflexivity|].
  destruct (String.eqb k' k); [reflexivity | exact IH].
Qed.

Lemma derive_counts_keys (nodes : Nodes) :
  Dict.keys (derive_counts nodes) = Dict.keys nodes.
Proof.
  unfold Dict.keys, derive_counts. rewrite map_map. reflexivity.
Qed.

(** ** The whole build *)

Lemma fresh_parents (k : string) (o : option TreeNode.t) :
  fresh_at k o -> opt_parents o = [].
Proof. destruct o as [n|]; [|reflexivity]. intros Hf. now apply (Hf n). Qed.

Lemma fresh_children (k : string) (o : option TreeNode.t) :
  fresh_at k o -> opt_children o = [].
Proof. destruct o as [n|]; [|reflexivity]. intros Hf. now apply (Hf n). Qed.

Lemma fresh_leaf (k : string) (o : option TreeNode.t) :
  fresh_at k o -> opt_leaf o = true.
Proof. destruct o as [n|]; [|reflexivity]. intros Hf. now apply (Hf n). Qed.

Section BuildFacts.
Context {G : Type} `{TripleSource G}.

(** The build never raises, and its result is determined entry by entry by
    the table of step 1 and the list of insertions of steps 2 and 3. *)
Lemma build_view (g : G) :
  exists nodes,
    build g = Ok nodes
    /\ NoDup (Dict.keys nodes)
    /\ forall k,
        Dict.get k nodes
        = option_map (fun n => TreeNode.set_count n
                                 (Z.of_nat (List.length (TreeNode.children n))))
                     (links_view (edge_log g) k (Dict.get k (declared g))).
Proof.
  unfold build. fold (declared g).
  rewrite subclass_loop.
  destruct (link_all_spec
              (subclass_edges g (triples g None (Some RDFS_subClassOf) None))
              (declared g)) as [nodes2 [H2 [G2 N2]]].
  rewrite H2. cbn [Py.bind]. rewrite partof_loop.
  destruct (link_all_spec
              (partof_edges g (triples g None (Some RDFS_subClassOf) None))
              nodes2) as [nodes3 [H3 [G3 N3]]].
  rewrite H3. cbn [Py.bind].
  eexists. split; [reflexivity|]. split.
  - rewrite derive_counts_keys. apply N3, N2, declared_NoDup.
  - intros k. rewrite derive_counts_get, G3, G2.
    unfold edge_log. now rewrite links_view_app.
Qed.

Lemma build_spec (g : G) :
  exists nodes,
    build g = Ok nodes
    /\ NoDup (Dict.keys nodes)
    /\ forall k,
        parents_of nodes k = map parent_record (filter (has_child k) (edge_log g))
        /\ children_of nodes k
           = map child_record (filter (has_parent k) (edge_log g))
        /\ (forall n, Dict.get k nodes = Some n ->
              TreeNode.id n = k
              /\ TreeNode.isLeaf n = negb (existsb (has_parent k) (edge_log g))
              /\ TreeNode.count n
                 = Some (Z.of_nat (List.length (TreeNode.children n))))
        /\ (forall e, In e (edge_log g) -> child e = k \/ parent e = k ->
                      Dict.get k nodes <> None)
        /\ (Dict.get k (declared g) <> None -> Dict.get k nodes <> None).
Proof.
  destruct (build_view g) as [nodes [Hb [Hnd Hview]]].
  exists nodes. split; [exact Hb|]. split; [exact Hnd|].
  intros k. unfold parents_of, children_of. rewrite Hview.
  pose proof (declared_fresh g k) as Hfresh.
  set (o0 := Dict.get k (declared g)) in *.
  pose proof (links_view_parents (edge_log g) k o0) as HP.
  pose proof (links_view_children (edge_log g) k o0) as HC.
  pose proof (links_view_leaf (edge_log g) k o0) as HL.
  pose proof (links_view_id (edge_log g) k o0) as HI.
  rewrite (fresh_parents k o0 Hfresh) in HP.
  rewrite (fresh_children k o0 Hfresh) in HC.
  rewrite (fresh_leaf k o0 Hfresh) in HL.
  assert (HI' : forall n, links_view (edge_log g) k o0 = Some n -> TreeNode.id n = k).
  { apply HI. intros n Hn. now apply (Hfresh n). }
  clear HI.
  assert (Hnode : forall n,
             option_map (fun n => TreeNode.set_count n
                                    (Z.of_nat (List.length (TreeNode.children n))))
                        (links_view (edge_log g) k o0) = Some n ->
             TreeNode.id n = k
             /\ TreeNode.isLeaf n = negb (existsb (has_parent k) (edge_log g))
             /\ TreeNode.count n
                = Some (Z.of_nat (List.length (TreeNode.children n)))).
  { intros n Hn.
    destruct (links_view (edge_log g) k o0) as [m|]; [|discriminate].
    simpl in Hn. injection Hn as <-. simpl.
    split; [now apply HI' | split; [exact HL | reflexivity]]. }
  split; [|split; [|split; [exact Hnode|split]]].
  - destruct (links_view (edge_log g) k o0); exact HP.
  - destruct (links_view (edge_log g) k o0); exact HC.
  - intros e Hin Hk Hnone.
    apply (links_view_endpoint (edge_log g) k o0 e Hin Hk).
    destruct (links_view (edge_log g) k o0); [discriminate | reflexivity].
  - intros Ho Hnone.
    apply (links_view_keeps (edge_log g) k o0 Ho).
    destruct (links_view (edge_log g) k o0); [discriminate | reflexivity].
Qed.

End BuildFacts.

(** ** Reading the insertion list *)

Lemma existsb_false_filter {A : Type} (f : A -> bool) (l : list A) :
  existsb f l = false <-> filter f l = [].
Proof.
  induction l as [|x l IH]; simpl; [tauto|].
  destruct (f x); simpl; [split; discriminate | exact IH].
Qed.

Lemma count_parent_records (es : list Edge) (c p T : string) :
  count_occ ParentRelation.eq_dec
            (map parent_record (filter (has_child c) es)) (ParentRelation.make p T)
  = List.length (filter (joins c p T) es).
Proof.
  induction es as [|e es IH]; [reflexivity|].
  cbn [filter].
  change (joins c p T e)
    with (String.eqb (child e) c && String.eqb (parent e) p && String.eqb (rel e) T).
  change (has_child c e) with (String.eqb (child e) c).
  destruct (String.eqb (child e) c) eqn:Ec; cbn [andb map]; [|exact IH].
  destruct (ParentRelation.eq_dec (parent_record e) (ParentRelation.make p T))
    as [Heq|Hne].
  - rewrite (count_occ_cons_eq _ _ Heq), IH.
    injection Heq as Hp Hr. now rewrite Hp, Hr, !String.eqb_refl.
  - rewrite (count_occ_cons_neq _ _ Hne), IH.
    destruct (String.eqb (parent e) p) eqn:Ep; cbn [andb]; [|reflexivity].
    destruct (String.eqb (rel e) T) eqn:Er; [|reflexivity].
    apply String.eqb_eq in Ep, Er. exfalso. apply Hne.
    unfold parent_record. now rewrite Ep, Er.
Qed.

Lemma count_child_records (es : list Edge) (c p T : string) :
  count_occ ChildRelation.eq_dec
            (map child_record (filter (has_parent p) es)) (ChildRelation.make c T)
  = List.length (filter (joins c p T) es).
Proof.
  induction es as [|e es IH]; [reflexivity|].
  cbn [filter].
  change (joins c p T e)
    with (String.eqb (child e) c && String.eqb (parent e) p && String.eqb (rel e) T).
  change (has_parent p e) with (String.eqb (parent e) p).
  destruct (String.eqb (parent e) p) eqn:Ep; cbn [map];
    [|rewrite andb_false_r; exact IH].
  rewrite andb_true_r.
  destruct (ChildRelation.eq_dec (child_record e) (ChildRelation.make c T))
    as [Heq|Hne].
  - rewrite (count_occ_cons_eq _ _ Heq), IH.
    injection Heq as Hc Hr. now rewrite Hc, Hr, !String.eqb_refl.
  - rewrite (count_occ_cons_neq _ _ Hne), IH.
    destruct (String.eqb (child e) c) eqn:Ec; cbn [andb]; [|reflexivity].
    destruct (String.eqb (rel e) T) eqn:Er; [|reflexivity].
    apply String.eqb_eq in Ec, Er. exfalso. apply Hne.
    unfold child_record. now rewrite Ec, Er.
Qed.

Lemma In_parent_records (es : list Edge) (c p T : string) :
  In (ParentRelation.make p T) (map parent_record (filter (has_child c) es))
  <-> In {| rel := T; child := c; parent := p |} es.
Proof.
  rewrite in_map_iff. split.
  - intros [[r c' p'] [Heq Hin]]. apply filter_In in Hin. destruct Hin as [Hin Hc].
    unfold has_child in Hc. simpl in Hc. apply String.eqb_eq in Hc.
    unfold parent_record in Heq. simpl in Heq. injection Heq as -> ->.
    now subst c'.
  - intros Hin. exists {| rel := T; child := c; parent := p |}.
    split; [reflexivity|]. apply filter_In. split; [exact Hin|].
    unfold has_child. simpl. apply String.eqb_refl.
Qed.

Lemma In_child_records (es : list Edge) (c p T : string) :
  In (ChildRelation.make c T) (map child_record (filter (has_parent p) es))
  <-> In {| rel := T; child := c; parent := p |} es.
Proof.
  rewrite in_map_iff. split.
  - intros [[r c' p'] [Heq Hin]]. apply filter_In in Hin. destruct Hin as [Hin Hp].
    unfold has_parent in Hp. simpl in Hp. apply String.eqb_eq in Hp.
    unfold child_record in Heq. simpl in Heq. injection Heq as -> ->.
    now subst p'.
  - intros Hin. exists {| rel := T; child := c; parent := p |}.
    split; [reflexivity|]. apply filter_In. split; [exact Hin|].
    unfold has_parent. simpl. apply String.eqb_refl.
Qed.

Section EdgeLog.
Context {G : Type} `{TripleSource G}.

Lemma In_subclass_edges (g : G) (ts : list Triple) (e : Edge) :
  In e (subclass_edges g ts)
  <-> exists t, In t ts /\ is_restriction g (obj t) = false
                /\ e = {| rel := "subClassOf"; child := resolve g (subj t);
                          parent := resolve g (obj t) |}.
Proof.
  unfold subclass_edges, is_restriction. rewrite in_flat_map. split.
  - intros [t [Hin He]].
    destruct (mem g (obj t) RDF_type OWL_Restriction) eqn:E; [destruct He|].
    destruct He as [<-|[]]. now exists t.
  - intros [t [Hin [Hr ->]]]. exists t. split; [exact Hin|].
    rewrite Hr. now left.
Qed.

Lemma In_partof_edges (g : G) (ts : list Triple) (e : Edge) :
  In e (partof_edges g ts)
  <-> exists t target,
        In t ts /\ is_restriction g (obj t) = true
        /\ on_part_of g (obj t) /\ names_target g (obj t) target
        /\ e = {| rel := "partOf"; child := resolve g (subj t);
                  parent := resolve g target |}.
Proof.
  unfold partof_edges, property_edges, target_edges, is_restriction,
    on_part_of, names_target.
  rewrite in_flat_map. split.
  - intros [t [Hin He]].
    destruct (mem g (obj t) RDF_type OWL_Restriction) eqn:E; [|destruct He].
    apply in_flat_map in He. destruct He as [tp [Htp He]].
    destruct (String.eqb (str (obj tp)) (str PART_OF)) eqn:Em; [|destruct He].
    apply String.eqb_eq in Em.
    apply in_map_iff in He. destruct He as [tt [<- Htt]].
    exists t, (obj tt). repeat split; try assumption.
    + now exists tp.
    + now exists tt.
  - intros [t [target [Hin [Hr [[tp [Htp Hm]] [[tt [Htt <-]] ->]]]]]].
    exists t. split; [exact Hin|]. rewrite Hr.
    apply in_flat_map. exists tp. split; [exact Htp|].
    apply String.eqb_eq in Hm. rewrite Hm.
    apply in_map_iff. now exists tt.
Qed.

End EdgeLog.

Lemma parse_ontology_inv {G : Type} `{TripleSource G}
      (read_graph : string -> Result G) (file_path : string) (nodes : Nodes) :
  parse_ontology read_graph file_path = Ok nodes ->
  exists g, read_graph file_path = Ok g /\ build g = Ok nodes.
Proof.
  unfold parse_ontology. destruct (read_graph file_path) as [g|e]; simpl.
  - intros Hb. now exists g.
  - discriminate.
Qed.

(** ** Invariants of a built graph *)

Section BuiltGraph.
Context {G : Type} `{TripleSource G}.

(** C6: in a graph returned by [parse_ontology], every node's [count] is the
    length of its [children], and its [isLeaf] flag is set exactly when it
    has no child edge, that is, exactly when its [count] is 0. *)
Theorem leaf_and_count_consistent
        (read_graph : string -> Result G) (file_path : string) (nodes : Nodes) :
  parse_ontology read_graph file_path = Ok nodes ->
  forall n, In n (Dict.values nodes) ->
    TreeNode.count n = Some (Z.of_nat (List.length (TreeNode.children n)))
    /\ (TreeNode.isLeaf n = true <-> TreeNode.children n = [])
    /\ (TreeNode.isLeaf n = true <-> TreeNode.count n = Some 0%Z).
Proof.
  intros Hparse n Hin.
  destruct (parse_ontology_inv _ _ _ Hparse) as [g [_ Hbuild]].
  destruct (build_spec g) as [nodes' [Hb' [Hnd Hk]]].
  rewrite Hbuild in Hb'. injection Hb' as <-.
  destruct (In_values_get nodes n Hnd Hin) as [k Hget].
  destruct (Hk k) as [_ [Hch [Hnode _]]].
  destruct (Hnode n Hget) as [_ [Hleaf Hcount]].
  assert (Hiff : TreeNode.isLeaf n = true <-> TreeNode.children n = []).
  { unfold children_of in Hch. rewrite Hget in Hch.
    rewrite Hleaf, Hch, negb_true_iff, existsb_false_filter.
    split.
    - intros ->. reflexivity.
    - intros Hmap. now apply map_eq_nil in Hmap. }
  split; [exact Hcount|]. split; [exact Hiff|].
  rewrite Hiff, Hcount. split.
  - intros ->. reflexivity.
  - intros Hz. injection Hz as Hz.
    destruct (TreeNode.children n); [reflexivity | discriminate].
Qed.

(** C2: in a graph returned by [parse_ontology], for all ids [c], [p] and
    every relation name [T], the parent record [(p, T)] occurs in the parents
    of [c] exactly as many times as the child record [(c, T)] occurs in the
    children of [p]; in particular one is present iff the other is, and the
    same holds between any two nodes of the graph through their [id]s. *)
Theorem edges_are_reciprocal
        (read_graph : string -> Result G) (file_path : string) (nodes : Nodes) :
  parse_ontology read_graph file_path = Ok nodes ->
  forall c p T : string,
    count_occ ParentRelation.eq_dec (parents_of nodes c) (ParentRelation.make p T)
    = count_occ ChildRelation.eq_dec (children_of nodes p) (ChildRelation.make c T)
    /\ (In (ParentRelation.make p T) (parents_of nodes c)
        <-> In (ChildRelation.make c T) (children_of nodes p))
    /\ (forall nc np,
           In nc (Dict.values nodes) -> In np (Dict.values nodes) ->
           TreeNode.id nc = c -> TreeNode.id np = p ->
           count_occ ParentRelation.eq_dec (TreeNode.parents nc)
                     (ParentRelation.make p T)
           = count_occ ChildRelation.eq_dec (TreeNode.children np)
                       (ChildRelation.make c T)).
Proof.
  intros Hparse c p T.
  destruct (parse_ontology_inv _ _ _ Hparse) as [g [_ Hbuild]].
  destruct (build_spec g) as [nodes' [Hb' [Hnd Hk]]].
  rewrite Hbuild in Hb'. injection Hb' as <-.
  assert (Hcount :
            count_occ ParentRelation.eq_dec (parents_of nodes c)
                      (ParentRelation.make p T)
            = count_occ ChildRelation.eq_dec (children_of nodes p)
                        (ChildRelation.make c T)).
  { destruct (Hk c) as [Hpa _]. destruct (Hk p) as [_ [Hch _]].
    rewrite Hpa, Hch, count_parent_records, count_child_records. reflexivity. }
  split; [exact Hcount|]. split.
  - rewrite (count_occ_In ParentRelation.eq_dec),
            (count_occ_In ChildRelation.eq_dec), Hcount. reflexivity.
  - intros nc np Hinc Hinp Hidc Hidp.
    destruct (In_values_get nodes nc Hnd Hinc) as [kc Hgc].
    destruct (In_values_get nodes np Hnd Hinp) as [kp Hgp].
    destruct (Hk kc) as [_ [_ [Hnc _]]]. destruct (Hnc nc Hgc) as [Hkc _].
    destruct (Hk kp) as [_ [_ [Hnp _]]]. destruct (Hnp np Hgp) as [Hkp _].
    rewrite Hidc in Hkc. rewrite Hidp in Hkp. subst kc kp.
    unfold parents_of, children_of in Hcount. now rewrite Hgc, Hgp in Hcount.
Qed.

End BuiltGraph.

(** ** Which triples give which edges *)

Section Restrictions.
Context {G : Type} `{TripleSource G}.

Lemma subclass_edge_in_log (g : G) (c p : string) :
  In {| rel := "subClassOf"; child := c; parent := p |} (edge_log g)
  <-> exists t,
        In t (triples g None (Some RDFS_subClassOf) None)
        /\ is_restriction g (obj t) = false
        /\ resolve g (subj t) = c /\ resolve g (obj t) = p.
Proof.
  unfold edge_log. rewrite in_app_iff, In_subclass_edges, In_partof_edges. split.
  - intros [[t [Hin [Hr He]]] | [t [target [_ [_ [_ [_ He]]]]]]].
    + injection He as -> ->. now exists t.
    + discriminate.
  - intros [t [Hin [Hr [<- <-]]]]. left. now exists t.
Qed.

Lemma partof_edge_in_log (g : G) (c p : string) :
  In {| rel := "partOf"; child := c; parent := p |} (edge_log g)
  <-> exists t target,
        In t (triples g None (Some RDFS_subClassOf) None)
        /\ is_restriction g (obj t) = true
        /\ on_part_of g (obj t) /\ names_target g (obj t) target
        /\ resolve g (subj t) = c /\ resolve g target = p.
Proof.
  unfold edge_log. rewrite in_app_iff, In_subclass_edges, In_partof_edges. split.
  - intros [[t [_ [_ He]]] | [t [target [Hin [Hr [Hp [Ht He]]]]]]].
    + discriminate.
    + injection He as -> ->. now exists t, target.
  - intros [t [target [Hin [Hr [Hp [Ht [<- <-]]]]]]]. right. now exists t, target.
Qed.

Lemma incomplete_restriction_no_edges (g : G) (s r : Term) :
  ~ on_part_of g r \/ (forall target, ~ names_target g r target) ->
  property_edges g s r (triples g (Some r) (Some OWL_onProperty) None) = [].
Proof.
  unfold on_part_of, names_target, property_edges. intros Hlack.
  assert (Hgen : forall tps,
             (forall tp, In tp tps ->
                         In tp (triples g (Some r) (Some OWL_onProperty) None)) ->
             flat_map
               (fun tp =>
                  if String.eqb (str (obj tp)) (str PART_OF)
                  then target_edges g s
                         (triples g (Some r) (Some OWL_someValuesFrom) None)
                  else []) tps = []).
  { induction tps as [|tp tps IH]; intros Hsub; cbn [flat_map]; [reflexivity|].
    rewrite IH by (intros tp' Hin'; apply Hsub; now right).
    rewrite app_nil_r.
    destruct (String.eqb (str (obj tp)) (str PART_OF)) eqn:Em; [|reflexivity].
    apply String.eqb_eq in Em.
    destruct Hlack as [Hno|Hno].
    - exfalso. apply Hno. exists tp. split; [apply Hsub; now left | exact Em].
    - destruct (triples g (Some r) (Some OWL_someValuesFrom) None) as [|tt tts];
        [reflexivity|].
      exfalso. apply (Hno (obj tt)). exists tt. split; [now left | reflexivity]. }
  apply Hgen. auto.
Qed.

(** C5, as the code has it: the build never raises, and in the graph it
    returns
    - step 2 leaves the table as it is on a subclass-of triple whose object
      is typed as a restriction, so that the [subClassOf] edges are exactly
      those of the subclass-of triples whose object is not a restriction;
    - the [partOf] edges are exactly those of the subclass-of triples whose
      object is a restriction carrying an on-property triple whose object
      has the string form of the part-of property -- the test of line 81,
      [str(property_uri) == str(PART_OF)] -- and a some-values-from triple
      naming a target; for each of them both edge records are present, both
      endpoints exist as nodes and the target is not a leaf;
    - step 3 leaves the table as it is on a restriction that lacks such an
      on-property triple or a some-values-from triple;
    - an on-property object that is the part-of property passes the test. *)
Theorem restrictions_yield_part_of_edges (g : G) :
  exists nodes,
    build g = Ok nodes
    /\ (forall t tbl, is_restriction g (obj t) = true ->
                      subclass_body g t tbl = Ok tbl)
    /\ (forall c p,
           In (ParentRelation.make p "subClassOf") (parents_of nodes c)
           <-> exists t,
                 In t (triples g None (Some RDFS_subClassOf) None)
                 /\ is_restriction g (obj t) = false
                 /\ resolve g (subj t) = c /\ resolve g (obj t) = p)
    /\ (forall c p,
           In (ParentRelation.make p "partOf") (parents_of nodes c)
           <-> exists t target,
                 In t (triples g None (Some RDFS_subClassOf) None)
                 /\ is_restriction g (obj t) = true
                 /\ on_part_of g (obj t) /\ names_target g (obj t) target
                 /\ resolve g (subj t) = c /\ resolve g target = p)
    /\ (forall t target,
           In t (triples g None (Some RDFS_subClassOf) None) ->
           is_restriction g (obj t) = true ->
           on_part_of g (obj t) -> names_target g (obj t) target ->
           In (ParentRelation.make (resolve g target) "partOf")
              (parents_of nodes (resolve g (subj t)))
           /\ In (ChildRelation.make (resolve g (subj t)) "partOf")
                 (children_of nodes (resolve g target))
           /\ (exists nc, Dict.get (resolve g (subj t)) nodes = Some nc)
           /\ (exists nt, Dict.get (resolve g target) nodes = Some nt
                          /\ TreeNode.isLeaf nt = false))
    /\ (forall t tbl,
           is_restriction g (obj t) = true ->
           ~ on_part_of g (obj t) \/ (forall target, ~ names_target g (obj t) target) ->
           partof_body g t tbl = Ok tbl)
    /\ (forall r, on_part_of_as_claimed g r -> on_part_of g r).
Proof.
  destruct (build_spec g) as [nodes [Hb [Hnd Hk]]].
  exists nodes. split; [exact Hb|]. split; [|split; [|split; [|split; [|split]]]].
  6:{ intros r [tp [Hin Ho]]. exists tp. split; [exact Hin | now rewrite Ho]. }
  - intros t tbl Hr. unfold subclass_body. unfold is_restriction in Hr.
    now rewrite Hr.
  - intros c p. destruct (Hk c) as [Hpa _].
    rewrite Hpa, In_parent_records. apply subclass_edge_in_log.
  - intros c p. destruct (Hk c) as [Hpa _].
    rewrite Hpa, In_parent_records. apply partof_edge_in_log.
  - intros t target Hin Hr Hp Ht.
    assert (Hlog : In {| rel := "partOf"; child := resolve g (subj t);
                         parent := resolve g target |} (edge_log g)).
    { apply partof_edge_in_log. now exists t, target. }
    destruct (Hk (resolve g (subj t))) as [Hpa [_ [_ [Hex _]]]].
    destruct (Hk (resolve g target)) as [_ [Hch [Hnode [Hex' _]]]].
    split; [|split; [|split]].
    + rewrite Hpa. now apply In_parent_records.
    + rewrite Hch. now apply In_child_records.
    + specialize (Hex _ Hlog (or_introl eq_refl)).
      destruct (Dict.get (resolve g (subj t)) nodes) as [nc|];
        [now exists nc | congruence].
    + specialize (Hex' _ Hlog (or_intror eq_refl)).
      destruct (Dict.get (resolve g target) nodes) as [nt|] eqn:Egt;
        [|congruence].
      exists nt. split; [reflexivity|].
      destruct (Hnode nt eq_refl) as [_ [Hleaf _]]. rewrite Hleaf.
      apply negb_false_iff, existsb_exists.
      eexists. split; [exact Hlog|]. unfold has_parent. simpl.
      apply String.eqb_refl.
  - intros t tbl Hr Hlack. unfold partof_body. unfold is_restriction in Hr.
    rewrite Hr, property_loop.
    now rewrite (incomplete_restriction_no_edges g (subj t) (obj t) Hlack).
Qed.

End Restrictions.

(** ** Identifier resolution *)

Lemma split_shape (s : string) :
  (Py.split "/" s = [s] /\ no_slash s = true)
  \/ (exists first more pre,
         Py.split "/" s = first :: more /\ more <> []
         /\ no_slash (List.last more EmptyString) = true
         /\ s = (pre ++ "/" ++ List.last more EmptyString)%string).
Proof.
  induction s as [|c rest IH]; [left; split; reflexivity|].
  cbn [Py.split no_slash].
  destruct (Ascii.eqb c "/") eqn:E.
  - apply Ascii.eqb_eq in E; subst c. right.
    destruct IH as [[Hs Hn] | [first [more [pre [Hs [Hne [Hn Heq]]]]]]].
    + exists EmptyString, [rest], EmptyString. rewrite Hs.
      repeat split; [discriminate | exact Hn].
    + exists EmptyString, (first :: more), (String "/" pre). rewrite Hs.
      assert (Hl : List.last (first :: more) EmptyString
                   = List.last more EmptyString).
      { destruct more; [contradiction | reflexivity]. }
      rewrite Hl. repeat split; [discriminate | exact Hn |].
      simpl. f_equal. exact Heq.
  - destruct IH as [[Hs Hn] | [first [more [pre [Hs [Hne [Hn Heq]]]]]]].
    + left. rewrite Hs. split; [reflexivity | exact Hn].
    + right. exists (String c first), more, (String c pre). rewrite Hs.
      repeat split; [exact Hne | exact Hn |].
      simpl. f_equal. exact Heq.
Qed.

Lemma last_segment_is_final (s : string) :
  FinalSegment s (Py.last_item (Py.split "/" s)).
Proof.
  unfold FinalSegment, Py.last_item.
  destruct (split_shape s) as [[Hs Hn] | [first [more [pre [Hs [Hne [Hn Heq]]]]]]].
  - rewrite Hs. simpl. split; [exact Hn | now left].
  - rewrite Hs.
    assert (Hl : List.last (first :: more) EmptyString
                 = List.last more EmptyString).
    { destruct more; [contradiction | reflexivity]. }
    rewrite Hl. split; [exact Hn | right; now exists pre].
Qed.

Lemma no_slash_after_slash (pre seg : string) :
  no_slash (pre ++ String "/" seg) = false.
Proof.
  induction pre as [|c pre IH]; simpl; [reflexivity|].
  rewrite IH. apply andb_false_r.
Qed.

Lemma same_tail (a b pre1 pre2 : string) :
  no_slash a = true -> no_slash b = true ->
  (pre1 ++ String "/" a)%string = (pre2 ++ String "/" b)%string -> a = b.
Proof.
  intros Ha Hb. revert pre2.
  induction pre1 as [|c pre1 IH]; intros [|d pre2] Heq; simpl in Heq.
  - now injection Heq.
  - injection Heq as _ Heq. rewrite Heq in Ha.
    now rewrite no_slash_after_slash in Ha.
  - injection Heq as _ Heq. rewrite <- Heq in Hb.
    now rewrite no_slash_after_slash in Hb.
  - injection Heq as _ Heq. now apply (IH pre2).
Qed.

Lemma final_segment_unique (s a b : string) :
  FinalSegment s a -> FinalSegment s b -> a = b.
Proof.
  intros [Ha [Hsa | [pre1 Hsa]]] [Hb [Hsb | [pre2 Hsb]]]; simpl in *.
  - congruence.
  - rewrite <- Hsa, Hsb in Ha. now rewrite no_slash_after_slash in Ha.
  - rewrite <- Hsb, Hsa in Hb. now rewrite no_slash_after_slash in Hb.
  - apply (same_tail a b pre1 pre2 Ha Hb). congruence.
Qed.

Lemma first_literal_any (objs : list Term) :
  first_literal None objs = option_map str (find is_literal objs).
Proof.
  induction objs as [|[u|b|text language] objs IH]; simpl; auto.
Qed.

Section Resolution.
Context {G : Type} `{TripleSource G}.

Lemma resolve_canonical (g : G) (e : Term) : CanonicalId g e (resolve g e).
Proof.
  unfold CanonicalId, resolve, external_id, _get_literal.
  rewrite first_literal_any.
  destruct (option_map str (find is_literal (objects g e (OBOINOWL "id"))))
    as [[|c r]|]; simpl; try reflexivity; apply last_segment_is_final.
Qed.

Lemma canonical_unique (g : G) (e : Term) (i j : string) :
  CanonicalId g e i -> CanonicalId g e j -> i = j.
Proof.
  unfold CanonicalId.
  destruct (external_id g e) as [[|c r]|]; try congruence;
    apply final_segment_unique.
Qed.

(** C7, as the code has it: every entity has exactly one canonical id -- its
    first external-id literal when there is one and it is not empty, the
    final path segment of its string form otherwise -- and that id is the
    one used for it as a declared class (step 1), as the child and as the
    parent of a subclass-of triple (step 2), and as the child and as the
    target of a part-of restriction (step 3). *)
Theorem same_id_wherever_referenced (g : G) (e : Term) :
  exists i,
    CanonicalId g e i
    /\ (forall j, CanonicalId g e j -> j = i)
    /\ (forall nodes, exists node,
           declare_class g e nodes = Dict.set i node nodes
           /\ TreeNode.id node = i /\ TreeNode.iri node = Some (str e))
    /\ (forall t nodes,
           subj t = e -> is_restriction g (obj t) = false ->
           exists p, CanonicalId g (obj t) p
                     /\ subclass_body g t nodes = link "subClassOf" i p nodes)
    /\ (forall t nodes,
           obj t = e -> is_restriction g e = false ->
           exists c, CanonicalId g (subj t) c
                     /\ subclass_body g t nodes = link "subClassOf" c i nodes)
    /\ (forall tt nodes,
           exists p, CanonicalId g (obj tt) p
                     /\ partof_target_body g e tt nodes = link "partOf" i p nodes)
    /\ (forall s tt nodes,
           obj tt = e ->
           exists c, CanonicalId g s c
                     /\ partof_target_body g s tt nodes = link "partOf" c i nodes).
Proof.
  exists (resolve g e).
  split; [apply resolve_canonical|].
  split; [intros j Hj; apply (canonical_unique g e); [exact Hj | apply resolve_canonical]|].
  split; [|split; [|split; [|split]]].
  - intros nodes. eexists. split; [reflexivity|]. split; reflexivity.
  - intros t nodes <- Hr. exists (resolve g (obj t)).
    split; [apply resolve_canonical|].
    unfold subclass_body. unfold is_restriction in Hr. now rewrite Hr.
  - intros t nodes <- Hr. exists (resolve g (subj t)).
    split; [apply resolve_canonical|].
    unfold subclass_body. unfold is_restriction in Hr. now rewrite Hr.
  - intros tt nodes. exists (resolve g (obj tt)).
    split; [apply resolve_canonical | reflexivity].
  - intros s tt nodes <-. exists (resolve g s).
    split; [apply resolve_canonical | reflexivity].
Qed.

End Resolution.

(** ** Statistics *)

Lemma count_parents_fold (ps : list ParentRelation.t) (a b : Z) :
  fold_left count_parent ps (a, b)
  = ((a + Z.of_nat (List.length (filter (of_type "subClassOf") ps)))%Z,
     (b + Z.of_nat (List.length (filter (of_type "partOf") ps)))%Z).
Proof.
  unfold of_type.
  revert a b; induction ps as [|p ps IH]; intros a b.
  - simpl. now rewrite !Z.add_0_r.
  - cbn [fold_left filter]. unfold count_parent at 2.
    destruct (String.eqb (ParentRelation.relationType p) "subClassOf") eqn:Es.
    + assert (Ep : String.eqb (ParentRelation.relationType p) "partOf" = false).
      { apply String.eqb_eq in Es. now rewrite Es. }
      rewrite Ep. cbn [fst snd]. rewrite IH. cbn [List.length]. f_equal; lia.
    + destruct (String.eqb (ParentRelation.relationType p) "partOf") eqn:Ep;
        cbn [fst snd]; rewrite IH; cbn [List.length]; f_equal; lia.
Qed.

Lemma count_term_fields (acc : Counters) (term : TreeNode.t) :
  acc_subClassOf (count_term acc term)
  = (acc_subClassOf acc + parent_edges_of_type "subClassOf" term)%Z
  /\ acc_partOf (count_term acc term)
     = (acc_partOf acc + parent_edges_of_type "partOf" term)%Z
  /\ acc_leaf (count_term acc term)
     = (acc_leaf acc + if TreeNode.isLeaf term then 1 else 0)%Z
  /\ acc_max_depth (count_term acc term)
     = Z.max (acc_max_depth acc) (direct_parents term).
Proof.
  unfold count_term. rewrite count_parents_fold. cbn.
  repeat split. destruct (TreeNode.isLeaf term); lia.
Qed.

Lemma count_terms_fold (terms : list TreeNode.t) (acc : Counters) :
  let r := fold_left count_term terms acc in
  acc_subClassOf r
  = (acc_subClassOf acc + sum_over (parent_edges_of_type "subClassOf") terms)%Z
  /\ acc_partOf r
     = (acc_partOf acc + sum_over (parent_edges_of_type "partOf") terms)%Z
  /\ acc_leaf r = (acc_leaf acc + leaves terms)%Z
  /\ (acc_max_depth acc <= acc_max_depth r)%Z
  /\ (forall n, In n terms -> (direct_parents n <= acc_max_depth r)%Z)
  /\ (acc_max_depth r = acc_max_depth acc
      \/ exists n, In n terms /\ acc_max_depth r = direct_parents n).
Proof.
  revert acc; induction terms as [|term terms IH]; intros acc; cbn zeta.
  - simpl. unfold leaves. simpl. rewrite !Z.add_0_r.
    repeat split; try lia; tauto.
  - cbn [fold_left]. specialize (IH (count_term acc term)). cbn zeta in IH.
    destruct IH as [Hs [Hp [Hl [Hm [Hall Hex]]]]].
    destruct (count_term_fields acc term) as [Fs [Fp [Fl Fm]]].
    rewrite Fs in Hs. rewrite Fp in Hp. rewrite Fl in Hl.
    rewrite Fm in Hm, Hex.
    split; [|split; [|split; [|split; [|split]]]].
    + rewrite Hs. cbn [sum_over fold_right]. fold (sum_over (parent_edges_of_type "subClassOf") terms). lia.
    + rewrite Hp. cbn [sum_over fold_right]. fold (sum_over (parent_edges_of_type "partOf") terms). lia.
    + rewrite Hl. unfold leaves. cbn [filter].
      destruct (TreeNode.isLeaf term); cbn [List.length]; lia.
    + lia.
    + intros n [<-|Hin]; [lia | now apply Hall].
    + destruct Hex as [Heq | [n [Hin Heq]]].
      * destruct (Z.max_spec (acc_max_depth acc) (direct_parents term))
          as [[_ Hmx] | [_ Hmx]].
        -- right. exists term. split; [now left | lia].
        -- left. lia.
      * right. exists n. split; [now right | exact Heq].
Qed.

Lemma direct_parents_nonneg (n : TreeNode.t) : (0 <= direct_parents n)%Z.
Proof. unfold direct_parents. lia. Qed.

Section Statistics.
Context {G : Type} `{TripleSource G} `{CaseFolding}.

(** C8: on every snapshot the statistics are: the parent edges of each of
    the two relation types summed over all nodes, their sum, the number of
    nodes flagged as leaves, and as [max_depth] the largest number of direct
    parent edges held by one node (0 on an empty snapshot); [get_statistics]
    returns them for the snapshot it obtains. *)
Theorem statistics_count_parent_edges (data : Nodes) :
  let s := statistics_of data in
  let terms := Dict.values data in
  subClassOf_relations s = sum_over (parent_edges_of_type "subClassOf") terms
  /\ partOf_relations s = sum_over (parent_edges_of_type "partOf") terms
  /\ total_relations s = (subClassOf_relations s + partOf_relations s)%Z
  /\ leaf_nodes s = leaves terms
  /\ IsMaxOver direct_parents terms (max_depth s)
  /\ total_terms s = Z.of_nat (List.length terms)
  /\ (forall (env : Env G) (self : OntologyService.t),
         result (get_statistics env self)
         = match result (_get_parsed_data env self) with
           | Ok d => Ok (statistics_of d)
           | Raise e => Raise e
           end).
Proof.
  cbn zeta. unfold statistics_of. cbn [subClassOf_relations partOf_relations
    total_relations leaf_nodes max_depth total_terms].
  destruct (count_terms_fold (Dict.values data)
              {| acc_subClassOf := 0; acc_partOf := 0; acc_leaf := 0;
                 acc_max_depth := 0 |}) as [Hs [Hp [Hl [Hm [Hall Hex]]]]].
  cbn [acc_subClassOf acc_partOf acc_leaf acc_max_depth] in *.
  split; [rewrite Hs; lia|]. split; [rewrite Hp; lia|].
  split; [reflexivity|]. split; [rewrite Hl; lia|].
  split; [|split; [reflexivity|]].
  - unfold IsMaxOver. split; [exact Hall|]. split.
    + intros Hnil. rewrite Hnil. reflexivity.
    + intros Hne. destruct Hex as [Heq|Hex]; [|exact Hex].
      destruct (Dict.values data) as [|n rest] eqn:Ev; [contradiction|].
      exists n. split; [now left|].
      pose proof (Hall n (or_introl eq_refl)).
      pose proof (direct_parents_nonneg n). lia.
  - intros env self. unfold get_statistics, with_data.
    now destruct (result (_get_parsed_data env self)).
Qed.

End Statistics.

(** ** The cached service *)

Section ServiceFacts.
Context {G : Type} `{TripleSource G} `{CaseFolding}.

Lemma parse_ontology_raises (read_graph : string -> Result G)
      (file_path : string) (e : Exception) :
  parse_ontology read_graph file_path = Raise e <-> read_graph file_path = Raise e.
Proof.
  unfold parse_ontology. destruct (read_graph file_path) as [g|e']; simpl.
  - destruct (build_spec g) as [nodes [Hb _]]. rewrite Hb.
    split; discriminate.
  - split; intros He; injection He as ->; reflexivity.
Qed.

Lemma parse_ontology_dict (read_graph : string -> Result G)
      (file_path : string) (nodes : Nodes) :
  parse_ontology read_graph file_path = Ok nodes -> NoDup (Dict.keys nodes).
Proof.
  intros Hp. destruct (parse_ontology_inv _ _ _ Hp) as [g [_ Hb]].
  destruct (build_spec g) as [nodes' [Hb' [Hnd _]]]. congruence.
Qed.

Lemma get_parsed_data_cases (env : Env G) (self : OntologyService.t) :
  (Stale (time_time env) self
   /\ _get_parsed_data env self = rebuild env self (time_time env))
  \/ (~ Stale (time_time env) self
      /\ exists data,
           _cache self = Some data
           /\ _get_parsed_data env self
              = {| self' := self; events := []; result := Ok data |}).
Proof.
  unfold Stale, _get_parsed_data.
  destruct (_cache self) as [cache|] eqn:Ec.
  - destruct (_cache_timestamp self) as [ts|] eqn:Et.
    + destruct (gt (PrimFloat.sub (time_time env) ts) ttl) eqn:Eg.
      * left. split; [|reflexivity]. right. right. now exists ts.
      * right. split; [|now exists cache].
        intros [Hn | [Hn | [ts' [Hts Hlt]]]]; try discriminate.
        assert (ts' = ts) by congruence. subst ts'. congruence.
    + left. split; [|reflexivity]. right. now left.
  - left. split; [now left | reflexivity].
Qed.

Lemma handle_with_data (env : Env G) (self : OntologyService.t) (req : Request) :
  is_clear req = false ->
  handle env self req = with_data env self (fun data => answer env data req).
Proof.
  destruct req; intros Hc; try discriminate;
    unfold handle, fmap, get_all_terms, get_term_by_id, search_terms,
      export_to_json, get_statistics, with_data, answer;
    destruct (result (_get_parsed_data env self)) as [data|e]; simpl;
    try reflexivity.
  destruct (save_nodes_to_json _ _ _ data output_file) as [[path written]|e];
    reflexivity.
Qed.

Lemma answer_never_parses (env : Env G) (data : Nodes) (req : Request)
      (path : string) :
  ~ In (ParseAttempt path) (fst (answer env data req)).
Proof.
  destruct req; simpl; try tauto.
  destruct (save_nodes_to_json _ _ _ data output_file) as [[p w]|e]; simpl;
    [|tauto].
  intros [Habs|[]]. discriminate.
Qed.

Lemma handle_fresh (env : Env G) (self : OntologyService.t) (req : Request)
      (data : Nodes) :
  is_clear req = false ->
  _get_parsed_data env self = {| self' := self; events := []; result := Ok data |} ->
  handle env self req
  = {| self' := self;
       events := fst (answer env data req);
       result := snd (answer env data req) |}.
Proof.
  intros Hc Hg. rewrite (handle_with_data env self req Hc).
  unfold with_data. rewrite Hg. reflexivity.
Qed.

Lemma handle_rebuild_ok (env : Env G) (self : OntologyService.t) (req : Request)
      (data : Nodes) :
  is_clear req = false ->
  _get_parsed_data env self = rebuild env self (time_time env) ->
  parse_ontology (read_graph env) (owl_file_path self) = Ok data ->
  handle env self req
  = {| self' := {| owl_file_path := owl_file_path self;
                   _cache := Some data;
                   _cache_timestamp := Some (time_time env) |};
       events := ParseAttempt (owl_file_path self) :: fst (answer env data req);
       result := snd (answer env data req) |}.
Proof.
  intros Hc Hg Hp. rewrite (handle_with_data env self req Hc).
  unfold with_data. rewrite Hg. unfold rebuild. rewrite Hp. reflexivity.
Qed.

Lemma handle_rebuild_fails (env : Env G) (self : OntologyService.t) (req : Request)
      (e : Exception) :
  is_clear req = false ->
  _get_parsed_data env self = rebuild env self (time_time env) ->
  parse_ontology (read_graph env) (owl_file_path self) = Raise e ->
  handle env self req
  = {| self' := self;
       events := [ParseAttempt (owl_file_path self)];
       result := Raise e |}.
Proof.
  intros Hc Hg Hp. rewrite (handle_with_data env self req Hc).
  unfold with_data. rewrite Hg. unfold rebuild. rewrite Hp. reflexivity.
Qed.

End ServiceFacts.

Section Cache.
Context {G : Type} `{TripleSource G} `{CaseFolding}.

Lemma clear_cache_stale (self : OntologyService.t) (now : float) :
  coherent (clear_cache self) /\ Stale now (clear_cache self).
Proof. split; [split; reflexivity | now left]. Qed.

Lemma within_ttl_not_stale (self : OntologyService.t) (now ts : float) :
  _cache self <> None -> _cache_timestamp self = Some ts ->
  gt (PrimFloat.sub now ts) ttl = false -> ~ Stale now self.
Proof.
  intros Hc Ht Hle [Hn | [Hn | [ts' [Hts Hlt]]]]; [contradiction | congruence |].
  assert (ts' = ts) by congruence. subst ts'. congruence.
Qed.

Lemma handle_parses_iff_stale (env : Env G) (self : OntologyService.t)
      (req : Request) :
  is_clear req = false ->
  In (ParseAttempt (owl_file_path self)) (events (handle env self req))
  <-> Stale (time_time env) self.
Proof.
  intros Hc.
  destruct (get_parsed_data_cases env self) as [[Hs Hg] | [Hs [data [_ Hg]]]].
  - split; [intros _; exact Hs | intros _].
    destruct (parse_ontology (read_graph env) (owl_file_path self)) as [d|e] eqn:Ep.
    + rewrite (handle_rebuild_ok env self req d Hc Hg Ep). now left.
    + rewrite (handle_rebuild_fails env self req e Hc Hg Ep). now left.
  - rewrite (handle_fresh env self req data Hc Hg). cbn [events].
    split; [|contradiction].
    intros Hin. exfalso. now apply (answer_never_parses env data req _ Hin).
Qed.

(** C3, as the code has it: when the document cannot be loaded or parsed,
    an operation attempts a rebuild exactly when the instance is stale by the
    code's own test (nothing held, or the rounded difference of the clock
    readings greater than 3600); an operation that attempts the rebuild
    raises that failure to its caller -- whether or not an earlier snapshot
    is held -- after that single attempt; and in every case the instance is
    left exactly as it was. *)
Theorem failed_rebuild_is_raised_and_keeps_state
        (env : Env G) (self : OntologyService.t) (req : Request) (e : Exception) :
  is_clear req = false ->
  read_graph env (owl_file_path self) = Raise e ->
  parse_ontology (read_graph env) (owl_file_path self) = Raise e
  /\ (In (ParseAttempt (owl_file_path self)) (events (handle env self req))
      <-> Stale (time_time env) self)
  /\ (In (ParseAttempt (owl_file_path self)) (events (handle env self req)) ->
      result (handle env self req) = Raise e
      /\ events (handle env self req) = [ParseAttempt (owl_file_path self)])
  /\ self' (handle env self req) = self.
Proof.
  intros Hc Hr.
  assert (Hp : parse_ontology (read_graph env) (owl_file_path self) = Raise e)
    by now apply parse_ontology_raises.
  split; [exact Hp|].
  split; [now apply handle_parses_iff_stale|].
  destruct (get_parsed_data_cases env self) as [[_ Hg] | [Hns [data [_ Hg]]]].
  - rewrite (handle_rebuild_fails env self req e Hc Hg Hp). cbn [result events self'].
    split; [intros _; split; reflexivity | reflexivity].
  - split; [|now rewrite (handle_fresh env self req data Hc Hg)].
    intros Hin. exfalso. apply Hns.
    now apply (handle_parses_iff_stale env self req Hc).
Qed.

(** C4, as the code has it: on a single instance
    - an operation re-parses the document iff there is no snapshot or more
      than [ttl] has passed since the last build, the elapsed time being the
      difference of the two clock readings rounded to a binary64 value;
      otherwise it answers from the held snapshot and leaves the instance as
      it was; a successful rebuild stores the new snapshot with the current
      time;
    - any sequence of operations without [clear_cache], each issued no later
      than [ttl] after the build of the held snapshot by that same test, is
      answered from that one snapshot and leaves the instance as it was;
    - after [clear_cache] the next operation re-parses, whatever the time. *)
Theorem cache_policy (self : OntologyService.t) :
  coherent self ->
  (forall (env : Env G) req,
      is_clear req = false ->
      let o := handle env self req in
      (In (ParseAttempt (owl_file_path self)) (events o)
       <-> Stale (time_time env) self)
      /\ (~ Stale (time_time env) self ->
          exists data,
            _cache self = Some data /\ self' o = self
            /\ events o = fst (answer env data req)
            /\ result o = snd (answer env data req))
      /\ (forall data,
             Stale (time_time env) self ->
             parse_ontology (read_graph env) (owl_file_path self) = Ok data ->
             _cache (self' o) = Some data
             /\ _cache_timestamp (self' o) = Some (time_time env)
             /\ result o = snd (answer env data req))
      /\ coherent (self' o))
  /\ (forall (calls : list (Env G * Request)) data ts,
         _cache self = Some data -> _cache_timestamp self = Some ts ->
         (forall env req,
             In (env, req) calls ->
             is_clear req = false
             /\ gt (PrimFloat.sub (time_time env) ts) ttl = false) ->
         fst (run calls self) = self
         /\ snd (run calls self)
            = map (fun c => {| self' := self;
                               events := fst (answer (fst c) data (snd c));
                               result := snd (answer (fst c) data (snd c)) |})
                  calls)
  /\ (forall (env : Env G) req,
         is_clear req = false ->
         In (ParseAttempt (owl_file_path self))
            (events (handle env (clear_cache self) req))).
Proof.
  intros Hco. split; [|split].
  - intros env req Hc. cbn zeta.
    split; [now apply handle_parses_iff_stale|].
    destruct (get_parsed_data_cases env self) as [[Hs Hg] | [Hs [data [Hd Hg]]]].
    + split; [intros Hns; contradiction|].
      destruct (parse_ontology (read_graph env) (owl_file_path self))
        as [d|e] eqn:Ep.
      * rewrite (handle_rebuild_ok env self req d Hc Hg Ep). cbn.
        split; [|split; discriminate].
        intros data _ Hd. injection Hd as <-. repeat split.
      * rewrite (handle_rebuild_fails env self req e Hc Hg Ep). cbn.
        split; [intros data _ Hd; discriminate | exact Hco].
    + rewrite (handle_fresh env self req data Hc Hg). cbn.
      split; [intros _; exists data; repeat split; exact Hd|].
      split; [intros d Hst; contradiction | exact Hco].
  - intros calls data ts Hd Ht.
    induction calls as [|[env req] calls IH]; intros Hall; [split; reflexivity|].
    destruct (Hall env req (or_introl eq_refl)) as [Hc Hle].
    assert (Hns : ~ Stale (time_time env) self).
    { apply (within_ttl_not_stale self _ ts); [congruence | exact Ht | exact Hle]. }
    destruct (get_parsed_data_cases env self) as [[Hs _] | [_ [d [Hd' Hg]]]];
      [contradiction|].
    assert (d = data) by congruence. subst d.
    cbn [run]. rewrite (handle_fresh env self req data Hc Hg). cbn.
    destruct IH as [IH1 IH2]; [intros env' req' Hin; apply Hall; now right|].
    rewrite IH1, IH2. split; reflexivity.
  - intros env req Hc.
    destruct (clear_cache_stale self (time_time env)) as [Hco' Hst].
    change (owl_file_path self) with (owl_file_path (clear_cache self)).
    now apply handle_parses_iff_stale.
Qed.

End Cache.

(** ** Export *)

Lemma set_appends {V : Type} (d : Dict.t V) (k : string) (v : V) :
  Dict.get k d = None -> Dict.set k v d = d ++ [(k, v)].
Proof.
  induction d as [|[k' v'] d IH]; simpl; [reflexivity|].
  destruct (String.eqb k' k); [discriminate|].
  intros Hg. now rewrite IH.
Qed.

Lemma get_app_none {V : Type} (d d' : Dict.t V) (k : string) :
  ~ In k (Dict.keys d) -> Dict.get k (d ++ d') = Dict.get k d'.
Proof.
  induction d as [|[k' v'] d IH]; simpl; [reflexivity|].
  intros Hn. destruct (String.eqb k' k) eqn:E.
  - apply String.eqb_eq in E. tauto.
  - apply IH. tauto.
Qed.

Lemma not_in_get_none {V : Type} (d : Dict.t V) (k : string) :
  ~ In k (Dict.keys d) -> Dict.get k d = None.
Proof.
  intros Hn. destruct (Dict.get k d) eqn:E; [|reflexivity].
  exfalso. apply Hn. now apply (get_in_keys d k v).
Qed.

Lemma export_table (nodes : Nodes) (acc : Dict.t Json) :
  NoDup (Dict.keys acc ++ Dict.keys nodes) ->
  fold_left (fun acc kv => Dict.set (fst kv) (TreeNode_dict (snd kv)) acc)
            nodes acc
  = acc ++ map (fun kv => (fst kv, TreeNode_dict (snd kv))) nodes.
Proof.
  revert acc; induction nodes as [|[k n] nodes IH]; intros acc Hnd; simpl.
  - now rewrite app_nil_r.
  - simpl in Hnd.
    assert (Hk : ~ In k (Dict.keys acc)).
    { apply NoDup_remove_2 in Hnd. intros Hin. apply Hnd.
      apply in_or_app. now left. }
    rewrite (set_appends acc k _ (not_in_get_none acc k Hk)).
    rewrite IH.
    + now rewrite <- app_assoc.
    + unfold Dict.keys in *. rewrite map_app. simpl. rewrite <- app_assoc.
      simpl. exact Hnd.
Qed.

Lemma get_map_values {V W : Type} (f : V -> W) (d : Dict.t V) (k : string) :
  Dict.get k (map (fun kv => (fst kv, f (snd kv))) d) = option_map f (Dict.get k d).
Proof.
  induction d as [|[k' v'] d IH]; simpl; [reflexivity|].
  destruct (String.eqb k' k); [reflexivity | exact IH].
Qed.

Lemma json_opt_str_inj (a b : option string) :
  json_opt_str a = json_opt_str b -> a = b.
Proof. destruct a, b; simpl; intros Hj; congruence. Qed.

Lemma json_opt_int_inj (a b : option Z) :
  json_opt_int a = json_opt_int b -> a = b.
Proof. destruct a, b; simpl; intros Hj; congruence. Qed.

Lemma map_injective {A B : Type} (f : A -> B) (l l' : list A) :
  (forall x y, f x = f y -> x = y) -> map f l = map f l' -> l = l'.
Proof.
  intros Hinj. revert l'; induction l as [|x l IH]; intros [|y l'] Hm;
    try discriminate; [reflexivity|].
  simpl in Hm. injection Hm as Hxy Hm. f_equal; [now apply Hinj | now apply IH].
Qed.

Lemma ChildRelation_dict_inj (a b : ChildRelation.t) :
  ChildRelation_dict a = ChildRelation_dict b -> a = b.
Proof.
  destruct a, b. unfold ChildRelation_dict. simpl. intros Hj.
  injection Hj as -> ->. reflexivity.
Qed.

Lemma ParentRelation_dict_inj (a b : ParentRelation.t) :
  ParentRelation_dict a = ParentRelation_dict b -> a = b.
Proof.
  destruct a, b. unfold ParentRelation_dict. simpl. intros Hj.
  injection Hj as -> ->. reflexivity.
Qed.

Lemma TreeNode_dict_inj (a b : TreeNode.t) :
  TreeNode_dict a = TreeNode_dict b -> a = b.
Proof.
  destruct a, b. unfold TreeNode_dict. simpl. intros Hj.
  injection Hj as Hid Hl Hlz Hd Hdz Hiri Hleaf Hcount Hch Hpa.
  apply json_opt_str_inj in Hl, Hlz, Hd, Hdz, Hiri.
  apply json_opt_int_inj in Hcount.
  apply (map_injective _ _ _ ChildRelation_dict_inj) in Hch.
  apply (map_injective _ _ _ ParentRelation_dict_inj) in Hpa.
  now subst.
Qed.

Lemma save_nodes_to_json_table
      (strftime_now isoformat_now : string) (can_write : string -> bool)
      (nodes : Nodes) (output_file : option string) (path : string) (written : Json) :
  NoDup (Dict.keys nodes) ->
  save_nodes_to_json strftime_now isoformat_now can_write nodes output_file
  = Ok (path, written) ->
  json_field "nodes" written
  = Some (JDict (map (fun kv => (fst kv, TreeNode_dict (snd kv))) nodes)).
Proof.
  intros Hnd. unfold save_nodes_to_json. cbv zeta.
  destruct (negb (can_write _)); [discriminate|].
  intros Hs. injection Hs as _ <-.
  unfold Dict.items. rewrite export_table by exact Hnd. reflexivity.
Qed.

Lemma TreeNode_dict_full (n : TreeNode.t) : FullRecord (TreeNode_dict n) n.
Proof.
  unfold FullRecord. split; [eexists; split; reflexivity|].
  repeat split.
Qed.

Lemma FullRecord_inj (value : Json) (a b : TreeNode.t) :
  FullRecord value a -> FullRecord value b -> a = b.
Proof.
  unfold FullRecord.
  intros [_ [Ha1 [Ha2 [Ha3 [Ha4 [Ha5 [Ha6 [Ha7 [Ha8 [Ha9 Ha10]]]]]]]]]]
         [_ [Hb1 [Hb2 [Hb3 [Hb4 [Hb5 [Hb6 [Hb7 [Hb8 [Hb9 Hb10]]]]]]]]]].
  rewrite Ha1 in Hb1. rewrite Ha2 in Hb2. rewrite Ha3 in Hb3.
  rewrite Ha4 in Hb4. rewrite Ha5 in Hb5. rewrite Ha6 in Hb6.
  rewrite Ha7 in Hb7. rewrite Ha8 in Hb8. rewrite Ha9 in Hb9.
  rewrite Ha10 in Hb10.
  apply TreeNode_dict_inj. destruct a, b. unfold TreeNode_dict.
  cbn [TreeNode.id TreeNode.label TreeNode.label_zh TreeNode.definition
       TreeNode.definition_zh TreeNode.iri TreeNode.isLeaf TreeNode.count
       TreeNode.children TreeNode.parents] in *.
  injection Hb1 as <-. injection Hb7 as <-.
  injection Hb2 as Hb2. injection Hb3 as Hb3. injection Hb4 as Hb4.
  injection Hb5 as Hb5. injection Hb6 as Hb6. injection Hb8 as Hb8.
  injection Hb9 as Hb9. injection Hb10 as Hb10.
  change text_or_null with json_opt_str in *.
  change int_or_null with json_opt_int in *.
  unfold ChildRelation_dict, ParentRelation_dict.
  now rewrite Hb2, Hb3, Hb4, Hb5, Hb6, Hb8, <- Hb9, <- Hb10.
Qed.

Lemma exported_table (nodes : Nodes) :
  NoDup (Dict.keys nodes) ->
  ExportedTable (JDict (map (fun kv => (fst kv, TreeNode_dict (snd kv))) nodes))
                nodes.
Proof.
  intros Hnd. unfold ExportedTable. split; [|split].
  - eexists. split; [reflexivity|].
    unfold Dict.keys. rewrite map_map. reflexivity.
  - intros k n Hg. exists (TreeNode_dict n). split; [|split].
    + cbn [json_field]. now rewrite get_map_values, Hg.
    + apply TreeNode_dict_full.
    + intros n' Hn'. exact (FullRecord_inj _ _ _ Hn' (TreeNode_dict_full n)).
  - intros k Hg. cbn [json_field]. now rewrite get_map_values, Hg.
Qed.

Lemma save_nodes_to_json_spec
      (strftime_now isoformat_now : string) (can_write : string -> bool)
      (nodes : Nodes) (output_file : option string) (path : string) (written : Json) :
  NoDup (Dict.keys nodes) ->
  save_nodes_to_json strftime_now isoformat_now can_write nodes output_file
  = Ok (path, written) ->
  (exists meta, json_field "metadata" written = Some meta
                /\ json_field "total_nodes" meta
                   = Some (JInt (Z.of_nat (List.length (Dict.values nodes)))))
  /\ (exists table, json_field "nodes" written = Some table
                    /\ (forall k, json_field k table
                                  = option_map TreeNode_dict (Dict.get k nodes))
                    /\ ExportedTable table nodes)
  /\ path = match output_file with
            | Some f => f
            | None => ("ontology_nodes_" ++ strftime_now ++ ".json")%string
            end.
Proof.
  intros Hnd Hs.
  pose proof (save_nodes_to_json_table _ _ _ _ _ _ _ Hnd Hs) as Htable.
  revert Hs. unfold save_nodes_to_json. cbv zeta.
  destruct (negb (can_write _)); [discriminate|].
  intros Hs. injection Hs as <- Hw.
  split; [|split; [|reflexivity]].
  - rewrite <- Hw. eexists. split; [reflexivity|]. cbn.
    unfold Dict.len, Dict.values. now rewrite length_map.
  - eexists. split; [exact Htable|]. split.
    + intros k. cbn [json_field]. apply get_map_values.
    + now apply exported_table.
Qed.

Section Exporting.
Context {G : Type} `{TripleSource G} `{CaseFolding}.

Lemma get_parsed_data_dict (env : Env G) (self : OntologyService.t) (data : Nodes) :
  cache_is_dict self ->
  result (_get_parsed_data env self) = Ok data -> NoDup (Dict.keys data).
Proof.
  unfold cache_is_dict, _get_parsed_data, rebuild. intros Hd.
  destruct (_cache self) as [cache|];
    [destruct (_cache_timestamp self) as [ts|];
     [destruct (gt (PrimFloat.sub (time_time env) ts) ttl)|]|];
    try (destruct (parse_ontology (read_graph env) (owl_file_path self)) eqn:Ep;
         cbn [result]; intros Hr; [|discriminate];
         injection Hr as <-; now apply (parse_ontology_dict _ _ _ Ep)).
  cbn [result]. intros Hr. injection Hr as <-. now apply Hd.
Qed.

(** C9: when [export_to_json] returns a path, it has written to that path
    an object whose [metadata.total_nodes] is the [total_terms] statistic of
    the snapshot it obtained, and whose [nodes] table has the snapshot's ids
    as keys, in the snapshot's order, maps every id to the full record of
    its node -- an object of the ten fields [id], [label], [label_zh],
    [definition], [definition_zh], [iri], [isLeaf], [count], [children] and
    [parents], each holding the node's attribute, from which the node can be
    read back -- and holds nothing else; the path is the destination given,
    or [ontology_nodes_<timestamp>.json] when none was given. *)
Theorem export_matches_snapshot
        (env : Env G) (self : OntologyService.t) (output_file : option string)
        (path : string) :
  cache_is_dict self ->
  result (export_to_json env self output_file) = Ok path ->
  exists data written,
    result (_get_parsed_data env self) = Ok data
    /\ events (export_to_json env self output_file)
       = events (_get_parsed_data env self) ++ [Wrote path written]
    /\ (exists meta, json_field "metadata" written = Some meta
                     /\ json_field "total_nodes" meta
                        = Some (JInt (total_terms (statistics_of data))))
    /\ (exists table, json_field "nodes" written = Some table
                      /\ (forall k, json_field k table
                                    = option_map TreeNode_dict (Dict.get k data))
                      /\ ExportedTable table data)
    /\ path = match output_file with
              | Some f => f
              | None => ("ontology_nodes_" ++ strftime_now env ++ ".json")%string
              end.
Proof.
  intros Hd. unfold export_to_json, with_data.
  destruct (result (_get_parsed_data env self)) as [data|e] eqn:Er;
    cbn [result events]; [|discriminate].
  pose proof (get_parsed_data_dict env self data Hd Er) as Hnd.
  destruct (save_nodes_to_json (strftime_now env) (isoformat_now env)
                               (can_write env) data output_file)
    as [[p written]|e] eqn:Es; cbn [fst snd]; [|discriminate].
  intros Hp. injection Hp as ->.
  exists data, written. split; [reflexivity|]. split; [reflexivity|].
  exact (save_nodes_to_json_spec _ _ _ _ _ _ _ Hnd Es).
Qed.

End Exporting.

(** ** What every reachable instance satisfies *)

Section Reachable.
Context {G : Type} `{TripleSource G} `{CaseFolding}.

Lemma init_invariants (path : string) :
  coherent (__init__ path) /\ cache_is_dict (__init__ path).
Proof.
  split; [split; reflexivity | intros data Hd; discriminate].
Qed.

Lemma handle_invariants (env : Env G) (self : OntologyService.t) (req : Request) :
  coherent self -> cache_is_dict self ->
  coherent (self' (handle env self req))
  /\ cache_is_dict (self' (handle env self req)).
Proof.
  intros Hco Hd. destruct (is_clear req) eqn:Hc.
  - destruct req; try discriminate. cbn [handle self'].
    split; [split; reflexivity | intros data Hx; discriminate].
  - destruct (get_parsed_data_cases env self)
      as [[_ Hg] | [_ [data [_ Hg]]]].
    + destruct (parse_ontology (read_graph env) (owl_file_path self))
        as [d|e] eqn:Ep.
      * rewrite (handle_rebuild_ok env self req d Hc Hg Ep). cbn [self'].
        split; [split; discriminate|].
        intros data Hx. cbn in Hx. injection Hx as <-.
        now apply (parse_ontology_dict _ _ _ Ep).
      * rewrite (handle_rebuild_fails env self req e Hc Hg Ep). now split.
    + rewrite (handle_fresh env self req data Hc Hg). now split.
Qed.

Lemma run_invariants (calls : list (Env G * Request)) (self : OntologyService.t) :
  coherent self -> cache_is_dict self ->
  coherent (fst (run calls self)) /\ cache_is_dict (fst (run calls self)).
Proof.
  revert self; induction calls as [|[env req] calls IH]; intros self Hco Hd.
  - now split.
  - cbn [run fst]. destruct (handle_invariants env self req Hco Hd) as [Hco' Hd'].
    now apply IH.
Qed.

End Reachable.

(** ** Concrete runs *)

(** The scenarios of the specification, run through the build. *)
Example scenario_builds :
  parse_ontology (fun _ => Ok Demo.scenario_graph) "psi-ms-zh.owl"
  = Ok Demo.scenario_nodes.
Proof. reflexivity. Qed.

Example stub_scenario_builds :
  parse_ontology (fun _ => Ok Demo.stub_graph) "psi-ms-zh.owl"
  = Ok Demo.stub_nodes.
Proof. reflexivity. Qed.

Example first_operation_warms_the_cache :
  self' (handle (Demo.env_at 0 (Ok Demo.scenario_graph)) Demo.new_service GetAllTerms)
  = Demo.warm_service.
Proof. reflexivity. Qed.

(** Staleness is decided on the rounded difference of the clock readings.
    With the snapshot built at the reading nearest to 0.3 and an operation
    at the reading nearest to 3600.3, the second reading less 3600 is
    greater than the first, yet their difference rounds to 3600, which is
    not greater than 3600: the held snapshot is served and the document,
    here unreadable, is not read. *)
Example rounding_decides_at_the_boundary :
  let o := handle (Demo.env_at Demo.reading_3600_3 Demo.unreadable)
                  Demo.service_built_at_0_3 GetAllTerms in
  PrimFloat.ltb Demo.reading_0_3 (PrimFloat.sub Demo.reading_3600_3 3600) = true
  /\ PrimFloat.sub Demo.reading_3600_3 Demo.reading_0_3 = 3600%float
  /\ gt (PrimFloat.sub Demo.reading_3600_3 Demo.reading_0_3) ttl = false
  /\ events o = []
  /\ result o = Ok (RespTerms (Dict.values Demo.scenario_nodes)).
Proof. repeat split. Qed.

(** C1, counterexample: both nodes of a built graph are stubs, and the empty
    query returns none of them; a node whose label is present but empty
    matches the empty query by the wording of the specification, and is not
    returned either. *)
Lemma search_empty_query_skips_textless_nodes :
  parse_ontology (fun _ => Ok Demo.stub_graph) "psi-ms-zh.owl" = Ok Demo.stub_nodes
  /\ search_in Demo.stub_nodes EmptyString = []
  /\ search_in Demo.stub_nodes EmptyString <> Dict.values Demo.stub_nodes
  /\ parse_ontology (fun _ => Ok Demo.empty_text_graph) "psi-ms-zh.owl"
     = Ok Demo.empty_text_nodes
  /\ MatchesAnyField EmptyString Demo.empty_text_node
  /\ ~ In Demo.empty_text_node (search_in Demo.empty_text_nodes EmptyString).
Proof.
  split; [reflexivity|]. split; [reflexivity|]. split; [discriminate|].
  split; [reflexivity|]. split.
  - exists EmptyString. split; [now left|]. now exists EmptyString, EmptyString.
  - intros [].
Qed.

(** C5, counterexample: the only on-property object of the restriction is a
    plain literal, so the restriction carries no on-property triple whose
    object is the part-of property; its text is the part-of IRI, the build
    matches it and creates both [partOf] edge records. *)
Lemma literal_on_property_yields_part_of_edge :
  parse_ontology (fun _ => Ok Demo.literal_property_graph) "psi-ms-zh.owl"
  = Ok Demo.literal_property_nodes
  /\ is_restriction Demo.literal_property_graph (BNode "r1") = true
  /\ objects Demo.literal_property_graph (BNode "r1") OWL_onProperty
     = [Literal "http://purl.obolibrary.org/obo/BFO_0000050" None]
  /\ ~ on_part_of_as_claimed Demo.literal_property_graph (BNode "r1")
  /\ on_part_of Demo.literal_property_graph (BNode "r1")
  /\ In (ParentRelation.make "D" "partOf")
        (parents_of Demo.literal_property_nodes "C")
  /\ In (ChildRelation.make "C" "partOf")
        (children_of Demo.literal_property_nodes "D").
Proof.
  split; [reflexivity|]. split; [reflexivity|]. split; [reflexivity|].
  split; [|split; [|split]].
  - intros [tp [Hin Ho]]. vm_compute in Hin.
    destruct Hin as [<-|[]]. discriminate Ho.
  - eexists. split; [now left | reflexivity].
  - now left.
  - now left.
Qed.

(** C7, counterexample: the entity carries an external-id literal, the empty
    one, and is nevertheless known under the final segment of its URI. *)
Lemma empty_external_id_is_not_the_id :
  external_id Demo.empty_text_graph (Demo.ex "A") = Some EmptyString
  /\ parse_ontology (fun _ => Ok Demo.empty_text_graph) "psi-ms-zh.owl"
     = Ok Demo.empty_text_nodes
  /\ Dict.keys Demo.empty_text_nodes = ["A"]
  /\ CanonicalId Demo.empty_text_graph (Demo.ex "A") "A"
  /\ ~ CanonicalIdAsClaimed Demo.empty_text_graph (Demo.ex "A") "A".
Proof.
  split; [reflexivity|]. split; [reflexivity|]. split; [reflexivity|]. split.
  - exact (resolve_canonical Demo.empty_text_graph (Demo.ex "A")).
  - unfold CanonicalIdAsClaimed. cbn. discriminate.
Qed.

(** C3, counterexample: the instance holds the snapshot built at time 0; at
    time 4000 the document has become unreadable; the operation raises and
    does not answer from the snapshot it still holds. *)
Lemma stale_snapshot_is_not_served_on_failure :
  _cache Demo.warm_service = Some Demo.scenario_nodes
  /\ result (handle (Demo.env_at 4000 Demo.unreadable) Demo.warm_service GetAllTerms)
     = Raise (SourceUnavailable "not well-formed")
  /\ result (handle (Demo.env_at 4000 Demo.unreadable) Demo.warm_service GetAllTerms)
     <> Ok (RespTerms (Dict.values Demo.scenario_nodes)).
Proof. split; [reflexivity|]. split; [reflexivity | discriminate]. Qed.

(** C4, counterexample: the snapshot is built at time 0; the document then
    changes; operations at times 3000 and 4000, 1000 seconds apart by the
    code's own subtraction and with no [clear_cache] between them, return
    different node lists, because the second one is more than [ttl] after
    the build. *)
Lemma operations_within_ttl_can_see_different_snapshots :
  let o1 := handle (Demo.env_at 3000 (Ok Demo.stub_graph))
                   Demo.warm_service GetAllTerms in
  let o2 := handle (Demo.env_at 4000 (Ok Demo.stub_graph))
                   (self' o1) GetAllTerms in
  PrimFloat.sub 4000 3000 = 1000%float
  /\ gt (PrimFloat.sub 4000 3000) ttl = false
  /\ result o1 = Ok (RespTerms (Dict.values Demo.scenario_nodes))
  /\ result o2 = Ok (RespTerms (Dict.values Demo.stub_nodes))
  /\ result o1 <> result o2.
Proof.
  cbv zeta. split; [reflexivity|]. split; [reflexivity|].
  split; [reflexivity|]. split; [reflexivity | discriminate].
Qed.

(** ** Instances of the theorems *)

Lemma edges_are_reciprocal_witness :
  parse_ontology (fun _ => Ok Demo.scenario_graph) "psi-ms-zh.owl"
  = Ok Demo.scenario_nodes
  /\ forall c p T : string,
      count_occ ParentRelation.eq_dec (parents_of Demo.scenario_nodes c)
                (ParentRelation.make p T)
      = count_occ ChildRelation.eq_dec (children_of Demo.scenario_nodes p)
                  (ChildRelation.make c T)
      /\ (In (ParentRelation.make p T) (parents_of Demo.scenario_nodes c)
          <-> In (ChildRelation.make c T) (children_of Demo.scenario_nodes p))
      /\ (forall nc np,
             In nc (Dict.values Demo.scenario_nodes) ->
             In np (Dict.values Demo.scenario_nodes) ->
             TreeNode.id nc = c -> TreeNode.id np = p ->
             count_occ ParentRelation.eq_dec (TreeNode.parents nc)
                       (ParentRelation.make p T)
             = count_occ ChildRelation.eq_dec (TreeNode.children np)
                         (ChildRelation.make c T)).
Proof.
  split; [reflexivity|].
  apply (edges_are_reciprocal (fun _ => Ok Demo.scenario_graph) "psi-ms-zh.owl").
  reflexivity.
Defined.

Lemma leaf_and_count_consistent_witness :
  parse_ontology (fun _ => Ok Demo.scenario_graph) "psi-ms-zh.owl"
  = Ok Demo.scenario_nodes
  /\ forall n, In n (Dict.values Demo.scenario_nodes) ->
      TreeNode.count n = Some (Z.of_nat (List.length (TreeNode.children n)))
      /\ (TreeNode.isLeaf n = true <-> TreeNode.children n = [])
      /\ (TreeNode.isLeaf n = true <-> TreeNode.count n = Some 0%Z).
Proof.
  split; [reflexivity|].
  apply (leaf_and_count_consistent (fun _ => Ok Demo.scenario_graph) "psi-ms-zh.owl").
  reflexivity.
Defined.

Lemma warm_service_coherent : coherent Demo.warm_service.
Proof. split; discriminate. Defined.

Lemma warm_service_stale_at_4000 : Stale 4000 Demo.warm_service.
Proof.
  right. right. exists 0%float. split; reflexivity.
Defined.

Lemma failed_rebuild_witness :
  let env := Demo.env_at 4000 Demo.unreadable in
  let e := SourceUnavailable "not well-formed" in
  let o := handle env Demo.warm_service GetStatistics in
  is_clear GetStatistics = false
  /\ read_graph env (owl_file_path Demo.warm_service) = Raise e
  /\ Stale (time_time env) Demo.warm_service
  /\ In (ParseAttempt (owl_file_path Demo.warm_service)) (events o)
  /\ result o = Raise e
  /\ events o = [ParseAttempt (owl_file_path Demo.warm_service)]
  /\ self' o = Demo.warm_service.
Proof.
  cbv zeta.
  destruct (failed_rebuild_is_raised_and_keeps_state
              (Demo.env_at 4000 Demo.unreadable) Demo.warm_service GetStatistics
              (SourceUnavailable "not well-formed") eq_refl eq_refl)
    as [_ [Hiff [Hattempt Hself]]].
  split; [reflexivity|]. split; [reflexivity|].
  split; [exact warm_service_stale_at_4000|].
  assert (Hin : In (ParseAttempt (owl_file_path Demo.warm_service))
                   (events (handle (Demo.env_at 4000 Demo.unreadable)
                                   Demo.warm_service GetStatistics)))
    by (apply Hiff; exact warm_service_stale_at_4000).
  split; [exact Hin|].
  destruct (Hattempt Hin) as [Hres Hev].
  split; [exact Hres|]. split; [exact Hev | exact Hself].
Defined.

Lemma cache_policy_witness :
  coherent Demo.warm_service
  /\ (forall env req, is_clear req = false ->
        In (ParseAttempt (owl_file_path Demo.warm_service))
           (events (@handle (list Triple) _ AsciiFolding env
                            (clear_cache Demo.warm_service) req))).
Proof.
  split; [exact warm_service_coherent|].
  apply (@cache_policy (list Triple) _ AsciiFolding Demo.warm_service
                       warm_service_coherent).
Defined.

Lemma warm_service_cache_is_dict : cache_is_dict Demo.warm_service.
Proof.
  intros data Hd. injection Hd as <-.
  repeat constructor; simpl; intuition discriminate.
Defined.

Lemma export_matches_snapshot_witness :
  let env := Demo.env_at 100 (Ok Demo.scenario_graph) in
  let path := "ontology_nodes_20250101_120000.json" in
  cache_is_dict Demo.warm_service
  /\ result (export_to_json env Demo.warm_service None) = Ok path
  /\ exists data written,
      result (_get_parsed_data env Demo.warm_service) = Ok data
      /\ events (export_to_json env Demo.warm_service None)
         = events (_get_parsed_data env Demo.warm_service) ++ [Wrote path written]
      /\ (exists meta, json_field "metadata" written = Some meta
                       /\ json_field "total_nodes" meta
                          = Some (JInt (total_terms (statistics_of data))))
      /\ (exists table, json_field "nodes" written = Some table
                        /\ (forall k, json_field k table
                                      = option_map TreeNode_dict (Dict.get k data))
                        /\ ExportedTable table data)
      /\ path = ("ontology_nodes_" ++ strftime_now env ++ ".json")%string.
Proof.
  cbv zeta.
  split; [exact warm_service_cache_is_dict|].
  split; [reflexivity|].
  apply (export_matches_snapshot
           (Demo.env_at 100 (Ok Demo.scenario_graph)) Demo.warm_service None
           "ontology_nodes_20250101_120000.json").
  - exact warm_service_cache_is_dict.
  - reflexivity.
Defined.

(* ================================================================== *)
(** * Further properties of the code *)
(* ================================================================== *)

Import XMLChars.

(** ** The XML cleaner, character by character *)

Lemma prefix_nil (s : string) : String.prefix EmptyString s = true.
Proof. now destruct s. Qed.

Lemma char_map_app (f : ascii -> string) (x y : string) :
  char_map f (x ++ y) = (char_map f x ++ char_map f y)%string.
Proof.
  induction x as [|c x IH]; simpl; [reflexivity|].
  rewrite IH. induction (f c) as [|d e IHe]; simpl; [reflexivity|].
  now rewrite IHe.
Qed.

Lemma char_map_compose (f g : ascii -> string) (s : string) :
  char_map f (char_map g s) = char_map (fun c => char_map f (g c)) s.
Proof.
  induction s as [|c s IH]; simpl; [reflexivity|].
  now rewrite char_map_app, IH.
Qed.

Lemma char_map_ext_in (f g : ascii -> string) (s : string) :
  (forall c, has_char c s = true -> f c = g c) -> char_map f s = char_map g s.
Proof.
  induction s as [|c s IH]; intros Hfg; simpl; [reflexivity|].
  rewrite (Hfg c) by (simpl; now rewrite Ascii.eqb_refl).
  rewrite IH; [reflexivity|].
  intros d Hd. apply Hfg. simpl. rewrite Hd. apply orb_true_r.
Qed.

Lemma char_map_id (s : string) : char_map (fun c => String c EmptyString) s = s.
Proof. induction s as [|c s IH]; simpl; [reflexivity | now rewrite IH]. Qed.

Lemma replace_one_char (a : ascii) (new s : string) :
  Py.replace (String a EmptyString) new s
  = char_map (fun c => if Ascii.eqb c a then new else String c EmptyString) s.
Proof.
  unfold Py.replace.
  induction s as [|c s IH]; [reflexivity|].
  cbn [Py.replace_from char_map String.prefix String.length Nat.sub].
  destruct (ascii_dec a c) as [->|Hne].
  - rewrite prefix_nil, Ascii.eqb_refl. now rewrite IH.
  - assert (Hc : Ascii.eqb c a = false)
      by (apply Ascii.eqb_neq; congruence).
    rewrite Hc. simpl. now rewrite IH.
Qed.

Lemma escape_is_char_map (t : string) :
  XMLCleaner.escape_xml_chars t = char_map escape_char t.
Proof.
  destruct t as [|c0 t0]; [reflexivity|].
  unfold XMLCleaner.escape_xml_chars, XMLCleaner.replace_all,
    XMLCleaner.XML_ESCAPE_MAP, XMLCleaner.dquote, XMLCleaner.squote.
  cbn [fold_left fst snd].
  rewrite !replace_one_char, !char_map_compose.
  apply char_map_ext_in. intros c _.
  destruct c as [[] [] [] [] [] [] [] []]; reflexivity.
Qed.

Lemma contains_one_char (a : ascii) (s : string) :
  Py.contains (String a EmptyString) s = has_char a s.
Proof.
  induction s as [|c s IH]; [reflexivity|].
  cbn [Py.contains has_char String.prefix]. rewrite IH, prefix_nil.
  destruct (ascii_dec a c) as [->|Hne].
  - now rewrite Ascii.eqb_refl.
  - assert (Hc : Ascii.eqb c a = false) by (apply Ascii.eqb_neq; congruence).
    now rewrite Hc.
Qed.

Lemma all_chars_iff (p : ascii -> bool) (s : string) :
  all_chars p s = true <-> forall c, has_char c s = true -> p c = true.
Proof.
  induction s as [|d s IH]; simpl.
  - split; [discriminate | reflexivity].
  - rewrite andb_true_iff, IH. split.
    + intros [Hd Hs] c Hc. apply orb_true_iff in Hc. destruct Hc as [Hc|Hc].
      * apply Ascii.eqb_eq in Hc. now subst.
      * now apply Hs.
    + intros Hall. split.
      * apply Hall. now rewrite Ascii.eqb_refl.
      * intros c Hc. apply Hall. rewrite Hc. apply orb_true_r.
Qed.

Lemma has_char_app (a : ascii) (x y : string) :
  has_char a (x ++ y) = has_char a x || has_char a y.
Proof.
  induction x as [|c x IH]; simpl; [reflexivity|].
  now rewrite IH, orb_assoc.
Qed.

Lemma has_char_char_map (a : ascii) (f : ascii -> string) (s : string) (c : ascii) :
  has_char c s = true -> has_char a (f c) = true ->
  has_char a (char_map f s) = true.
Proof.
  induction s as [|d s IH]; simpl; [discriminate|].
  intros Hc Ha. rewrite has_char_app. apply orb_true_iff.
  apply orb_true_iff in Hc. destruct Hc as [Hc|Hc].
  - apply Ascii.eqb_eq in Hc. subst. now left.
  - right. now apply IH.
Qed.

Lemma validate_iff (t : string) :
  XMLCleaner.validate_xml_escaping t = true <-> no_special t = true.
Proof.
  unfold no_special. rewrite all_chars_iff.
  assert (Hv : XMLCleaner.validate_xml_escaping t
               = negb (has_char lt t) && (negb (has_char gt t)
                 && (negb (has_char amp t) && (negb (has_char quot t)
                 && (negb (has_char apos t) && true))))).
  { destruct t as [|c0 t0]; [reflexivity|].
    unfold XMLCleaner.validate_xml_escaping, XMLCleaner.dquote, XMLCleaner.squote.
    cbn [forallb]. now rewrite !contains_one_char. }
  rewrite Hv, !andb_true_iff, !negb_true_iff. split.
  - intros [Hl [Hg [Ha [Hq [Hp _]]]]] c Hc. unfold special.
    rewrite negb_true_iff, !orb_false_iff.
    repeat split; apply Ascii.eqb_neq; intros ->; congruence.
  - intros Hall.
    assert (Hno : forall c, special c = true -> has_char c t = false).
    { intros c Hs. destruct (has_char c t) eqn:E; [|reflexivity].
      apply Hall in E. rewrite Hs in E. discriminate. }
    repeat split; apply Hno; reflexivity.
Qed.

Lemma escape_char_plain (c : ascii) :
  special c = false -> escape_char c = String c EmptyString.
Proof.
  unfold special, escape_char. rewrite !orb_false_iff.
  intros [[[[-> ->] ->] ->] ->]. reflexivity.
Qed.

Lemma escape_char_special (c : ascii) :
  special c = true ->
  has_char amp (escape_char c) = true /\ (2 <= String.length (escape_char c))%nat.
Proof.
  unfold special, escape_char.
  destruct (Ascii.eqb c amp); [intros _; split; [reflexivity | simpl; lia]|].
  destruct (Ascii.eqb c lt); [intros _; split; [reflexivity | simpl; lia]|].
  destruct (Ascii.eqb c gt); [intros _; split; [reflexivity | simpl; lia]|].
  destruct (Ascii.eqb c quot); [intros _; split; [reflexivity | simpl; lia]|].
  destruct (Ascii.eqb c apos); [intros _; split; [reflexivity | simpl; lia]|].
  discriminate.
Qed.

Lemma escape_char_nonempty (c : ascii) : (1 <= String.length (escape_char c))%nat.
Proof.
  destruct (special c) eqn:E.
  - destruct (escape_char_special c E). lia.
  - rewrite (escape_char_plain c E). simpl. lia.
Qed.

Lemma string_length_app (x y : string) :
  String.length (x ++ y) = (String.length x + String.length y)%nat.
Proof. induction x as [|c x IH]; simpl; [reflexivity | now rewrite IH]. Qed.

Lemma escape_length (t : string) :
  (String.length t <= String.length (char_map escape_char t))%nat
  /\ (no_special t = false ->
      (String.length t < String.length (char_map escape_char t))%nat).
Proof.
  unfold no_special.
  induction t as [|c t [IH1 IH2]]; simpl; [split; [lia | discriminate]|].
  rewrite string_length_app.
  pose proof (escape_char_nonempty c) as Hc.
  split; [lia|].
  destruct (special c) eqn:E; simpl.
  - intros _. destruct (escape_char_special c E). lia.
  - intros Hs. specialize (IH2 Hs). lia.
Qed.

Lemma escape_plain_text (t : string) :
  no_special t = true -> char_map escape_char t = t.
Proof.
  unfold no_special. intros Hs. rewrite <- (char_map_id t) at 2.
  apply char_map_ext_in. intros c Hc.
  apply escape_char_plain. rewrite all_chars_iff in Hs.
  specialize (Hs c Hc). now apply negb_true_iff in Hs.
Qed.

Lemma special_char_found (t : string) :
  all_chars (fun c => negb (special c)) t = false ->
  exists c, has_char c t = true /\ special c = true.
Proof.
  induction t as [|c t IH]; simpl; [discriminate|].
  destruct (special c) eqn:Es; simpl.
  - intros _. exists c. now rewrite Ascii.eqb_refl.
  - intros E. destruct (IH E) as [d [Hd Hs]].
    exists d. rewrite Hd. split; [apply orb_true_r | exact Hs].
Qed.

(** X1: escaping acts on each character separately -- every character is
    replaced by its entity or kept, and no entity is escaped a second time by
    a later pass -- so the escape of a concatenation is the concatenation of
    the escapes, and the result is never shorter than the text. *)
Theorem escape_acts_character_by_character (x y : string) :
  XMLCleaner.escape_xml_chars x = char_map escape_char x
  /\ XMLCleaner.escape_xml_chars (x ++ y)
     = (XMLCleaner.escape_xml_chars x ++ XMLCleaner.escape_xml_chars y)%string
  /\ (String.length x <= String.length (XMLCleaner.escape_xml_chars x))%nat.
Proof.
  rewrite !escape_is_char_map. split; [reflexivity|]. split.
  - apply char_map_app.
  - apply escape_length.
Qed.

(** X2: a text passes [validate_xml_escaping] exactly when it holds none of
    the five special characters, and escaping leaves exactly those texts
    unchanged; so the escape of a text passes the validation only when there
    was nothing to escape: the ampersand of every entity is rejected. *)
Theorem validation_rejects_escaped_text (t : string) :
  (XMLCleaner.validate_xml_escaping t = true <-> no_special t = true)
  /\ (XMLCleaner.escape_xml_chars t = t <-> no_special t = true)
  /\ (XMLCleaner.validate_xml_escaping (XMLCleaner.escape_xml_chars t) = true
      <-> no_special t = true).
Proof.
  split; [apply validate_iff|].
  rewrite escape_is_char_map.
  assert (Hfix : char_map escape_char t = t <-> no_special t = true).
  { split; [|apply escape_plain_text].
    intros Heq. destruct (no_special t) eqn:E; [reflexivity|].
    destruct (escape_length t) as [_ Hlt]. specialize (Hlt E).
    rewrite Heq in Hlt. lia. }
  split; [exact Hfix|].
  split.
  - intros Hv. destruct (no_special t) eqn:E; [reflexivity|].
    apply validate_iff in Hv. unfold no_special in Hv, E.
    rewrite all_chars_iff in Hv.
    destruct (special_char_found t E) as [c [Hc Hs]].
    destruct (escape_char_special c Hs) as [Hamp _].
    pose proof (has_char_char_map amp escape_char t c Hc Hamp) as Hin.
    specialize (Hv amp Hin). discriminate.
  - intros Hs. rewrite (escape_plain_text t Hs). now apply validate_iff.
Qed.

(** ** Unescaping an escaped text *)

Lemma replace_from_skip (old new x s : string) :
  Py.replace_from old new (String.length x) (x ++ s)
  = Py.replace_from old new 0 s.
Proof.
  induction x as [|c x IH]; simpl; [|exact IH].
  destruct s; reflexivity.
Qed.

Lemma replace_from_pass (a : ascii) (old' new x s : string) :
  all_chars (differs a) x = true ->
  Py.replace_from (String a old') new 0 (x ++ s)
  = (x ++ Py.replace_from (String a old') new 0 s)%string.
Proof.
  induction x as [|c x IH]; [reflexivity|].
  cbn [all_chars]. intros Hx. apply andb_true_iff in Hx. destruct Hx as [Hc Hx].
  unfold differs in Hc. apply negb_true_iff, Ascii.eqb_neq in Hc.
  cbn [append Py.replace_from String.prefix].
  destruct (ascii_dec a c) as [Heq|_]; [congruence|].
  now rewrite IH.
Qed.

Lemma replace_from_hit (a : ascii) (old' new s : string) :
  Py.replace_from (String a old') new 0 (String a old' ++ s)
  = (new ++ Py.replace_from (String a old') new 0 s)%string.
Proof.
  cbn [append Py.replace_from].
  assert (Hp : String.prefix (String a old') (String a (old' ++ s)) = true).
  { apply prefix_iff. now exists s. }
  rewrite Hp. cbn [String.length Nat.sub]. rewrite Nat.sub_0_r.
  now rewrite replace_from_skip.
Qed.

Lemma clash_no_prefix (old e s : string) :
  clash old e = true -> String.prefix old (e ++ s) = false.
Proof.
  revert e; induction old as [|a old IH]; intros e; [discriminate|].
  destruct e as [|b e]; [discriminate|].
  cbn [clash append String.prefix].
  destruct (ascii_dec a b) as [->|Hne].
  - rewrite Ascii.eqb_refl. apply IH.
  - reflexivity.
Qed.

Lemma replace_from_miss (a : ascii) (old' new e' s : string) :
  clash (String a old') (String a e') = true ->
  all_chars (differs a) e' = true ->
  Py.replace_from (String a old') new 0 (String a e' ++ s)
  = (String a e' ++ Py.replace_from (String a old') new 0 s)%string.
Proof.
  intros Hcl He.
  pose proof (clash_no_prefix _ _ s Hcl) as Hp.
  cbn [append Py.replace_from] in *. rewrite Hp.
  now rewrite replace_from_pass.
Qed.

Lemma replace_char_map (a : ascii) (old' new : string) (f : ascii -> string)
      (t : string) :
  (forall c, has_char c t = true -> step_ok a (String a old') (f c) = true) ->
  Py.replace (String a old') new (char_map f t)
  = char_map (unescape_step (String a old') new f) t.
Proof.
  unfold Py.replace.
  induction t as [|c t IH]; intros Hok; [reflexivity|].
  cbn [char_map].
  assert (Hc : step_ok a (String a old') (f c) = true)
    by (apply Hok; simpl; now rewrite Ascii.eqb_refl).
  assert (IH' : Py.replace_from (String a old') new 0 (char_map f t)
                = char_map (unescape_step (String a old') new f) t).
  { apply IH. intros d Hd. apply Hok. simpl. rewrite Hd. apply orb_true_r. }
  unfold unescape_step at 1. unfold step_ok in Hc.
  destruct (String.eqb (f c) (String a old')) eqn:Eq.
  - apply String.eqb_eq in Eq. rewrite Eq, replace_from_hit. now rewrite IH'.
  - simpl in Hc. apply orb_true_iff in Hc. destruct Hc as [Hc|Hc].
    + rewrite replace_from_pass by exact Hc. now rewrite IH'.
    + destruct (f c) as [|b e']; [discriminate|].
      apply andb_true_iff in Hc. destruct Hc as [Hc Hcl].
      apply andb_true_iff in Hc. destruct Hc as [Hb He].
      apply Ascii.eqb_eq in Hb. subst b.
      rewrite replace_from_miss by assumption. now rewrite IH'.
Qed.

Lemma unescape_is_replace_all (s : string) :
  XMLCleaner.unescape_xml_chars s
  = XMLCleaner.replace_all XMLCleaner.XML_UNESCAPE_MAP s.
Proof. now destruct s. Qed.

(** X3: on a text that holds no ampersand, unescaping undoes escaping. *)
Theorem unescape_undoes_escape_without_ampersand (t : string) :
  has_char amp t = false ->
  XMLCleaner.unescape_xml_chars (XMLCleaner.escape_xml_chars t) = t.
Proof.
  intros Hamp.
  rewrite unescape_is_replace_all, escape_is_char_map.
  unfold XMLCleaner.replace_all, XMLCleaner.XML_UNESCAPE_MAP,
    XMLCleaner.dquote, XMLCleaner.squote.
  cbn [fold_left fst snd].
  assert (Hne : forall c, has_char c t = true -> Ascii.eqb c amp = false).
  { intros c Hc. destruct (Ascii.eqb c amp) eqn:E; [|reflexivity].
    apply Ascii.eqb_eq in E. subst c. congruence. }
  change "&amp;" with (String amp "amp;").
  change "&lt;" with (String amp "lt;").
  change "&gt;" with (String amp "gt;").
  change "&quot;" with (String amp "quot;").
  change "&apos;" with (String amp "apos;").
  rewrite (replace_char_map amp "amp;" "&" escape_char t).
  2:{ intros c Hc. specialize (Hne c Hc). revert Hne.
      destruct c as [[] [] [] [] [] [] [] []]; intros Hne;
        first [reflexivity | discriminate Hne]. }
  rewrite (replace_char_map amp "lt;" "<").
  2:{ intros c Hc. specialize (Hne c Hc). revert Hne.
      destruct c as [[] [] [] [] [] [] [] []]; intros Hne;
        first [reflexivity | discriminate Hne]. }
  rewrite (replace_char_map amp "gt;" ">").
  2:{ intros c Hc. specialize (Hne c Hc). revert Hne.
      destruct c as [[] [] [] [] [] [] [] []]; intros Hne;
        first [reflexivity | discriminate Hne]. }
  rewrite (replace_char_map amp "quot;" (String (ascii_of_nat 34) EmptyString)).
  2:{ intros c Hc. specialize (Hne c Hc). revert Hne.
      destruct c as [[] [] [] [] [] [] [] []]; intros Hne;
        first [reflexivity | discriminate Hne]. }
  rewrite (replace_char_map amp "apos;" (String (ascii_of_nat 39) EmptyString)).
  2:{ intros c Hc. specialize (Hne c Hc). revert Hne.
      destruct c as [[] [] [] [] [] [] [] []]; intros Hne;
        first [reflexivity | discriminate Hne]. }
  rewrite <- (char_map_id t) at 2.
  apply char_map_ext_in. intros c Hc. specialize (Hne c Hc). revert Hne.
  destruct c as [[] [] [] [] [] [] [] []]; intros Hne;
    first [reflexivity | discriminate Hne].
Qed.

Lemma unescape_undoes_escape_witness :
  has_char amp "m/z < 5 'approx'" = false
  /\ XMLCleaner.unescape_xml_chars (XMLCleaner.escape_xml_chars "m/z < 5 'approx'")
     = "m/z < 5 'approx'".
Proof.
  split; [reflexivity|].
  apply unescape_undoes_escape_without_ampersand. reflexivity.
Defined.

Import GraphShape.

(** ** Node identity in a built graph *)

Lemma ids_are_keys (nodes : Nodes) :
  (forall k n, In (k, n) nodes -> TreeNode.id n = k) ->
  map TreeNode.id (Dict.values nodes) = Dict.keys nodes.
Proof.
  induction nodes as [|[k n] nodes IH]; intros Hid; simpl; [reflexivity|].
  rewrite (Hid k n) by now left.
  f_equal. apply IH. intros k' n' Hin. apply Hid. now right.
Qed.

Section Identity.
Context {G : Type} `{TripleSource G}.

Lemma built_keyed (g : G) (nodes : Nodes) :
  build g = Ok nodes ->
  NoDup (Dict.keys nodes)
  /\ (forall k n, Dict.get k nodes = Some n -> TreeNode.id n = k).
Proof.
  intros Hb. destruct (build_spec g) as [nodes' [Hb' [Hnd Hk]]].
  rewrite Hb in Hb'. injection Hb' as <-.
  split; [exact Hnd|]. intros k n Hg.
  destruct (Hk k) as [_ [_ [Hnode _]]]. now apply (Hnode n Hg).
Qed.

(** X4: in a graph returned by [parse_ontology] no two nodes share an id,
    every node is stored under its own id, and looking up the id of any
    listed node gives back that node. *)
Theorem node_ids_are_unique_keys
        (read_graph : string -> Result G) (file_path : string) (nodes : Nodes) :
  parse_ontology read_graph file_path = Ok nodes ->
  NoDup (map TreeNode.id (Dict.values nodes))
  /\ map TreeNode.id (Dict.values nodes) = Dict.keys nodes
  /\ (forall k n, Dict.get k nodes = Some n -> TreeNode.id n = k)
  /\ (forall n, In n (Dict.values nodes) -> Dict.get (TreeNode.id n) nodes = Some n).
Proof.
  intros Hp. destruct (parse_ontology_inv _ _ _ Hp) as [g [_ Hb]].
  destruct (built_keyed g nodes Hb) as [Hnd Hid].
  assert (Hkeys : map TreeNode.id (Dict.values nodes) = Dict.keys nodes).
  { apply ids_are_keys. intros k n Hin. apply Hid. now apply In_get. }
  split; [now rewrite Hkeys|]. split; [exact Hkeys|]. split; [exact Hid|].
  intros n Hin. destruct (In_values_get nodes n Hnd Hin) as [k Hg].
  now rewrite (Hid k n Hg).
Qed.

(** X5: a graph returned by [parse_ontology] has no dangling edge: the
    [parentId] of every parent record and the [childId] of every child
    record is the id of a node of the graph, and every relation name is
    [subClassOf] or [partOf]. *)
Theorem edges_point_to_nodes
        (read_graph : string -> Result G) (file_path : string) (nodes : Nodes) :
  parse_ontology read_graph file_path = Ok nodes ->
  forall n, In n (Dict.values nodes) ->
    (forall p, In p (TreeNode.parents n) ->
       Dict.mem (ParentRelation.parentId p) nodes = true
       /\ (ParentRelation.relationType p = "subClassOf"
           \/ ParentRelation.relationType p = "partOf"))
    /\ (forall c, In c (TreeNode.children n) ->
          Dict.mem (ChildRelation.childId c) nodes = true
          /\ (ChildRelation.relationType c = "subClassOf"
              \/ ChildRelation.relationType c = "partOf")).
Proof.
  intros Hp n Hin. destruct (parse_ontology_inv _ _ _ Hp) as [g [_ Hb]].
  destruct (build_spec g) as [nodes' [Hb' [Hnd Hk]]].
  rewrite Hb in Hb'. injection Hb' as <-.
  destruct (In_values_get nodes n Hnd Hin) as [k Hg].
  assert (Hrel : forall e, In e (edge_log g) ->
                           rel e = "subClassOf" \/ rel e = "partOf").
  { intros e He. unfold edge_log in He. apply in_app_iff in He.
    destruct He as [He|He].
    - apply In_subclass_edges in He. destruct He as [t [_ [_ ->]]]. now left.
    - apply In_partof_edges in He.
      destruct He as [t [tg [_ [_ [_ [_ ->]]]]]]. now right. }
  destruct (Hk k) as [Hpa [Hch _]].
  unfold parents_of in Hpa. unfold children_of in Hch. rewrite Hg in Hpa, Hch.
  split.
  - intros p Hpin. rewrite Hpa in Hpin. apply in_map_iff in Hpin.
    destruct Hpin as [e [<- He]]. apply filter_In in He. destruct He as [He _].
    split; [|exact (Hrel e He)].
    apply mem_get. destruct (Hk (parent e)) as [_ [_ [_ [Hex _]]]].
    apply (Hex e He). now right.
  - intros c Hcin. rewrite Hch in Hcin. apply in_map_iff in Hcin.
    destruct Hcin as [e [<- He]]. apply filter_In in He. destruct He as [He _].
    split; [|exact (Hrel e He)].
    apply mem_get. destruct (Hk (child e)) as [_ [_ [_ [Hex _]]]].
    apply (Hex e He). now left.
Qed.

End Identity.

(** ** Where a node's attributes come from *)

Lemma find_app_last {A : Type} (f : A -> bool) (l : list A) (x : A) :
  find f (l ++ [x])
  = match find f l with
    | Some y => Some y
    | None => if f x then Some x else None
    end.
Proof.
  induction l as [|y l IH]; simpl; [reflexivity|].
  destruct (f y); [reflexivity | exact IH].
Qed.

Lemma same_attributes_refl (n : TreeNode.t) : same_attributes n n.
Proof. repeat split. Qed.

Lemma same_attributes_trans (a b c : TreeNode.t) :
  same_attributes a b -> same_attributes b c -> same_attributes a c.
Proof.
  unfold same_attributes.
  intros [H1 [H2 [H3 [H4 [H5 H6]]]]] [K1 [K2 [K3 [K4 [K5 K6]]]]].
  repeat split; congruence.
Qed.

Lemma link_view_attributes (r c p k : string) (o : option TreeNode.t) (n : TreeNode.t) :
  link_view r c p k o = Some n ->
  same_attributes (match o with Some m => m | None => TreeNode.new k end) n.
Proof.
  unfold link_view, touch, ensure_one.
  destruct o as [m|].
  - simpl. destruct (String.eqb c k); destruct (String.eqb p k);
      intros Hn; injection Hn as <-; repeat split.
  - destruct (String.eqb c k) eqn:Ec; destruct (String.eqb p k) eqn:Ep;
      simpl; intros Hn; try discriminate; injection Hn as <-;
      try apply String.eqb_eq in Ec; try apply String.eqb_eq in Ep;
      subst; repeat split.
Qed.

Lemma links_view_attributes (es : list Edge) (k : string) (o : option TreeNode.t)
      (n : TreeNode.t) :
  links_view es k o = Some n ->
  same_attributes (match o with Some m => m | None => TreeNode.new k end) n.
Proof.
  unfold links_view. revert o; induction es as [|e es IH]; intros o; simpl.
  - intros ->. apply same_attributes_refl.
  - intros Hn. specialize (IH _ Hn).
    destruct (link_view (rel e) (child e) (parent e) k o) as [m|] eqn:El.
    + apply (same_attributes_trans _ m); [|exact IH].
      exact (link_view_attributes (rel e) (child e) (parent e) k o m El).
    + destruct o as [m|]; [|exact IH].
      exfalso.
      apply (link_view_some (rel e) (child e) (parent e) k (Some m));
        [left; discriminate | exact El].
Qed.

Section Attributes.
Context {G : Type} `{TripleSource G}.

Lemma declared_get (g : G) (k : string) (ss : list Term) (nodes0 : Nodes) :
  Dict.get k (fold_left (fun nodes s => declare_class g s nodes) ss nodes0)
  = match last_declaring g k ss with
    | Some s => Some (class_node g s)
    | None => Dict.get k nodes0
    end.
Proof.
  unfold last_declaring.
  revert nodes0; induction ss as [|s ss IH]; intros nodes0; [reflexivity|].
  cbn [fold_left rev]. rewrite IH, find_app_last.
  destruct (find (declares g k) (rev ss)) as [s'|]; [reflexivity|].
  change (declare_class g s nodes0)
    with (Dict.set (resolve g s) (class_node g s) nodes0).
  rewrite get_set. unfold declares.
  now destruct (String.eqb (resolve g s) k).
Qed.

Lemma last_declaring_some (g : G) (k : string) (ss : list Term) (s : Term) :
  last_declaring g k ss = Some s -> In s ss /\ resolve g s = k.
Proof.
  unfold last_declaring. intros Hf. apply find_some in Hf.
  destruct Hf as [Hin Hd]. split.
  - now apply in_rev.
  - now apply String.eqb_eq.
Qed.

Lemma last_declaring_none (g : G) (k : string) (ss : list Term) :
  last_declaring g k ss = None -> forall s, In s ss -> resolve g s <> k.
Proof.
  unfold last_declaring. intros Hf s Hin Heq.
  apply in_rev in Hin. pose proof (find_none _ _ Hf s Hin) as Hd.
  unfold declares in Hd. apply String.eqb_neq in Hd. contradiction.
Qed.

Lemma built_attributes (g : G) (nodes : Nodes) :
  build g = Ok nodes ->
  (forall k n, Dict.get k nodes = Some n ->
     match last_declaring g k (subjects g RDF_type OWL_Class) with
     | Some s =>
         In s (subjects g RDF_type OWL_Class) /\ resolve g s = k
         /\ same_attributes (class_node g s) n
     | None =>
         (forall s, In s (subjects g RDF_type OWL_Class) -> resolve g s <> k)
         /\ same_attributes (TreeNode.new k) n
     end)
  /\ (forall s, In s (subjects g RDF_type OWL_Class) ->
                Dict.mem (resolve g s) nodes = true).
Proof.
  intros Hb. destruct (build_view g) as [nodes' [Hb' [_ Hview]]].
  rewrite Hb in Hb'. injection Hb' as <-.
  assert (Hdecl : forall k, Dict.get k (declared g)
                            = match last_declaring g k (subjects g RDF_type OWL_Class) with
                              | Some s => Some (class_node g s)
                              | None => None
                              end).
  { intros k. unfold declared. now rewrite declared_get. }
  split.
  - intros k n Hg. rewrite Hview in Hg.
    destruct (links_view (edge_log g) k (Dict.get k (declared g))) as [m|] eqn:El;
      [|discriminate].
    simpl in Hg. injection Hg as <-.
    apply links_view_attributes in El. rewrite Hdecl in El.
    destruct (last_declaring g k (subjects g RDF_type OWL_Class)) as [s|] eqn:Ed.
    + destruct (last_declaring_some g k _ s Ed) as [Hin Hk].
      split; [exact Hin|]. split; [exact Hk|].
      apply (same_attributes_trans _ m); [exact El | repeat split].
    + split; [now apply last_declaring_none|].
      apply (same_attributes_trans _ m); [exact El | repeat split].
  - intros s Hin. apply mem_get. rewrite Hview.
    assert (Hsome : Dict.get (resolve g s) (declared g) <> None).
    { rewrite Hdecl.
      destruct (last_declaring g (resolve g s) (subjects g RDF_type OWL_Class))
        eqn:Ed; [discriminate|].
      exfalso. now apply (last_declaring_none g _ _ Ed s Hin). }
    pose proof (links_view_keeps (edge_log g) (resolve g s) _ Hsome) as Hk.
    destruct (links_view (edge_log g) (resolve g s)
                         (Dict.get (resolve g s) (declared g)));
      [discriminate | contradiction].
Qed.

(** X6: in a built graph a node's text attributes and [iri] come from a
    class declaration and from nothing else: if some declared class resolves
    to the node's id, the node carries the attributes of the last such class
    in enumeration order; otherwise the node is a stub whose four text
    fields and [iri] are all absent.  Every declared class has a node. *)
Theorem attributes_come_from_declarations (g : G) (nodes : Nodes) :
  build g = Ok nodes ->
  (forall k n, Dict.get k nodes = Some n ->
     match last_declaring g k (subjects g RDF_type OWL_Class) with
     | Some s =>
         In s (subjects g RDF_type OWL_Class) /\ resolve g s = k
         /\ same_attributes (class_node g s) n
     | None =>
         (forall s, In s (subjects g RDF_type OWL_Class) -> resolve g s <> k)
         /\ same_attributes (TreeNode.new k) n
     end)
  /\ (forall s, In s (subjects g RDF_type OWL_Class) ->
                Dict.mem (resolve g s) nodes = true).
Proof. apply built_attributes. Qed.

End Attributes.

(** ** Iteration order of a built graph *)

Lemma mem_keys {V : Type} (d : Dict.t V) (k : string) :
  Dict.mem k d = existsb (String.eqb k) (Dict.keys d).
Proof.
  unfold Dict.mem. induction d as [|[k' v] d IH]; simpl; [reflexivity|].
  rewrite (String.eqb_sym k k').
  destruct (String.eqb k' k); [reflexivity | exact IH].
Qed.

Lemma keys_set_see {V : Type} (d : Dict.t V) (k : string) (v : V) :
  Dict.keys (Dict.set k v d) = see (Dict.keys d) k.
Proof. rewrite keys_set, mem_keys. reflexivity. Qed.

Lemma keys_set_present {V : Type} (d : Dict.t V) (k : string) (v : V) :
  Dict.mem k d = true -> Dict.keys (Dict.set k v d) = Dict.keys d.
Proof. intros Hm. now rewrite keys_set, Hm. Qed.

Lemma see_present (seen : list string) (k : string) :
  existsb (String.eqb k) seen = true -> see seen k = seen.
Proof. unfold see. now intros ->. Qed.

Lemma ensure_keys (i : string) (nodes : Nodes) :
  Dict.keys (if negb (Dict.mem i nodes)
             then Dict.set i (TreeNode.new i) nodes else nodes)
  = see (Dict.keys nodes) i.
Proof.
  destruct (Dict.mem i nodes) eqn:Em; simpl.
  - rewrite mem_keys in Em. now rewrite see_present.
  - apply keys_set_see.
Qed.

Lemma getitem_mem {V : Type} (d : Dict.t V) (k : string) (v : V) :
  Dict.getitem k d = Ok v -> Dict.mem k d = true.
Proof.
  unfold Dict.getitem, Dict.mem. now destruct (Dict.get k d).
Qed.

Lemma mem_set_same {V : Type} (d : Dict.t V) (k : string) (v : V) :
  Dict.mem k (Dict.set k v d) = true.
Proof. unfold Dict.mem. now rewrite get_set_same. Qed.

Lemma link_keys (r c p : string) (nodes nodes' : Nodes) :
  link r c p nodes = Ok nodes' ->
  Dict.keys nodes' = see (see (Dict.keys nodes) c) p.
Proof.
  unfold link.
  set (nodes1 := if negb (Dict.mem c nodes)
                 then Dict.set c (TreeNode.new c) nodes else nodes).
  set (nodes2 := if negb (Dict.mem p nodes1)
                 then Dict.set p (TreeNode.new p) nodes1 else nodes1).
  assert (K2 : Dict.keys nodes2 = see (see (Dict.keys nodes) c) p).
  { subst nodes2 nodes1. now rewrite !ensure_keys. }
  destruct (Dict.getitem c nodes2) as [child0|e] eqn:Ec; [|discriminate].
  cbn [Py.bind].
  set (nodes3 := Dict.set c _ nodes2).
  assert (K3 : Dict.keys nodes3 = Dict.keys nodes2).
  { subst nodes3. apply keys_set_present. now apply (getitem_mem _ _ child0). }
  destruct (Dict.getitem p nodes3) as [parent0|e] eqn:Ep; [|discriminate].
  cbn [Py.bind].
  set (nodes4 := Dict.set p _ nodes3).
  assert (K4 : Dict.keys nodes4 = Dict.keys nodes3).
  { subst nodes4. apply keys_set_present. now apply (getitem_mem _ _ parent0). }
  destruct (Dict.getitem p nodes4) as [parent1|e] eqn:Ep'; [|discriminate].
  cbn [Py.bind]. intros Hn. injection Hn as <-.
  rewrite keys_set_present by (now apply (getitem_mem _ _ parent1)).
  congruence.
Qed.

Lemma link_all_keys (es : list Edge) (nodes nodes' : Nodes) :
  link_all es nodes = Ok nodes' ->
  Dict.keys nodes' = fold_left see (flat_map endpoints es) (Dict.keys nodes).
Proof.
  unfold link_all.
  revert nodes; induction es as [|e es IH]; intros nodes; cbn [Py.for_each].
  - intros Hn. injection Hn as <-. reflexivity.
  - destruct (link (rel e) (child e) (parent e) nodes) as [nodes1|x] eqn:El;
      [|discriminate].
    cbn [Py.bind]. intros Hn. rewrite (IH _ Hn).
    rewrite (link_keys _ _ _ _ _ El). reflexivity.
Qed.

Lemma fold_see_In (ks seen : list string) (k : string) :
  In k (fold_left see ks seen) <-> In k seen \/ In k ks.
Proof.
  revert seen; induction ks as [|x ks IH]; intros seen; simpl; [tauto|].
  rewrite IH. unfold see.
  destruct (existsb (String.eqb x) seen) eqn:Ex.
  - apply existsb_exists in Ex. destruct Ex as [y [Hy Hxy]].
    apply String.eqb_eq in Hxy. subst y.
    split; [tauto|]. intros [Hs | [-> | Hk]]; tauto.
  - rewrite in_app_iff. simpl. tauto.
Qed.

Section Order.
Context {G : Type} `{TripleSource G}.

Lemma declared_keys (g : G) (ss : list Term) (nodes0 : Nodes) :
  Dict.keys (fold_left (fun nodes s => declare_class g s nodes) ss nodes0)
  = fold_left see (map (resolve g) ss) (Dict.keys nodes0).
Proof.
  revert nodes0; induction ss as [|s ss IH]; intros nodes0; [reflexivity|].
  cbn [fold_left map]. rewrite IH.
  change (declare_class g s nodes0)
    with (Dict.set (resolve g s) (class_node g s) nodes0).
  now rewrite keys_set_see.
Qed.

Lemma build_keys (g : G) (nodes : Nodes) :
  build g = Ok nodes -> Dict.keys nodes = first_seen (mentions g).
Proof.
  unfold build. fold (declared g). rewrite subclass_loop.
  destruct (link_all (subclass_edges g (triples g None (Some RDFS_subClassOf) None))
                     (declared g)) as [nodes2|e] eqn:E2; [|discriminate].
  cbn [Py.bind]. rewrite partof_loop.
  destruct (link_all (partof_edges g (triples g None (Some RDFS_subClassOf) None))
                     nodes2) as [nodes3|e] eqn:E3; [|discriminate].
  cbn [Py.bind]. intros Hn. injection Hn as <-.
  rewrite derive_counts_keys, (link_all_keys _ _ _ E3), (link_all_keys _ _ _ E2).
  unfold declared. rewrite declared_keys.
  unfold first_seen, mentions, edge_log.
  now rewrite flat_map_app, !fold_left_app.
Qed.

(** X7: the nodes of a built graph are listed in the order in which the
    build first comes across their ids: the declared classes in enumeration
    order, then, insertion by insertion, the child and the parent; an id has
    a node exactly when it is mentioned. *)
Theorem nodes_are_listed_in_order_of_first_mention (g : G) (nodes : Nodes) :
  build g = Ok nodes ->
  Dict.keys nodes = first_seen (mentions g)
  /\ map TreeNode.id (Dict.values nodes) = first_seen (mentions g)
  /\ (forall k, Dict.mem k nodes = true <-> In k (mentions g)).
Proof.
  intros Hb. pose proof (build_keys g nodes Hb) as Hk.
  destruct (built_keyed g nodes Hb) as [Hnd Hid].
  split; [exact Hk|]. split.
  - rewrite <- Hk. apply ids_are_keys. intros k n Hin. apply Hid.
    now apply In_get.
  - intros k. rewrite mem_keys, Hk. unfold first_seen.
    pose proof (fold_see_In (mentions g) [] k) as Hf. split.
    + intros Hex. apply existsb_exists in Hex. destruct Hex as [y [Hy Hky]].
      apply String.eqb_eq in Hky. subst y.
      apply Hf in Hy. destruct Hy as [[]|Hy]. exact Hy.
    + intros Hin. apply existsb_exists. exists k.
      split; [apply Hf; now right | apply String.eqb_refl].
Qed.

End Order.

(** ** Statistics of a built graph *)

Lemma two_types_partition (a b : string) (ps : list ParentRelation.t) :
  a <> b ->
  (forall p, In p ps -> ParentRelation.relationType p = a
                        \/ ParentRelation.relationType p = b) ->
  (List.length (filter (of_type a) ps) + List.length (filter (of_type b) ps)
   = List.length ps)%nat.
Proof.
  intros Hab. induction ps as [|p ps IH]; intros Hty; [reflexivity|].
  assert (IH' := IH (fun q Hq => Hty q (or_intror Hq))).
  cbn [filter].
  destruct (Hty p (or_introl eq_refl)) as [Hp|Hp].
  - assert (Ha : of_type a p = true)
      by (unfold of_type; rewrite Hp; apply String.eqb_refl).
    assert (Hb : of_type b p = false)
      by (unfold of_type; rewrite Hp; now apply String.eqb_neq).
    rewrite Ha, Hb. simpl. lia.
  - assert (Ha : of_type a p = false)
      by (unfold of_type; rewrite Hp; apply String.eqb_neq; congruence).
    assert (Hb : of_type b p = true)
      by (unfold of_type; rewrite Hp; apply String.eqb_refl).
    rewrite Ha, Hb. simpl. lia.
Qed.

Lemma sum_over_ext_in (f h : TreeNode.t -> Z) (ns : list TreeNode.t) :
  (forall n, In n ns -> f n = h n) -> sum_over f ns = sum_over h ns.
Proof.
  induction ns as [|n ns IH]; intros Hfh; simpl; [reflexivity|].
  rewrite (Hfh n) by now left.
  rewrite IH; [reflexivity|]. intros m Hm. apply Hfh. now right.
Qed.

Lemma sum_over_plus (f h : TreeNode.t -> Z) (ns : list TreeNode.t) :
  (sum_over f ns + sum_over h ns)%Z = sum_over (fun n => (f n + h n)%Z) ns.
Proof.
  induction ns as [|n ns IH]; simpl; [reflexivity|]. rewrite <- IH. lia.
Qed.

Lemma no_key_matches (ks : list string) (k : string) :
  ~ In k ks ->
  list_sum (map (fun x => if String.eqb k x then 1 else 0)%nat ks) = 0%nat.
Proof.
  unfold list_sum.
  induction ks as [|y ks IH]; intros Hk; [reflexivity|].
  cbn [map fold_right].
  assert (Hy : String.eqb k y = false).
  { apply String.eqb_neq. intros ->. apply Hk. now left. }
  rewrite Hy, IH; [reflexivity|]. intros Hin. apply Hk. now right.
Qed.

Lemma one_key_matches (ks : list string) (k : string) :
  NoDup ks -> In k ks ->
  list_sum (map (fun x => if String.eqb k x then 1 else 0)%nat ks) = 1%nat.
Proof.
  induction ks as [|x ks IH]; intros Hnd Hin; [destruct Hin|].
  inversion Hnd as [|? ? Hx Hnd']; subst.
  change (list_sum (map (fun x0 => if String.eqb k x0 then 1 else 0)%nat (x :: ks)))
    with ((if String.eqb k x then 1 else 0)
          + list_sum (map (fun x0 => if String.eqb k x0 then 1 else 0)%nat ks))%nat.
  destruct (String.eqb k x) eqn:E.
  - apply String.eqb_eq in E. rewrite <- E in Hx.
    now rewrite (no_key_matches ks k Hx).
  - destruct Hin as [->|Hin]; [now rewrite String.eqb_refl in E|].
    now rewrite IH.
Qed.

Lemma list_sum_map_plus {A : Type} (f h : A -> nat) (l : list A) :
  list_sum (map (fun x => f x + h x)%nat l)
  = (list_sum (map f l) + list_sum (map h l))%nat.
Proof.
  unfold list_sum. induction l as [|x l IH]; simpl; [reflexivity|].
  rewrite IH. lia.
Qed.

Lemma edges_by_endpoint (pick : Edge -> string) (es : list Edge) (ks : list string) :
  NoDup ks -> (forall e, In e es -> In (pick e) ks) ->
  list_sum (map (fun k => List.length
                            (filter (fun e => String.eqb (pick e) k) es)) ks)
  = List.length es.
Proof.
  intros Hnd. induction es as [|e es IH]; intros Hall.
  - clear Hnd Hall. unfold list_sum.
    induction ks as [|k ks IHk]; [reflexivity | exact IHk].
  - specialize (IH (fun e' He' => Hall e' (or_intror He'))).
    rewrite (map_ext _ (fun k => (if String.eqb (pick e) k then 1 else 0)
                                 + List.length
                                     (filter (fun e' => String.eqb (pick e') k) es))%nat).
    + rewrite list_sum_map_plus, IH.
      now rewrite (one_key_matches ks (pick e) Hnd (Hall e (or_introl eq_refl))).
    + intros k. cbn [filter]. now destruct (String.eqb (pick e) k).
Qed.

Lemma sum_over_values (h : TreeNode.t -> nat) (h' : string -> nat) (nodes : Nodes) :
  (forall k n, In (k, n) nodes -> h n = h' k) ->
  sum_over (fun n => Z.of_nat (h n)) (Dict.values nodes)
  = Z.of_nat (list_sum (map h' (Dict.keys nodes))).
Proof.
  unfold list_sum.
  induction nodes as [|[k n] nodes IH]; intros Hh; simpl; [reflexivity|].
  rewrite IH by (intros k' n' Hin; apply Hh; now right).
  rewrite (Hh k n) by now left. lia.
Qed.

Section BuiltStatistics.
Context {G : Type} `{TripleSource G}.

(** X8: on a graph returned by [parse_ontology] the statistics count every
    edge exactly once: [total_relations] is the total number of parent
    records, which is the total number of child records, that is, the sum of
    the nodes' child counts. *)
Theorem total_relations_counts_every_edge
        (read_graph : string -> Result G) (file_path : string) (nodes : Nodes) :
  parse_ontology read_graph file_path = Ok nodes ->
  total_relations (statistics_of nodes) = sum_over direct_parents (Dict.values nodes)
  /\ total_relations (statistics_of nodes)
     = sum_over children_count (Dict.values nodes).
Proof.
  intros Hp. destruct (parse_ontology_inv _ _ _ Hp) as [g [_ Hb]].
  destruct (build_spec g) as [nodes' [Hb' [Hnd Hk]]].
  rewrite Hb in Hb'. injection Hb' as <-.
  assert (Hrel : forall e, In e (edge_log g) ->
                           rel e = "subClassOf" \/ rel e = "partOf").
  { intros e He. unfold edge_log in He. apply in_app_iff in He.
    destruct He as [He|He].
    - apply In_subclass_edges in He. destruct He as [t [_ [_ ->]]]. now left.
    - apply In_partof_edges in He.
      destruct He as [t [tg [_ [_ [_ [_ ->]]]]]]. now right. }
  assert (Hpar : forall k n, In (k, n) nodes ->
              TreeNode.parents n
              = map parent_record (filter (has_child k) (edge_log g))).
  { intros k n Hin. destruct (Hk k) as [Hpa _].
    unfold parents_of in Hpa. now rewrite (In_get nodes k n Hnd Hin) in Hpa. }
  assert (Hchi : forall k n, In (k, n) nodes ->
              TreeNode.children n
              = map child_record (filter (has_parent k) (edge_log g))).
  { intros k n Hin. destruct (Hk k) as [_ [Hch _]].
    unfold children_of in Hch. now rewrite (In_get nodes k n Hnd Hin) in Hch. }
  assert (Hkeys : forall e, In e (edge_log g) ->
                            In (child e) (Dict.keys nodes)
                            /\ In (parent e) (Dict.keys nodes)).
  { intros e He. split.
    - destruct (Hk (child e)) as [_ [_ [_ [Hex _]]]].
      specialize (Hex e He (or_introl eq_refl)).
      destruct (Dict.get (child e) nodes) as [nc|] eqn:Eg; [|contradiction].
      now apply (get_in_keys nodes _ nc).
    - destruct (Hk (parent e)) as [_ [_ [_ [Hex _]]]].
      specialize (Hex e He (or_intror eq_refl)).
      destruct (Dict.get (parent e) nodes) as [np|] eqn:Eg; [|contradiction].
      now apply (get_in_keys nodes _ np). }
  assert (Htotal : total_relations (statistics_of nodes)
                   = sum_over direct_parents (Dict.values nodes)).
  { unfold statistics_of. cbn [total_relations].
    destruct (count_terms_fold (Dict.values nodes)
                {| acc_subClassOf := 0; acc_partOf := 0; acc_leaf := 0;
                   acc_max_depth := 0 |}) as [Hs [Hpt _]].
    cbn [acc_subClassOf acc_partOf] in Hs, Hpt. rewrite Hs, Hpt.
    rewrite !Z.add_0_l, sum_over_plus. apply sum_over_ext_in.
    intros n Hin. unfold parent_edges_of_type, direct_parents.
    rewrite <- Nat2Z.inj_add. f_equal.
    apply two_types_partition; [discriminate|].
    intros p Hpin. unfold Dict.values in Hin. apply in_map_iff in Hin.
    destruct Hin as [[k n'] [Hn Hin]]. simpl in Hn. subst n'.
    rewrite (Hpar k n Hin) in Hpin. apply in_map_iff in Hpin.
    destruct Hpin as [e [<- He]]. apply filter_In in He.
    exact (Hrel e (proj1 He)). }
  split; [exact Htotal|]. rewrite Htotal.
  unfold direct_parents, children_count.
  rewrite (sum_over_values (fun n => List.length (TreeNode.parents n))
             (fun k => List.length (filter (has_child k) (edge_log g))) nodes).
  2:{ intros k n Hin. now rewrite (Hpar k n Hin), length_map. }
  rewrite (sum_over_values (fun n => List.length (TreeNode.children n))
             (fun k => List.length (filter (has_parent k) (edge_log g))) nodes).
  2:{ intros k n Hin. now rewrite (Hchi k n Hin), length_map. }
  f_equal.
  rewrite (edges_by_endpoint child (edge_log g) (Dict.keys nodes) Hnd)
    by (intros e He; apply (Hkeys e He)).
  rewrite (edges_by_endpoint parent (edge_log g) (Dict.keys nodes) Hnd)
    by (intros e He; apply (Hkeys e He)).
  reflexivity.
Qed.

End BuiltStatistics.

(** ** Literal lookup *)

Lemma first_literal_skips (lang : option string) (pre rest : list Term) :
  forallb (fun t => negb (accepted lang t)) pre = true ->
  first_literal lang (pre ++ rest) = first_literal lang rest.
Proof.
  induction pre as [|t pre IH]; [reflexivity|].
  cbn [forallb]. intros Hp. apply andb_true_iff in Hp. destruct Hp as [Ht Hp].
  apply negb_true_iff in Ht. cbn [app first_literal].
  destruct t as [u|b|text language]; try (now apply IH).
  unfold accepted in Ht. destruct lang as [l|]; [|discriminate].
  rewrite Ht. now apply IH.
Qed.

Lemma first_literal_takes (lang : option string) (v : string)
      (language : option string) (post : list Term) :
  accepted lang (Literal v language) = true ->
  first_literal lang (Literal v language :: post) = Some v.
Proof.
  unfold accepted. cbn [first_literal].
  destruct lang as [l|]; [intros ->; reflexivity | reflexivity].
Qed.

Lemma first_literal_some (lang : option string) (objs : list Term) (v : string) :
  first_literal lang objs = Some v ->
  exists pre language post,
    objs = pre ++ Literal v language :: post
    /\ accepted lang (Literal v language) = true
    /\ forallb (fun t => negb (accepted lang t)) pre = true.
Proof.
  induction objs as [|t objs IH]; [discriminate|].
  assert (Hskip : accepted lang t = false -> first_literal lang objs = Some v ->
                  exists pre language post,
                    t :: objs = pre ++ Literal v language :: post
                    /\ accepted lang (Literal v language) = true
                    /\ forallb (fun t => negb (accepted lang t)) pre = true).
  { intros Ht Hf. destruct (IH Hf) as [pre [language [post [Ho [Ha Hp]]]]].
    exists (t :: pre), language, post. rewrite Ho.
    repeat split; [exact Ha|]. cbn [forallb]. now rewrite Ht, Hp. }
  destruct t as [u|b|text language]; cbn [first_literal];
    try (apply Hskip; reflexivity).
  destruct lang as [l|].
  - destruct (opt_eqb language (Some l)) eqn:E.
    + intros Hv. injection Hv as <-. exists [], language, objs.
      repeat split. exact E.
    + apply Hskip. exact E.
  - intros Hv. injection Hv as <-. exists [], language, objs. repeat split.
Qed.

Lemma first_literal_none (lang : option string) (objs : list Term) :
  first_literal lang objs = None
  <-> forallb (fun t => negb (accepted lang t)) objs = true.
Proof.
  induction objs as [|t objs IH]; [split; reflexivity|].
  cbn [forallb]. rewrite andb_true_iff, <- IH, negb_true_iff.
  destruct t as [u|b|text language]; cbn [first_literal accepted];
    try tauto.
  destruct lang as [l|].
  - destruct (opt_eqb language (Some l)); [split; [discriminate | intros [? _]; discriminate] | tauto].
  - split; [discriminate | intros [? _]; discriminate].
Qed.

Lemma accepted_any (lang : option string) (t : Term) :
  accepted lang t = true -> accepted None t = true.
Proof. destruct t; simpl; auto. Qed.

Lemma specific_implies_neutral (lang : option string) (objs : list Term)
      (v : string) :
  first_literal lang objs = Some v ->
  exists v', first_literal None objs = Some v'.
Proof.
  intros Hv.
  destruct (first_literal None objs) as [v'|] eqn:En; [now exists v'|].
  apply first_literal_none in En.
  apply first_literal_some in Hv.
  destruct Hv as [pre [language [post [Ho [Ha _]]]]].
  rewrite Ho, forallb_app in En. apply andb_true_iff in En.
  destruct En as [_ En]. cbn [forallb] in En.
  apply accepted_any in Ha. rewrite Ha in En. discriminate.
Qed.

Section Literals.
Context {G : Type} `{TripleSource G}.

(** X9: [_get_literal] returns the text of the first object, in enumeration
    order, that is a literal and -- when a language is asked for -- carries
    exactly that language tag; it returns [None] exactly when no object
    qualifies.  Hence a subject with a language-specific text always has a
    language-neutral one, which is the text of its first literal whatever
    the tag. *)
Theorem get_literal_returns_first_accepted
        (g : G) (s p : Term) (lang : option string) :
  (forall v,
      _get_literal g s p lang = Some v
      <-> exists pre language post,
            objects g s p = pre ++ Literal v language :: post
            /\ accepted lang (Literal v language) = true
            /\ forallb (fun t => negb (accepted lang t)) pre = true)
  /\ (_get_literal g s p lang = None
      <-> forallb (fun t => negb (accepted lang t)) (objects g s p) = true)
  /\ (forall v, _get_literal g s p lang = Some v ->
                exists v', _get_literal g s p None = Some v').
Proof.
  unfold _get_literal. split; [|split].
  - intros v. split; [apply first_literal_some|].
    intros [pre [language [post [-> [Ha Hp]]]]].
    rewrite (first_literal_skips lang pre _ Hp).
    now apply first_literal_takes.
  - apply first_literal_none.
  - intros v Hv. now apply (specific_implies_neutral lang _ v).
Qed.

(** X18: in a graph returned by [parse_ontology], a node that has a
    language-specific text also has the language-neutral one: [label_zh]
    present implies [label] present, and [definition_zh] present implies
    [definition] present. *)
Theorem localized_text_implies_neutral_text
        (read_graph : string -> Result G) (file_path : string) (nodes : Nodes) :
  parse_ontology read_graph file_path = Ok nodes ->
  forall n, In n (Dict.values nodes) ->
    (TreeNode.label_zh n <> None -> TreeNode.label n <> None)
    /\ (TreeNode.definition_zh n <> None -> TreeNode.definition n <> None).
Proof.
  intros Hp n Hin. destruct (parse_ontology_inv _ _ _ Hp) as [g [_ Hb]].
  destruct (built_keyed g nodes Hb) as [Hnd _].
  destruct (In_values_get nodes n Hnd Hin) as [k Hg].
  destruct (built_attributes g nodes Hb) as [Hattr _].
  specialize (Hattr k n Hg).
  destruct (last_declaring g k (subjects g RDF_type OWL_Class)) as [s|].
  - destruct Hattr as [_ [_ [_ [Hl [Hlz [Hd [Hdz _]]]]]]].
    cbn [class_node TreeNode.label TreeNode.label_zh TreeNode.definition
         TreeNode.definition_zh] in Hl, Hlz, Hd, Hdz.
    rewrite <- Hl, <- Hlz, <- Hd, <- Hdz. unfold _get_literal. split.
    + intros Hz.
      destruct (first_literal (Some "zh") (objects g s RDFS_label)) as [v|] eqn:E;
        [|contradiction].
      destruct (specific_implies_neutral _ _ _ E) as [v' ->]. discriminate.
    + intros Hz.
      destruct (first_literal (Some "zh") (objects g s (OBO "IAO_0000115")))
        as [v|] eqn:E; [|contradiction].
      destruct (specific_implies_neutral _ _ _ E) as [v' ->]. discriminate.
  - destruct Hattr as [_ [_ [_ [Hlz [_ [Hdz _]]]]]].
    cbn in Hlz, Hdz. split; intros Hz; congruence.
Qed.

End Literals.

(** ** Search and the length of the query *)

Lemma append_assoc_str (a b c : string) :
  ((a ++ b) ++ c)%string = (a ++ (b ++ c))%string.
Proof. induction a as [|x a IH]; simpl; [reflexivity | now rewrite IH]. Qed.

Lemma substring_trans (a b c : string) :
  Substring a b -> Substring b c -> Substring a c.
Proof.
  intros [pre1 [post1 ->]] [pre2 [post2 ->]].
  exists (pre2 ++ pre1)%string, (post1 ++ post2)%string.
  now rewrite !append_assoc_str.
Qed.

Section SearchFacts.
Context `{CaseFolding}.

(** X10: a query that, lowered, is contained in another lowered query finds
    at least the nodes the other finds; and a search never returns a node
    that is not in the snapshot or has no non-empty text field. *)
Theorem search_narrows_with_longer_query (data : Nodes) (q1 q2 : string) :
  Substring (lower q1) (lower q2) ->
  (forall n, In n (search_in data q2) -> In n (search_in data q1))
  /\ (forall n, In n (search_in data q2) ->
                In n (Dict.values data) /\ has_text n = true).
Proof.
  intros Hsub. unfold search_in. rewrite !search_loop_filter. simpl. split.
  - intros n Hin. apply filter_In in Hin. destruct Hin as [Hin Hhit].
    apply filter_In. split; [exact Hin|].
    apply hit_iff in Hhit. apply hit_iff.
    destruct Hhit as [f [Hf [Hne Hs]]]. exists f.
    split; [exact Hf|]. split; [exact Hne|].
    now apply (substring_trans _ (lower q2)).
  - intros n Hin. apply filter_In in Hin. destruct Hin as [Hin Hhit].
    split; [exact Hin|].
    apply hit_iff in Hhit. destruct Hhit as [f [Hf [Hne _]]].
    unfold has_text. apply existsb_exists. exists (Some f).
    split; [exact Hf|]. destruct f; [contradiction | reflexivity].
Qed.

End SearchFacts.

Lemma search_narrows_witness :
  Substring (lower "instr") (lower "Instrument")
  /\ (forall n, In n (search_in Demo.scenario_nodes "Instrument") ->
                In n (search_in Demo.scenario_nodes "instr")).
Proof.
  assert (Hs : Substring (lower "instr") (lower "Instrument")).
  { exists EmptyString, "ument". reflexivity. }
  split; [exact Hs|].
  apply (search_narrows_with_longer_query Demo.scenario_nodes "instr" "Instrument" Hs).
Defined.

(** ** The router *)

Section RouterFacts.
Context {G : Type} `{TripleSource G} `{CaseFolding}.

Lemma with_data_on_new_instance {A : Type} (env : Env G) (path : string)
      (k : Nodes -> list Event * Result A) :
  with_data env (__init__ path) k
  = match parse_ontology (read_graph env) path with
    | Ok data =>
        {| self' := {| owl_file_path := path;
                       _cache := Some data;
                       _cache_timestamp := Some (time_time env) |};
           events := ParseAttempt path :: fst (k data);
           result := snd (k data) |}
    | Raise e =>
        {| self' := __init__ path;
           events := [ParseAttempt path];
           result := Raise e |}
    end.
Proof.
  unfold with_data, _get_parsed_data, rebuild, __init__. cbn.
  now destruct (parse_ontology (read_graph env) path).
Qed.

(** X11: because the service instance is created anew for every request,
    every endpoint parses the document, whatever the time of the request and
    whatever was served before: the cache is never hit through the router.
    The only other action is the file written by a successful export. *)
Theorem every_request_parses_the_document
        (env : Env G) (path term_id q : string) (describe : Exception -> string) :
  Router.actions (Router.with_dependency path (Router.get_all_terms env))
  = [ParseAttempt path]
  /\ Router.actions (Router.with_dependency path (Router.get_term_by_id env term_id))
     = [ParseAttempt path]
  /\ Router.actions (Router.with_dependency path (Router.search_terms env q))
     = [ParseAttempt path]
  /\ Router.actions (Router.with_dependency path (Router.get_ontology_stats env))
     = [ParseAttempt path]
  /\ (exists more,
         Router.actions
           (Router.with_dependency path (Router.export_ontology describe env))
         = ParseAttempt path :: more
         /\ forall ev, In ev more -> exists p w, ev = Wrote p w).
Proof.
  unfold Router.with_dependency, Router.get_ontology_service,
    Router.get_all_terms, Router.get_term_by_id, Router.search_terms,
    Router.get_ontology_stats, Router.export_ontology, Router.pass_through,
    get_all_terms, get_term_by_id, search_terms, get_statistics, export_to_json.
  cbn [Router.actions].
  rewrite !with_data_on_new_instance.
  destruct (parse_ontology (read_graph env) path) as [data|e]; cbn.
  - repeat split.
    destruct (save_nodes_to_json (strftime_now env) (isoformat_now env)
                                 (can_write env) data None) as [[p w]|e].
    + eexists. split; [reflexivity|].
      intros ev [<-|[]]. now exists p, w.
    + eexists. split; [reflexivity|]. intros ev [].
  - repeat split. eexists. split; [reflexivity|]. intros ev [].
Qed.

(** X12: the term endpoint lets a failure to read the document through
    unhandled; on a readable document it returns the node with the requested
    id when that id is mentioned in the document, and raises the 404
    exception naming the id when it is not. *)
Theorem term_endpoint_finds_mentioned_ids
        (env : Env G) (path term_id : string) :
  let r := Router.reply
             (Router.with_dependency path (Router.get_term_by_id env term_id)) in
  (forall e, read_graph env path = Raise e -> r = Router.Unhandled e)
  /\ (forall g, read_graph env path = Ok g ->
        (In term_id (mentions g) ->
         exists n, r = Router.Returned n /\ TreeNode.id n = term_id)
        /\ (~ In term_id (mentions g) ->
            r = Router.HTTPException 404
                  ("Term with ID '" ++ term_id ++ "' not found"))).
Proof.
  cbv zeta.
  unfold Router.with_dependency, Router.get_ontology_service,
    Router.get_term_by_id, get_term_by_id.
  cbn [Router.reply]. rewrite with_data_on_new_instance.
  unfold parse_ontology. split.
  - intros e ->. reflexivity.
  - intros g ->. cbn [Py.bind].
    destruct (build_spec g) as [nodes [Hb [Hnd Hk]]]. rewrite Hb. cbn.
    pose proof (build_keys g nodes Hb) as Hkeys.
    assert (Hmem : Dict.mem term_id nodes = true <-> In term_id (mentions g)).
    { rewrite mem_keys, Hkeys. unfold first_seen.
      pose proof (fold_see_In (mentions g) [] term_id) as Hf. split.
      - intros Hex. apply existsb_exists in Hex. destruct Hex as [y [Hy Hky]].
        apply String.eqb_eq in Hky. subst y.
        apply Hf in Hy. destruct Hy as [[]|Hy]. exact Hy.
      - intros Hin. apply existsb_exists. exists term_id.
        split; [apply Hf; now right | apply String.eqb_refl]. }
    unfold Dict.mem in Hmem.
    destruct (Dict.get term_id nodes) as [n|] eqn:Eg.
    + split.
      * intros _. exists n. split; [reflexivity|].
        destruct (Hk term_id) as [_ [_ [Hnode _]]]. now apply (Hnode n Eg).
      * intros Hno. exfalso. apply Hno. now apply Hmem.
    + split.
      * intros Hin. apply Hmem in Hin. discriminate.
      * intros _. reflexivity.
Qed.


End RouterFacts.

(** ** Export: what the written object preserves *)

(** X14: the object [save_nodes_to_json] writes determines the snapshot:
    two dictionaries that are written as the same object are equal, node by
    node and in the same order. *)
Theorem written_object_determines_the_snapshot
        (strftime1 iso1 strftime2 iso2 : string) (can1 can2 : string -> bool)
        (nodes1 nodes2 : Nodes) (out1 out2 : option string)
        (path1 path2 : string) (written : Json) :
  NoDup (Dict.keys nodes1) -> NoDup (Dict.keys nodes2) ->
  save_nodes_to_json strftime1 iso1 can1 nodes1 out1 = Ok (path1, written) ->
  save_nodes_to_json strftime2 iso2 can2 nodes2 out2 = Ok (path2, written) ->
  nodes1 = nodes2.
Proof.
  intros Hnd1 Hnd2 Hs1 Hs2.
  pose proof (save_nodes_to_json_table _ _ _ _ _ _ _ Hnd1 Hs1) as Ht1.
  pose proof (save_nodes_to_json_table _ _ _ _ _ _ _ Hnd2 Hs2) as Ht2.
  rewrite Ht1 in Ht2. injection Ht2 as Hm.
  apply (map_injective _ _ _) in Hm; [exact Hm|].
  intros [k1 n1] [k2 n2]. simpl. intros Hp.
  pose proof (f_equal fst Hp) as Hk. pose proof (f_equal snd Hp) as Hn.
  simpl in Hk, Hn. now rewrite Hk, (TreeNode_dict_inj _ _ Hn).
Qed.

(** ** The instance across operations *)

Section InstanceFacts.
Context {G : Type} `{TripleSource G} `{CaseFolding}.

(** X16: what every operation keeps true of the instance: the snapshot and
    its timestamp are both set or both unset, and a held snapshot has
    pairwise distinct ids as keys. *)
Theorem operations_keep_the_instance_well_formed
        (env : Env G) (self : OntologyService.t) (req : Request) :
  coherent self -> cache_is_dict self ->
  coherent (self' (handle env self req))
  /\ cache_is_dict (self' (handle env self req))
  /\ owl_file_path (self' (handle env self req)) = owl_file_path self.
Proof.
  intros Hco Hd. destruct (handle_invariants env self req Hco Hd) as [H1 H2].
  split; [exact H1|]. split; [exact H2|].
  destruct (is_clear req) eqn:Hc.
  - destruct req; try discriminate. reflexivity.
  - destruct (get_parsed_data_cases env self)
      as [[_ Hg] | [_ [data [_ Hg]]]].
    + destruct (parse_ontology (read_graph env) (owl_file_path self))
        as [d|e] eqn:Ep.
      * now rewrite (handle_rebuild_ok env self req d Hc Hg Ep).
      * now rewrite (handle_rebuild_fails env self req e Hc Hg Ep).
    + now rewrite (handle_fresh env self req data Hc Hg).
Qed.

End InstanceFacts.

(** ** Cleaning the content of a document *)

Example cleaning_escapes_a_label :
  XMLContent._clean_xml_content XMLContent.__init__
    "<x><rdfs:label>m/z < 5 & more</rdfs:label><y>a & b</y></x>"
  = ({| XMLContent.cleaned_count := 1; XMLContent.error_count := 0 |},
     "<x><rdfs:label>m/z &lt; 5 &amp; more</rdfs:label><y>a & b</y></x>").
Proof. reflexivity. Qed.

Lemma drop_app_length (x y : string) : XMLContent.drop (String.length x) (x ++ y) = y.
Proof. induction x as [|c x IH]; simpl; [now destruct y | exact IH]. Qed.

Lemma drop_zero (s : string) : XMLContent.drop 0 s = s.
Proof. now destruct s. Qed.

Lemma drop_app_more (x y : string) (n : nat) :
  XMLContent.drop (String.length x + n) (x ++ y) = XMLContent.drop n y.
Proof. induction x as [|c x IH]; simpl; [reflexivity | exact IH]. Qed.

Lemma prefix_split (x s : string) :
  String.prefix x s = true -> s = (x ++ XMLContent.drop (String.length x) s)%string.
Proof.
  intros Hp. apply prefix_iff in Hp. destruct Hp as [post ->].
  now rewrite drop_app_length.
Qed.

Lemma find_first_split (needle s before after : string) :
  XMLContent.find_first needle s = Some (before, after) ->
  s = (before ++ needle ++ after)%string.
Proof.
  revert before; induction s as [|c s IH]; intros before; cbn [XMLContent.find_first].
  - destruct (String.prefix needle EmptyString) eqn:Ep; [|discriminate].
    intros Hf. injection Hf as <- <-. now apply prefix_split in Ep.
  - destruct (String.prefix needle (String c s)) eqn:Ep.
    + intros Hf. injection Hf as <- <-. now apply prefix_split in Ep.
    + destruct (XMLContent.find_first needle s) as [[b a]|]; [|discriminate].
      intros Hf. injection Hf as <- <-. simpl. f_equal. now apply IH.
Qed.

Lemma replace_from_self (a : ascii) (x s : string) (k : nat) :
  Py.replace_from (String a x) (String a x) k s = XMLContent.drop k s.
Proof.
  revert k; induction s as [|c s IH]; intros k.
  - now destruct k.
  - destruct k as [|k]; cbn [Py.replace_from XMLContent.drop]; [|apply IH].
    destruct (String.prefix (String a x) (String c s)) eqn:Ep.
    + rewrite IH. pose proof (prefix_split _ _ Ep) as Hs.
      cbn [String.length Nat.sub]. rewrite Nat.sub_0_r.
      cbn [String.length XMLContent.drop] in Hs. exact (eq_sym Hs).
    + now rewrite IH, drop_zero.
Qed.

Lemma replace_self (x s : string) : Py.replace x x s = s.
Proof.
  destruct x as [|a x].
  - simpl. induction s as [|c s IH]; simpl; [reflexivity | now rewrite IH].
  - unfold Py.replace. now rewrite replace_from_self, drop_zero.
Qed.

Lemma replace_func_stats (o c body : string) (st : XMLContent.Stats) :
  let m := XMLContent.replace_func o c body st in
  XMLContent.error_count (fst m) = XMLContent.error_count st
  /\ (XMLContent.cleaned_count st <= XMLContent.cleaned_count (fst m))%nat
  /\ (XMLContent.cleaned_count (fst m) = XMLContent.cleaned_count st ->
      snd m = (o ++ body ++ c)%string
      /\ XMLCleaner.escape_xml_chars body = body).
Proof.
  cbv zeta. unfold XMLContent.replace_func. cbn [fst snd].
  destruct (String.eqb (XMLCleaner.escape_xml_chars body) body) eqn:E;
    cbn [negb XMLContent.cleaned_count XMLContent.error_count].
  - apply String.eqb_eq in E. rewrite E, replace_self.
    repeat split; lia.
  - repeat split; try lia.
Qed.

Lemma re_sub_tag_stats (o c s : string) (skip : nat) (st : XMLContent.Stats) :
  (1 <= String.length o)%nat ->
  let r := XMLContent.re_sub_tag o c skip s st in
  XMLContent.error_count (fst r) = XMLContent.error_count st
  /\ (XMLContent.cleaned_count st <= XMLContent.cleaned_count (fst r))%nat
  /\ (XMLContent.cleaned_count (fst r) = XMLContent.cleaned_count st ->
      snd r = XMLContent.drop skip s).
Proof.
  intros Hlen. cbv zeta.
  revert skip st; induction s as [|ch rest IH]; intros skip st.
  - cbn. repeat split; [lia | now destruct skip].
  - destruct skip as [|k]; cbn [XMLContent.re_sub_tag XMLContent.drop];
      [|apply IH].
    assert (Hno : let r := XMLContent.re_sub_tag o c 0%nat rest st in
              XMLContent.error_count (fst (fst r, String ch (snd r)))
              = XMLContent.error_count st
              /\ (XMLContent.cleaned_count st
                  <= XMLContent.cleaned_count (fst (fst r, String ch (snd r))))%nat
              /\ (XMLContent.cleaned_count (fst (fst r, String ch (snd r)))
                  = XMLContent.cleaned_count st ->
                  snd (fst r, String ch (snd r)) = String ch rest)).
    { cbv zeta. cbn [fst snd]. destruct (IH 0%nat st) as [He [Hle Hsame]].
      split; [exact He|]. split; [exact Hle|].
      intros Hc. now rewrite (Hsame Hc), drop_zero. }
    cbv zeta in Hno.
    destruct (String.prefix o (String ch rest)) eqn:Ep; [|exact Hno].
    destruct (XMLContent.find_first c
                (XMLContent.drop (String.length o) (String ch rest)))
      as [[body after]|] eqn:Ef; [|exact Hno].
    clear Hno. cbn [fst snd].
    destruct (replace_func_stats o c body st) as [He1 [Hle1 Hsame1]].
    destruct (IH (String.length o + String.length body + String.length c - 1)%nat
                 (fst (XMLContent.replace_func o c body st)))
      as [He2 [Hle2 Hsame2]].
    split; [congruence|]. split; [lia|].
    intros Hc.
    assert (Hc1 : XMLContent.cleaned_count (fst (XMLContent.replace_func o c body st))
                  = XMLContent.cleaned_count st) by lia.
    destruct (Hsame1 Hc1) as [Htext _].
    rewrite Htext, Hsame2 by lia.
    pose proof (prefix_split _ _ Ep) as Hs.
    pose proof (find_first_split _ _ _ _ Ef) as Hd.
    rewrite Hd in Hs.
    assert (Hrest : XMLContent.drop
                      (String.length o + String.length body + String.length c - 1)%nat
                      rest = after).
    { replace (String.length o + String.length body + String.length c - 1)%nat
        with (String.length o - 1 + (String.length body + String.length c))%nat
        by lia.
      destruct o as [|a o']; [simpl in Hlen; lia|].
      cbn [String.length Nat.sub] in *. rewrite Nat.sub_0_r.
      cbn [append] in Hs. injection Hs as _ Hs. rewrite Hs.
      rewrite drop_app_more.
      rewrite <- append_assoc_str, <- string_length_app.
      apply drop_app_length. }
    rewrite Hrest, Hs. now rewrite !append_assoc_str.
Qed.

Lemma replace_from_length (a : ascii) (x new s : string) (k : nat) :
  (String.length (String a x) <= String.length new)%nat ->
  (String.length s <= String.length (Py.replace_from (String a x) new k s) + k)%nat.
Proof.
  intros Hlen. revert k; induction s as [|c s IH]; intros k; [simpl; lia|].
  destruct k as [|k]; cbn [Py.replace_from].
  - destruct (String.prefix (String a x) (String c s)).
    + rewrite string_length_app.
      specialize (IH (String.length (String a x) - 1)%nat).
      cbn [String.length] in *. lia.
    + specialize (IH 0%nat). cbn [String.length]. lia.
  - specialize (IH k). cbn [String.length]. lia.
Qed.

Lemma replace_from_longer (a : ascii) (x new s : string) (k : nat) :
  (String.length (String a x) < String.length new)%nat ->
  Py.contains (String a x) (XMLContent.drop k s) = true ->
  (String.length s < String.length (Py.replace_from (String a x) new k s) + k)%nat.
Proof.
  intros Hlen. revert k; induction s as [|c s IH]; intros k.
  - destruct k; simpl; discriminate.
  - destruct k as [|k]; cbn [Py.replace_from XMLContent.drop].
    + cbn [Py.contains].
      destruct (String.prefix (String a x) (String c s)).
      * intros _. rewrite string_length_app.
        pose proof (replace_from_length a x new s
                      (String.length (String a x) - 1)%nat) as Hle.
        cbn [String.length] in *. lia.
      * cbn [orb]. intros Hc. specialize (IH 0%nat).
        rewrite drop_zero in IH. specialize (IH Hc).
        cbn [String.length]. lia.
    + intros Hc. specialize (IH k Hc). cbn [String.length]. lia.
Qed.

Lemma replace_func_length (o c body : string) (st : XMLContent.Stats) :
  let m := XMLContent.replace_func o c body st in
  (String.length (o ++ body ++ c) <= String.length (snd m))%nat
  /\ ((XMLContent.cleaned_count st < XMLContent.cleaned_count (fst m))%nat ->
      (String.length (o ++ body ++ c) < String.length (snd m))%nat).
Proof.
  cbv zeta. unfold XMLContent.replace_func. cbn [fst snd].
  destruct (String.eqb (XMLCleaner.escape_xml_chars body) body) eqn:E;
    cbn [negb XMLContent.cleaned_count].
  - apply String.eqb_eq in E. rewrite E, replace_self. split; lia.
  - apply String.eqb_neq in E. rewrite escape_is_char_map in *.
    assert (Hsp : no_special body = false).
    { destruct (no_special body) eqn:Es; [|reflexivity].
      exfalso. apply E. now apply escape_plain_text. }
    destruct (escape_length body) as [_ Hlt]. specialize (Hlt Hsp).
    destruct body as [|b body']; [simpl in Hlt; lia|].
    assert (Hin : Py.contains (String b body') (o ++ String b body' ++ c) = true).
    { apply contains_iff. now exists o, c. }
    pose proof (replace_from_longer b body' (char_map escape_char (String b body'))
                  (o ++ String b body' ++ c) 0 Hlt) as Hl.
    rewrite drop_zero in Hl. specialize (Hl Hin).
    unfold Py.replace. split; intros; lia.
Qed.

Lemma re_sub_tag_length (o c s : string) (skip : nat) (st : XMLContent.Stats) :
  (1 <= String.length o)%nat ->
  let r := XMLContent.re_sub_tag o c skip s st in
  (String.length s <= String.length (snd r) + skip)%nat
  /\ ((XMLContent.cleaned_count st < XMLContent.cleaned_count (fst r))%nat ->
      (String.length s < String.length (snd r) + skip)%nat).
Proof.
  intros Hlen. cbv zeta.
  revert skip st; induction s as [|ch rest IH]; intros skip st.
  - cbn. split; lia.
  - destruct skip as [|k]; cbn [XMLContent.re_sub_tag].
    2:{ destruct (IH k st) as [H1 H2]. cbn [String.length]. split; intros; [|specialize (H2 H)]; lia. }
    assert (Hno : (String.length (String ch rest)
                   <= String.length
                        (snd (fst (XMLContent.re_sub_tag o c 0 rest st),
                              String ch (snd (XMLContent.re_sub_tag o c 0 rest st))))
                      + 0)%nat
                  /\ ((XMLContent.cleaned_count st
                       < XMLContent.cleaned_count
                           (fst (fst (XMLContent.re_sub_tag o c 0 rest st),
                                 String ch (snd (XMLContent.re_sub_tag o c 0 rest st)))))%nat ->
                      (String.length (String ch rest)
                       < String.length
                           (snd (fst (XMLContent.re_sub_tag o c 0 rest st),
                                 String ch (snd (XMLContent.re_sub_tag o c 0 rest st))))
                         + 0)%nat)).
    { cbn [fst snd String.length]. destruct (IH 0%nat st) as [H1 H2].
      split; [lia|]. intros Hc. specialize (H2 Hc). lia. }
    destruct (String.prefix o (String ch rest)) eqn:Ep; [|exact Hno].
    destruct (XMLContent.find_first c
                (XMLContent.drop (String.length o) (String ch rest)))
      as [[body after]|] eqn:Ef; [|exact Hno].
    clear Hno. cbn [fst snd].
    destruct (replace_func_length o c body st) as [Hm1 Hm2].
    destruct (replace_func_stats o c body st) as [_ [Hle1 _]].
    destruct (IH (String.length o + String.length body + String.length c - 1)%nat
                 (fst (XMLContent.replace_func o c body st))) as [Hr1 Hr2].
    destruct (re_sub_tag_stats o c rest
                (String.length o + String.length body + String.length c - 1)%nat
                (fst (XMLContent.replace_func o c body st)) Hlen) as [_ [Hle2 _]].
    rewrite !string_length_app in *. cbn [String.length] in *.
    split; [lia|]. intros Hc.
    destruct (Nat.eq_dec (XMLContent.cleaned_count st)
                (XMLContent.cleaned_count (fst (XMLContent.replace_func o c body st))))
      as [Heq|Hne].
    + assert (Hc2 : (XMLContent.cleaned_count (fst (XMLContent.replace_func o c body st))
                     < XMLContent.cleaned_count
                         (fst (XMLContent.re_sub_tag o c
                                 (String.length o + String.length body
                                  + String.length c - 1)%nat rest
                                 (fst (XMLContent.replace_func o c body st)))))%nat)
        by lia.
      specialize (Hr2 Hc2). lia.
    + assert (Hc1 : (XMLContent.cleaned_count st
                     < XMLContent.cleaned_count
                         (fst (XMLContent.replace_func o c body st)))%nat) by lia.
      specialize (Hm2 Hc1). lia.
Qed.

Lemma patterns_nonempty :
  Forall (fun pat => (1 <= String.length (fst pat))%nat) XMLContent.patterns.
Proof. repeat constructor; simpl; lia. Qed.

Lemma clean_passes (pats : list (string * string)) (st : XMLContent.Stats)
      (content : string) :
  Forall (fun pat => (1 <= String.length (fst pat))%nat) pats ->
  let r := fold_left (fun acc pattern =>
                        XMLContent.re_sub_tag (fst pattern) (snd pattern) 0
                                              (snd acc) (fst acc))
                     pats (st, content) in
  XMLContent.error_count (fst r) = XMLContent.error_count st
  /\ (XMLContent.cleaned_count st <= XMLContent.cleaned_count (fst r))%nat
  /\ (String.length content <= String.length (snd r))%nat
  /\ (XMLContent.cleaned_count (fst r) = XMLContent.cleaned_count st ->
      snd r = content)
  /\ ((XMLContent.cleaned_count st < XMLContent.cleaned_count (fst r))%nat ->
      (String.length content < String.length (snd r))%nat).
Proof.
  intros Hpats. cbv zeta.
  revert st content; induction Hpats as [|[o c] pats Ho _ IH]; intros st content.
  - cbn. repeat split; lia.
  - cbn [fold_left fst snd].
    destruct (re_sub_tag_stats o c content 0 st Ho) as [He1 [Hle1 Hsame1]].
    destruct (re_sub_tag_length o c content 0 st Ho) as [Hl1 Hlt1].
    set (r1 := XMLContent.re_sub_tag o c 0 content st) in *.
    specialize (IH (fst r1) (snd r1)).
    replace (fst r1, snd r1) with r1 in IH by now destruct r1.
    destruct IH as [He2 [Hle2 [Hl2 [Hsame2 Hlt2]]]].
    split; [congruence|]. split; [lia|]. split; [lia|]. split.
    + intros Hc. rewrite Hsame2 by lia. rewrite Hsame1 by lia. apply drop_zero.
    + intros Hc.
      destruct (Nat.eq_dec (XMLContent.cleaned_count st)
                           (XMLContent.cleaned_count (fst r1))) as [Heq|Hne].
      * assert (Hc2 : (XMLContent.cleaned_count (fst r1)
                       < XMLContent.cleaned_count
                           (fst (fold_left
                                   (fun acc pattern =>
                                      XMLContent.re_sub_tag (fst pattern) (snd pattern)
                                                            0 (snd acc) (fst acc))
                                   pats r1)))%nat) by lia.
        specialize (Hlt2 Hc2). lia.
      * assert (Hc1 : (XMLContent.cleaned_count st
                       < XMLContent.cleaned_count (fst r1))%nat) by lia.
        specialize (Hlt1 Hc1). lia.
Qed.

(** X17: [_clean_xml_content] never shortens the content and never touches
    the error counter; it returns the content unchanged exactly when it
    counts no cleaned tag, and a longer one otherwise. *)
Theorem cleaning_changes_content_iff_it_counts
        (self : XMLContent.Stats) (content : string) :
  let r := XMLContent._clean_xml_content self content in
  XMLContent.error_count (fst r) = XMLContent.error_count self
  /\ (XMLContent.cleaned_count self <= XMLContent.cleaned_count (fst r))%nat
  /\ (String.length content <= String.length (snd r))%nat
  /\ (snd r = content
      <-> XMLContent.cleaned_count (fst r) = XMLContent.cleaned_count self)
  /\ (snd r <> content -> (String.length content < String.length (snd r))%nat).
Proof.
  cbv zeta. unfold XMLContent._clean_xml_content.
  destruct (clean_passes XMLContent.patterns self content patterns_nonempty)
    as [He [Hle [Hl [Hsame Hlt]]]].
  split; [exact He|]. split; [exact Hle|]. split; [exact Hl|].
  assert (Hstrict : snd (fold_left
                           (fun acc pattern =>
                              XMLContent.re_sub_tag (fst pattern) (snd pattern) 0
                                                    (snd acc) (fst acc))
                           XMLContent.patterns (self, content)) <> content ->
                    (String.length content
                     < String.length
                         (snd (fold_left
                                 (fun acc pattern =>
                                    XMLContent.re_sub_tag (fst pattern) (snd pattern) 0
                                                          (snd acc) (fst acc))
                                 XMLContent.patterns (self, content))))%nat).
  { intros Hne. apply Hlt.
    destruct (Nat.eq_dec
                (XMLContent.cleaned_count
                   (fst (fold_left
                           (fun acc pattern =>
                              XMLContent.re_sub_tag (fst pattern) (snd pattern) 0
                                                    (snd acc) (fst acc))
                           XMLContent.patterns (self, content))))
                (XMLContent.cleaned_count self)) as [Hc|Hc]; [|lia].
    exfalso. apply Hne. now apply Hsame. }
  split; [|exact Hstrict]. split.
  - intros Heq.
    destruct (Nat.eq_dec
                (XMLContent.cleaned_count
                   (fst (fold_left
                           (fun acc pattern =>
                              XMLContent.re_sub_tag (fst pattern) (snd pattern) 0
                                                    (snd acc) (fst acc))
                           XMLContent.patterns (self, content))))
                (XMLContent.cleaned_count self)) as [Hc|Hc]; [exact Hc|].
    assert (Hlt' : (XMLContent.cleaned_count self
                    < XMLContent.cleaned_count
                        (fst (fold_left
                                (fun acc pattern =>
                                   XMLContent.re_sub_tag (fst pattern) (snd pattern) 0
                                                         (snd acc) (fst acc))
                                XMLContent.patterns (self, content))))%nat) by lia.
    specialize (Hlt Hlt'). rewrite Heq in Hlt. lia.
  - exact Hsame.
Qed.

(** ** Instances of the further properties *)

Lemma scenario_nodes_distinct : NoDup (Dict.keys Demo.scenario_nodes).
Proof. repeat constructor; simpl; intuition discriminate. Defined.

Lemma node_ids_are_unique_keys_witness :
  parse_ontology (fun _ => Ok Demo.scenario_graph) "psi-ms-zh.owl"
  = Ok Demo.scenario_nodes
  /\ NoDup (map TreeNode.id (Dict.values Demo.scenario_nodes))
  /\ map TreeNode.id (Dict.values Demo.scenario_nodes)
     = Dict.keys Demo.scenario_nodes
  /\ (forall k n, Dict.get k Demo.scenario_nodes = Some n -> TreeNode.id n = k)
  /\ (forall n, In n (Dict.values Demo.scenario_nodes) ->
                Dict.get (TreeNode.id n) Demo.scenario_nodes = Some n).
Proof.
  split; [reflexivity|].
  apply (node_ids_are_unique_keys (fun _ => Ok Demo.scenario_graph) "psi-ms-zh.owl").
  reflexivity.
Defined.

Lemma edges_point_to_nodes_witness :
  parse_ontology (fun _ => Ok Demo.scenario_graph) "psi-ms-zh.owl"
  = Ok Demo.scenario_nodes
  /\ forall n, In n (Dict.values Demo.scenario_nodes) ->
       forall p, In p (TreeNode.parents n) ->
         Dict.mem (ParentRelation.parentId p) Demo.scenario_nodes = true.
Proof.
  split; [reflexivity|]. intros n Hn p Hp.
  assert (Hb : parse_ontology (fun _ => Ok Demo.scenario_graph) "psi-ms-zh.owl"
               = Ok Demo.scenario_nodes) by reflexivity.
  apply (edges_point_to_nodes (fun _ => Ok Demo.scenario_graph) "psi-ms-zh.owl"
           Demo.scenario_nodes Hb n Hn).
  exact Hp.
Defined.

Lemma attributes_come_from_declarations_witness :
  build Demo.scenario_graph = Ok Demo.scenario_nodes
  /\ forall s, In s (subjects Demo.scenario_graph RDF_type OWL_Class) ->
               Dict.mem (resolve Demo.scenario_graph s) Demo.scenario_nodes = true.
Proof.
  split; [reflexivity|].
  assert (Hb : build Demo.scenario_graph = Ok Demo.scenario_nodes) by reflexivity.
  exact (proj2 (attributes_come_from_declarations
                  Demo.scenario_graph Demo.scenario_nodes Hb)).
Defined.

Lemma nodes_are_listed_in_order_witness :
  build Demo.scenario_graph = Ok Demo.scenario_nodes
  /\ Dict.keys Demo.scenario_nodes = first_seen (mentions Demo.scenario_graph).
Proof.
  split; [reflexivity|].
  assert (Hb : build Demo.scenario_graph = Ok Demo.scenario_nodes) by reflexivity.
  exact (proj1 (nodes_are_listed_in_order_of_first_mention
                  Demo.scenario_graph Demo.scenario_nodes Hb)).
Defined.

Lemma total_relations_witness :
  parse_ontology (fun _ => Ok Demo.scenario_graph) "psi-ms-zh.owl"
  = Ok Demo.scenario_nodes
  /\ total_relations (statistics_of Demo.scenario_nodes)
     = sum_over children_count (Dict.values Demo.scenario_nodes).
Proof.
  split; [reflexivity|].
  assert (Hb : parse_ontology (fun _ => Ok Demo.scenario_graph) "psi-ms-zh.owl"
               = Ok Demo.scenario_nodes) by reflexivity.
  exact (proj2 (total_relations_counts_every_edge
                  (fun _ => Ok Demo.scenario_graph) "psi-ms-zh.owl"
                  Demo.scenario_nodes Hb)).
Defined.

Lemma localized_text_witness :
  parse_ontology (fun _ => Ok Demo.scenario_graph) "psi-ms-zh.owl"
  = Ok Demo.scenario_nodes
  /\ forall n, In n (Dict.values Demo.scenario_nodes) ->
       (TreeNode.label_zh n <> None -> TreeNode.label n <> None)
       /\ (TreeNode.definition_zh n <> None -> TreeNode.definition n <> None).
Proof.
  split; [reflexivity|].
  apply (localized_text_implies_neutral_text
           (fun _ => Ok Demo.scenario_graph) "psi-ms-zh.owl").
  reflexivity.
Defined.

Lemma written_object_witness :
  NoDup (Dict.keys Demo.scenario_nodes)
  /\ save_nodes_to_json "20250101_120000" "2025-01-01T12:00:00" (fun _ => true)
                        Demo.scenario_nodes None
     = Ok ("ontology_nodes_20250101_120000.json", Cases.scenario_written)
  /\ save_nodes_to_json "20250102_090000" "2025-01-01T12:00:00" (fun _ => true)
                        Demo.scenario_nodes (Some "out/nodes.json")
     = Ok ("out/nodes.json", Cases.scenario_written)
  /\ Demo.scenario_nodes = Demo.scenario_nodes.
Proof.
  split; [exact scenario_nodes_distinct|].
  split; [reflexivity|]. split; [reflexivity|].
  apply (written_object_determines_the_snapshot
           "20250101_120000" "2025-01-01T12:00:00"
           "20250102_090000" "2025-01-01T12:00:00"
           (fun _ => true) (fun _ => true)
           Demo.scenario_nodes Demo.scenario_nodes None (Some "out/nodes.json")
           "ontology_nodes_20250101_120000.json" "out/nodes.json"
           Cases.scenario_written
           scenario_nodes_distinct scenario_nodes_distinct);
    reflexivity.
Defined.

Lemma operations_keep_well_formed_witness :
  coherent Demo.warm_service /\ cache_is_dict Demo.warm_service
  /\ coherent (self' (handle (Demo.env_at 4000 (Ok Demo.stub_graph))
                             Demo.warm_service GetStatistics))
  /\ cache_is_dict (self' (handle (Demo.env_at 4000 (Ok Demo.stub_graph))
                                  Demo.warm_service GetStatistics))
  /\ owl_file_path (self' (handle (Demo.env_at 4000 (Ok Demo.stub_graph))
                                  Demo.warm_service GetStatistics))
     = owl_file_path Demo.warm_service.
Proof.
  split; [exact warm_service_coherent|].
  split; [exact warm_service_cache_is_dict|].
  apply (operations_keep_the_instance_well_formed
           (Demo.env_at 4000 (Ok Demo.stub_graph)) Demo.warm_service GetStatistics
           warm_service_coherent warm_service_cache_is_dict).
Defined.
